(** * GeoZarr: schema construction, sparse insert and raster overviews

    A shallow embedding of [src/geozarr/dataset.py] and
    [src/geozarr/bilinear.py].  Python exceptions are values of [PyError];
    a call that may raise returns a [result].  Dictionaries whose order is
    irrelevant are [gmap]s, the zarr hierarchy is a flat map from
    normalised paths to nodes, and numpy arrays are a shape with row-major
    cells. *)

From Stdlib Require Import ZArith QArith Ascii.
From stdpp Require Import gmap strings list fin_maps.

Local Open Scope string_scope.
Local Open Scope Z_scope.

(** ** Python exceptions and fallible results *)

Inductive PyError :=
| IndexError          (* subscript out of range *)
| ValueError          (* list.index miss, shape mismatch, empty reduction *)
| ZeroDivisionError   (* numpy.average: weights sum to zero *)
| TypeError           (* wrong operand kind, undersized buffer *)
| KeyError            (* missing path in the hierarchy *)
| AttributeError      (* attribute access on None *)
| CRSError            (* pyproj cannot resolve the CRS *)
| ContainsArrayError  (* zarr: the path already holds an array *)
| ContainsGroupError  (* zarr: the path already holds a group *)
| ReadOnlyError.      (* zarr: write through a read-only handle *)

Inductive result (A : Type) :=
| Ok (a : A)
| Raise (e : PyError).
Arguments Ok {A} a.
Arguments Raise {A} e.

#[global] Instance result_ret : MRet result := fun _ a => Ok a.
#[global] Instance result_bind : MBind result := fun _ _ f m =>
  match m with
  | Ok a => f a
  | Raise e => Raise e
  end.
#[global] Instance result_fmap : FMap result := fun _ _ f m =>
  match m with
  | Ok a => Ok (f a)
  | Raise e => Raise e
  end.

(** [o or_raise e]: the value held by [o], or the exception [e]. *)
Definition or_raise {A} (o : option A) (e : PyError) : result A :=
  match o with
  | Some a => Ok a
  | None => Raise e
  end.

(** Monadic traversal of a list, left to right, stopping at the first
    exception. *)
Fixpoint mapM_result {A B} (f : A -> result B) (l : list A) : result (list B) :=
  match l with
  | [] => Ok []
  | x :: l' => y ← f x; ys ← mapM_result f l'; mret (y :: ys)
  end.

(** Python's [range(start, stop, step)] for a positive step: it has
    [max 0 ((stop - start + step - 1) // step)] elements. *)
Definition py_range (start stop step : nat) : list nat :=
  (fun k => start + k * step)%nat <$> seq 0 ((stop - start + step - 1) / step)%nat.

(** ** bilinear.py *)

(** [numpy.round] on the quotient [s / n] ([n > 0]): to the nearest integer,
    ties to the even one. *)
Definition round_half_even (s n : Z) : Z :=
  let q := s / n in
  let r := s mod n in
  if 2 * r <? n then q
  else if n <? 2 * r then q + 1
  else if Z.even q then q else q + 1.

(** A raster as [create_overview] sees it: shape [(height, width, bands)]
    and the elements decoded from the buffer in row-major order.  Pixel
    values are integers, which covers the integer dtypes; the average of at
    most four such values and its rounding are then exact in binary64 as
    long as the values stay below 2^50. *)
Record Image := {
  im_height : nat;
  im_width : nat;
  im_bands : nat;
  im_content : list Z
}.

(** [image[r, c]]: the pixel at row [r], column [c], one value per band. *)
Definition image_pixel (im : Image) (r c : nat) : list Z :=
  (fun b => default 0 (im_content im !! ((r * im_width im + c) * im_bands im + b)%nat))
    <$> seq 0 (im_bands im).

(** [image[row:row + 2, col:col + 2]]: slices stop at the array bounds, so
    the window has between zero and four pixels. *)
Definition neighborhood (im : Image) (row col : nat) : list (list Z) :=
  r ← filter (fun r => (r < im_height im)%nat) [row; S row];
  c ← filter (fun c => (c < im_width im)%nat) [col; S col];
  [image_pixel im r c].

(** [pixel_values.max()]: over every sample of every band; numpy raises
    ValueError on an empty array. *)
Definition pixels_max (pixel_values : list (list Z)) : result Z :=
  match concat pixel_values with
  | [] => Raise ValueError
  | v :: vs => Ok (foldr Z.max v vs)
  end.

(** One band of [np.round(np.average(pixel_values, (0, 1), weight))] with
    [weight = pixel_values > 0]: numpy refuses weights that sum to zero. *)
Definition band_average (samples : list Z) : result Z :=
  let kept := filter (fun v => 0 < v) samples in
  match kept with
  | [] => Raise ZeroDivisionError
  | _ => Ok (round_half_even (foldr Z.add 0 kept) (Z.of_nat (length kept)))
  end.

(** The samples of band [b] across the window. *)
Definition band_samples (pixel_values : list (list Z)) (b : nat) : list Z :=
  (fun px => default 0 (px !! b)) <$> pixel_values.

(** The value assigned to one overview pixel (lines 31-38, before the
    store into [zoom_image]). *)
Definition overview_pixel (bands : nat) (pixel_values : list (list Z)) : result (list Z) :=
  m ← pixels_max pixel_values;
  if 0 <? m
  then mapM_result (fun b => band_average (band_samples pixel_values b)) (seq 0 bands)
  else Ok (replicate bands 0).

(** The overview array: its shape and its pixels, row by row. *)
Record Overview := {
  ov_shape : nat * nat * nat;
  ov_pixels : list (list (list Z))
}.

(** [zoom_image[r, c] = px]: numpy raises IndexError outside the shape. *)
Definition set_pixel (zoom_image : Overview) (r c : nat) (px : list Z) : result Overview :=
  let '(h, w, _) := ov_shape zoom_image in
  if decide (r < h ∧ c < w)%nat
  then Ok {| ov_shape := ov_shape zoom_image;
             ov_pixels := alter (fun line => <[c := px]> line) r (ov_pixels zoom_image) |}
  else Raise IndexError.

(** The inner loop, [for col in range(start, width, step)]. *)
Fixpoint overview_cols (im : Image) (step row : nat) (cols : list nat)
    (zoom_image : Overview) : result Overview :=
  match cols with
  | [] => Ok zoom_image
  | col :: cols' =>
      px ← overview_pixel (im_bands im) (neighborhood im row col);
      zoom_image' ← set_pixel zoom_image (row / step) (col / step) px;
      overview_cols im step row cols' zoom_image'
  end.

(** The outer loop, [for row in range(start, height, step)]. *)
Fixpoint overview_rows (im : Image) (start step : nat) (rows : list nat)
    (zoom_image : Overview) : result Overview :=
  match rows with
  | [] => Ok zoom_image
  | row :: rows' =>
      zoom_image' ← overview_cols im step row (py_range start (im_width im) step) zoom_image;
      overview_rows im start step rows' zoom_image'
  end.

(** [np.zeros(zoom_shape, array_type)]. *)
Definition np_zeros (h w bands : nat) : Overview :=
  {| ov_shape := (h, w, bands);
     ov_pixels := replicate h (replicate w (replicate bands 0)) |}.

(** [create_overview(array_shape, array_type, content, zoom_level)].
    [np.ndarray] raises TypeError when the buffer holds fewer elements than
    the shape needs.  For [zoom_level <= 0] the expression
    [2 ** (zoom_level - 1)] is a float and [range] (or [np.zeros]) raises
    TypeError. *)
Definition create_overview (array_shape : nat * nat * nat) (content : list Z)
    (zoom_level : Z) : result Overview :=
  let '(height, width, bands) := array_shape in
  if decide (length content < height * width * bands)%nat then Raise TypeError
  else if decide (zoom_level <= 0) then Raise TypeError
  else
    let image := {| im_height := height; im_width := width; im_bands := bands;
                    im_content := content |} in
    let start := (2 ^ (Z.to_nat zoom_level - 1) - 1)%nat in
    let step := (2 ^ Z.to_nat zoom_level)%nat in
    let zoom_image := np_zeros (height / step) (width / step) bands in
    overview_rows image start step (py_range start height step) zoom_image.

(** The line of an overview after the inner loop has stored [px c] at the
    columns [c0, ..., c0 + n - 1], and the rows after the outer loop has
    done so for the rows [r0, ..., r0 + m - 1]. *)
Definition fill_line (px : nat -> list Z) (c0 n : nat) (line : list (list Z)) : list (list Z) :=
  foldl (fun l c => <[c := px c]> l) line (seq c0 n).

Definition fill_rows (px : nat -> nat -> list Z) (w r0 m : nat)
    (pixels : list (list (list Z))) : list (list (list Z)) :=
  foldl (fun p r => alter (fill_line (px r) 0 w) r p) pixels (seq r0 m).

(** The pixel computed for overview position [(r, c)]: lines 31-34 on the
    window whose corner is at row [start + r * step], column
    [start + c * step]. *)
Definition source (im : Image) (start step r c : nat) : result (list Z) :=
  overview_pixel (im_bands im) (neighborhood im (start + r * step) (start + c * step)).

(** The pixel computed for a window, [[]] standing in where the
    computation raises. *)
Definition pixel_or_empty (r : result (list Z)) : list Z :=
  match r with
  | Ok px => px
  | Raise _ => []
  end.

(** ** Strings *)

Definition ascii_lower (c : ascii) : ascii :=
  let n := nat_of_ascii c in
  if decide (65 <= n <= 90)%nat then ascii_of_nat (n + 32) else c.

Definition ascii_upper (c : ascii) : ascii :=
  let n := nat_of_ascii c in
  if decide (97 <= n <= 122)%nat then ascii_of_nat (n - 32) else c.

Fixpoint string_map (f : ascii -> ascii) (s : string) : string :=
  match s with
  | EmptyString => EmptyString
  | String c s' => String (f c) (string_map f s')
  end.

(** [str.lower()] and [str.upper()] on ASCII text. *)
Definition lower : string -> string := string_map ascii_lower.
Definition upper : string -> string := string_map ascii_upper.

(** [s.startswith(p)] and [s[n:]]. *)
Definition startswith (s p : string) : bool := String.prefix p s.
Definition string_from (n : nat) (s : string) : string :=
  String.substring n (String.length s - n) s.

(** ** The geodesy collaborator (pyproj) *)

(** What the setter reads from a [pyproj.CRS].  [source_crs] and
    [coordinate_operation] are [None] on CRS kinds that have none, and an
    attribute read through [None] raises AttributeError. *)
Record Param := { param_name : string; param_value : Q }.

Record CoordinateOperation := {
  method_name : string;
  params : list Param
}.

Record Ellipsoid := {
  inverse_flattening : Q;
  is_semi_minor_computed : bool;
  semi_major_metre : Q;
  semi_minor_metre : Q
}.

Record SourceCRS := { src_coordinate_operation : option CoordinateOperation }.

Record CRS := {
  is_projected : bool;
  coordinate_operation : option CoordinateOperation;
  source_crs : option SourceCRS;
  datum_ellipsoid : Ellipsoid;          (* crs.datum.ellipsoid *)
  ellipsoid : Ellipsoid;                (* crs.ellipsoid *)
  prime_meridian_longitude : Q;         (* crs.prime_meridian.longitude *)
  to_wkt : string
}.

(** The calls whose code lies outside the repository: the builtin [int] on
    a string, [CRS.from_epsg] and [CRS.from_wkt]. *)
Record Runtime := {
  int : string -> result Z;
  from_epsg : Z -> result CRS;
  from_wkt : string -> result CRS
}.

(** ** Attribute dictionaries *)

Inductive AttrValue :=
| AStr (s : string)
| AInt (z : Z)
| AFloat (q : Q)
| AList (l : list string).

Abbreviation Attrs := (gmap string AttrValue).

(** The table [param_dict] of [_transverse_mercator]: the key of [params]
    that a coordinate-operation parameter of this (lower-cased) name
    feeds. *)
Definition param_dict (name : string) : option string :=
  if decide (name = "false easting") then Some "falseEast"
  else if decide (name = "false northing") then Some "falseNorth"
  else if decide (name = "scale factor at natural origin") then Some "scale"
  else if decide (name = "longitude of natural origin") then Some "longOrigin"
  else if decide (name = "latitude of natural origin") then Some "latOrigin"
  else None.

(** The loop filling [params]; a later parameter of the same name
    overwrites an earlier one. *)
Definition collect_params (coord_operation_params : list Param) : gmap string Q :=
  foldl (fun acc param =>
           match param_dict (lower (param_name param)) with
           | Some key => <[key := param_value param]> acc
           | None => acc
           end) ∅ coord_operation_params.

(** [_transverse_mercator(crs)], lines 39-75. *)
Definition _transverse_mercator (crs : CRS) : result Attrs :=
  src ← or_raise (source_crs crs) AttributeError;
  op ← or_raise (src_coordinate_operation src) AttributeError;
  let params := collect_params (params op) in
  let attributes : Attrs :=
    {[ "grid_mapping_name" := AStr "transverse_mercator";
       "inverse_flattening" := AFloat (inverse_flattening (datum_ellipsoid crs));
       "longitude_of_prime_meridian" := AFloat (prime_meridian_longitude crs);
       "false_easting" := AFloat (default 0%Q (params !! "falseEast"));
       "false_northing" := AFloat (default 0%Q (params !! "falseNorth"));
       "scale_factor_at_central_meridian" := AFloat (default 1%Q (params !! "scale"));
       "longitude_of_central_meridian" := AFloat (default 0%Q (params !! "longOrigin"));
       "latitude_of_projection_origin" := AFloat (default 0%Q (params !! "latOrigin")) ]} in
  if is_semi_minor_computed (ellipsoid crs)
  then Ok (<["semi_minor_axis" := AFloat (semi_minor_metre (ellipsoid crs))]>
            (<["semi_major_axis" := AFloat (semi_major_metre (ellipsoid crs))]> attributes))
  else Ok attributes.

(** ** The schema mapping *)

Inductive DimensionType :=
| DIMENSION_VALUE
| COORDINATE_X
| COORDINATE_Y
| COORDINATE_Z.

#[global] Instance DimensionType_eq_dec : EqDecision DimensionType.
Proof. solve_decision. Defined.

(** A numpy dtype is carried as its name; whether a value fits the dtype
    is not modelled. *)
Abbreviation DType := string (only parsing).

(** One entry of ['dimensions']: [(name, standard_name, units, dtype, kind)],
    read as [dim[0]] to [dim[4]]. *)
Record DimensionSpec := {
  dim_name : string;
  dim_standard_name : string;
  dim_units : string;
  dim_dtype : DType;
  dim_kind : DimensionType
}.

(** The ['grid'] entry.  Origin and unit size are Python ints here, so that
    [upperLeft + unitSize * index] is exact. *)
Record Grid := {
  grid_crs : option string;             (* grid['crs'], when the key is there *)
  upperLeft : Z * Z;
  unitSize : Z
}.

(** One variable entry of the schema. *)
Record VarEntry := {
  var_name : string;                    (* value[var]['name'] *)
  var_attributes : Attrs;
  var_shape : list nat;
  var_chunks : option (list nat);       (* the optional key 'chunks' *)
  var_dtype : DType;
  var_dimensions : list DimensionSpec
}.

(** The mapping assigned to [schema].  The two reserved keys are optional
    fields ([None]: the key is not in the mapping, and [del] sets the field
    to [None]); the remaining keys, in insertion order, are the
    variables. *)
Record Schema := {
  global_attributes : option Attrs;
  grid : option Grid;
  variables : list (string * VarEntry)
}.

(** ** The storage collaborator (zarr) and numpy arrays *)

(** An array value: shape, dtype name and row-major cells.  A cell that was
    allocated and never written ([np.empty]) is [None]: its content is
    whatever the allocator left there. *)
Record NDArray := {
  nd_shape : list nat;
  nd_dtype : DType;
  nd_cells : list (option Z)
}.

Definition shape_size (shape : list nat) : nat := foldr Nat.mul 1%nat shape.

(** [np.empty(shape, dtype)]. *)
Definition np_empty (shape : list nat) (dt : DType) : NDArray :=
  {| nd_shape := shape; nd_dtype := dt; nd_cells := replicate (shape_size shape) None |}.

(** [np.array(values, dtype)] on a flat Python list. *)
Definition np_array (values : list Z) (dt : DType) : NDArray :=
  {| nd_shape := [length values]; nd_dtype := dt; nd_cells := Some <$> values |}.

(** The Python list [[a]] as zarr converts it ([np.asanyarray]): one more
    leading axis, of length one. *)
Definition list_of_one (a : NDArray) : NDArray :=
  {| nd_shape := 1%nat :: nd_shape a; nd_dtype := nd_dtype a; nd_cells := nd_cells a |}.

(** The [chunks] argument of [create_dataset]: left out, [False], or a
    chunk shape. *)
Inductive Chunks :=
| ChunksAuto
| ChunksOff
| ChunkShape (c : list nat).

Record ZarrArray := {
  z_data : NDArray;
  z_chunks : Chunks;
  z_attrs : Attrs
}.

Inductive Node :=
| GroupNode (attrs : Attrs)
| ArrayNode (a : ZarrArray).

(** The hierarchy under the root group: the root's attributes and every
    member by its storage path ([var], [var/dim], ...). *)
Record Hierarchy := {
  root_attrs : Attrs;
  nodes : gmap string Node
}.

(** zarr strips the leading slashes of a path.  (It also collapses
    repeated slashes and rejects [.] and [..] segments; names of that shape
    are not modelled.) *)
Fixpoint normalize_storage_path (p : string) : string :=
  match p with
  | String "/"%char p' => normalize_storage_path p'
  | _ => p
  end.

(** [Group._item_path]: an item starting with a slash is taken from the
    root, any other item from the group. *)
Definition item_path (group_key item : string) : string :=
  if startswith item "/" then normalize_storage_path item
  else if decide (group_key = "") then normalize_storage_path item
  else group_key +:+ "/" +:+ normalize_storage_path item.

(** [attrs.update(new)]: the keys of [new] win. *)
Definition attrs_update (new old : Attrs) : Attrs := new ∪ old.

Definition node_attrs (n : Node) : Attrs :=
  match n with
  | GroupNode a => a
  | ArrayNode z => z_attrs z
  end.

Definition node_update_attrs (new : Attrs) (n : Node) : Node :=
  match n with
  | GroupNode a => GroupNode (attrs_update new a)
  | ArrayNode z =>
      ArrayNode {| z_data := z_data z; z_chunks := z_chunks z;
                   z_attrs := attrs_update new (z_attrs z) |}
  end.

(** [root[path]]: KeyError when nothing is stored there. *)
Definition getitem (path : string) (h : Hierarchy) : result Node :=
  or_raise (nodes h !! normalize_storage_path path) KeyError.

Definition set_node (key : string) (n : Node) (h : Hierarchy) : Hierarchy :=
  {| root_attrs := root_attrs h; nodes := <[key := n]> (nodes h) |}.

(** Creating a member where one exists fails (no [overwrite]). *)
Definition create_at (key : string) (n : Node) (h : Hierarchy) : result Hierarchy :=
  if decide (key = "") then Raise ContainsGroupError
  else match nodes h !! key with
       | Some (ArrayNode _) => Raise ContainsArrayError
       | Some (GroupNode _) => Raise ContainsGroupError
       | None => Ok (set_node key n h)
       end.

(** [root.create_group(name)]. *)
Definition create_group (name : string) (h : Hierarchy) : result Hierarchy :=
  create_at (normalize_storage_path name) (GroupNode ∅) h.

(** [root[group].create_dataset(name, ...)]: the array, with no attributes
    yet, becomes a member of the group. *)
Definition create_dataset (group name : string) (data : NDArray) (chunks : Chunks)
    (h : Hierarchy) : result Hierarchy :=
  g ← getitem group h;
  match g with
  | ArrayNode _ => Raise AttributeError
  | GroupNode _ =>
      create_at (item_path (normalize_storage_path group) name)
        (ArrayNode {| z_data := data; z_chunks := chunks; z_attrs := ∅ |}) h
  end.

(** [root[group][name].attrs.update(new)]. *)
Definition update_member_attrs (group name : string) (new : Attrs)
    (h : Hierarchy) : result Hierarchy :=
  g ← getitem group h;
  match g with
  | ArrayNode _ => Raise IndexError
  | GroupNode _ =>
      let key := item_path (normalize_storage_path group) name in
      n ← or_raise (nodes h !! key) KeyError;
      Ok (set_node key (node_update_attrs new n) h)
  end.

(** Store actions: the hierarchy is threaded through, and an exception
    leaves it as it was when the exception was raised. *)
Definition StoreM (A : Type) : Type := Hierarchy -> Hierarchy * result A.

#[global] Instance StoreM_ret : MRet StoreM := fun _ a h => (h, Ok a).
#[global] Instance StoreM_bind : MBind StoreM := fun _ _ f m h =>
  match m h with
  | (h', Ok a) => f a h'
  | (h', Raise e) => (h', Raise e)
  end.

(** A store call that fails without effect or succeeds with a new
    hierarchy. *)
Definition store_call (op : Hierarchy -> result Hierarchy) : StoreM unit :=
  fun h => match op h with
           | Ok h' => (h', Ok tt)
           | Raise e => (h, Raise e)
           end.

(** A computation that does not touch the store. *)
Definition pure_call {A} (r : result A) : StoreM A := fun h => (h, r).

(** ** dataset.py: the schema setter *)

Record GeoZarrDataset := {
  _dataset_path : string;
  _mode : string;
  _dataset : option Hierarchy           (* unset for a mode other than 'r' and 'x' *)
}.

(** [GeoZarrDataset.__init__]; [zarr_open path mode] is [zarr.open]. *)
Definition GeoZarrDataset_init (zarr_open : string -> string -> result Hierarchy)
    (dataset_path mode : string) : result GeoZarrDataset :=
  if decide (mode = "r") then
    h ← zarr_open dataset_path "r";
    Ok {| _dataset_path := dataset_path; _mode := mode; _dataset := Some h |}
  else if decide (mode = "x") then
    h ← zarr_open dataset_path "w";
    Ok {| _dataset_path := dataset_path; _mode := mode; _dataset := Some h |}
  else Ok {| _dataset_path := dataset_path; _mode := mode; _dataset := None |}.

(** Lines 85-102: the grid-mapping attributes of a CRS specification
    (absent, ['EPSG:<code>'], or WKT text). *)
Definition encode (rt : Runtime) (crs_spec : option string) : result Attrs :=
  match crs_spec with
  | None =>
      crs_value ← from_epsg rt 4326;
      Ok {[ "spatial_ref" := AStr (to_wkt crs_value) ]}
  | Some spec =>
      if startswith spec "EPSG:" then
        code ← int rt (string_from 5 spec);
        crs_value ← from_epsg rt code;
        grid_mapping ←
          (if is_projected crs_value then
             op ← or_raise (coordinate_operation crs_value) AttributeError;
             if decide (upper (method_name op) = "TRANSVERSE MERCATOR")
             then _transverse_mercator crs_value
             else Ok ∅
           else Ok ∅);
        Ok (<["spatial_ref" := AStr (to_wkt crs_value)]> grid_mapping)
      else
        crs_value ← from_wkt rt spec;
        grid_mapping ← _transverse_mercator crs_value;
        Ok (<["spatial_ref" := AStr spec]> grid_mapping)
  end.

(** Lines 83-105: [grid_mapping] as it stands when the variables are
    processed. *)
Definition grid_mapping_of (rt : Runtime) (grid : option Grid) : result Attrs :=
  match grid with
  | None => Ok ∅
  | Some g =>
      grid_mapping ← encode rt (grid_crs g);
      Ok (<["projection_y_coordinate" := AInt (upperLeft g).2]>
            (<["projection_x_coordinate" := AInt (upperLeft g).1]> grid_mapping))
  end.

(** The f-string [f'/{var}/{name}']. *)
Definition member_path (var name : string) : string := "/" +:+ var +:+ "/" +:+ name.

(** Lines 110-113: the variable's own attribute dictionary is updated in
    place. *)
Definition annotate (grid : option Grid) (var : string) (v : VarEntry) : VarEntry :=
  let var_attr :=
    <["_ARRAY_DIMENSIONS" := AList ((fun item => member_path var (dim_name item)) <$> var_dimensions v)]>
      (var_attributes v) in
  let var_attr :=
    if grid is Some _ then <["grid_mapping" := AStr (member_path var "crs_grid")]> var_attr
    else var_attr in
  {| var_name := var_name v; var_attributes := var_attr; var_shape := var_shape v;
     var_chunks := var_chunks v; var_dtype := var_dtype v;
     var_dimensions := var_dimensions v |}.

(** The list comprehension [[origin + grid['unitSize'] * index for index in
    range(extent)]]. *)
Definition axis_values (origin unit_size : Z) (extent : nat) : list Z :=
  (fun index => origin + unit_size * Z.of_nat index) <$> seq 0 extent.

(** Lines 119-140: the [data] argument of the coordinate array of [dim]. *)
Definition coordinate_data (grid : option Grid) (dim : DimensionSpec) (extent : nat) : NDArray :=
  if decide (dim_kind dim = DIMENSION_VALUE) then
    np_empty [extent] (dim_dtype dim)
  else if decide (dim_kind dim = COORDINATE_X) then
    list_of_one
      (match grid with
       | Some g => np_array (axis_values (upperLeft g).1 (unitSize g) extent) (dim_dtype dim)
       | None => np_empty [extent] (dim_dtype dim)
       end)
  else
    list_of_one
      (match grid with
       | Some g => np_array (axis_values (upperLeft g).2 (unitSize g) extent) (dim_dtype dim)
       | None => np_empty [extent] (dim_dtype dim)
       end).

(** Lines 118-147: the loop over the dimensions of one variable. *)
Fixpoint build_dimensions (grid : option Grid) (var : string) (shape : list nat)
    (dimensions : list DimensionSpec) (shape_index : nat) : StoreM unit :=
  match dimensions with
  | [] => mret tt
  | dim :: dimensions' =>
      extent ← pure_call (or_raise (shape !! shape_index) IndexError);
      _ ← store_call (create_dataset var (dim_name dim)
                        (coordinate_data grid dim extent) ChunksAuto);
      _ ← store_call (update_member_attrs var (dim_name dim)
                        {[ "_ARRAY_DIMENSION" := AList [member_path var (dim_name dim)];
                           "standard_name" := AStr (dim_standard_name dim);
                           "units" := AStr (dim_units dim) ]});
      build_dimensions grid var shape dimensions' (S shape_index)
  end.

(** Lines 115-156 for one variable, [v] being the entry after
    [annotate]. *)
Definition build_variable (grid : option Grid) (grid_mapping : Attrs) (var : string)
    (v : VarEntry) : StoreM unit :=
  _ ← store_call (create_group var);
  _ ← build_dimensions grid var (var_shape v) (var_dimensions v) 0;
  _ ← store_call (create_dataset var "crs_grid" (np_empty [0%nat] "S1") ChunksOff);
  _ ← store_call (update_member_attrs var "crs_grid" grid_mapping);
  _ ← store_call (create_dataset var (var_name v) (np_empty (var_shape v) (var_dtype v))
                    (ChunkShape (default (var_shape v) (var_chunks v))));
  store_call (update_member_attrs var (var_name v) (var_attributes v)).

(** Lines 109-156: [for var in value.keys()].  The result carries the
    variable entries as the caller's mapping holds them afterwards. *)
Fixpoint process_variables (grid : option Grid) (grid_mapping : Attrs)
    (todo : list (string * VarEntry)) (h : Hierarchy)
    : list (string * VarEntry) * Hierarchy * result unit :=
  match todo with
  | [] => ([], h, Ok tt)
  | (var, v) :: rest =>
      let v' := annotate grid var v in
      match build_variable grid grid_mapping var v' h with
      | (h', Ok _) =>
          let '(rest', h'', r) := process_variables grid grid_mapping rest h' in
          ((var, v') :: rest', h'', r)
      | (h', Raise e) => ((var, v') :: rest, h', Raise e)
      end
  end.

(** What an assignment [self.schema = value] leaves behind: the dataset,
    the caller's mapping, and whether an exception was raised. *)
Record Outcome := {
  out_self : GeoZarrDataset;
  out_value : Schema;
  out_result : result unit
}.

Definition with_store (self : GeoZarrDataset) (h : Hierarchy) : GeoZarrDataset :=
  {| _dataset_path := _dataset_path self; _mode := _mode self; _dataset := Some h |}.

(** The setter of [schema], lines 77-158. *)
Definition schema_setter (rt : Runtime) (self : GeoZarrDataset) (value : Schema) : Outcome :=
  if decide (_mode self = "x") then
    match _dataset self with
    | None => {| out_self := self; out_value := value; out_result := Raise AttributeError |}
    | Some h =>
        (* lines 78-80 *)
        let h1 :=
          match global_attributes value with
          | Some ga => {| root_attrs := attrs_update ga (root_attrs h); nodes := nodes h |}
          | None => h
          end in
        let value1 := {| global_attributes := None; grid := grid value;
                         variables := variables value |} in
        (* lines 82-107 *)
        let grid := grid value1 in
        match grid_mapping_of rt grid with
        | Raise e =>
            {| out_self := with_store self h1; out_value := value1; out_result := Raise e |}
        | Ok grid_mapping =>
            let value2 := {| global_attributes := None; grid := None;
                             variables := variables value1 |} in
            (* lines 109-156 *)
            let '(vars, h2, r) := process_variables grid grid_mapping (variables value2) h1 in
            {| out_self := with_store self h2;
               out_value := {| global_attributes := None; grid := None; variables := vars |};
               out_result := r |}
        end
    end
  else {| out_self := self; out_value := value; out_result := Ok tt |}.

(** ** dataset.py: set_index and insert *)

(** One subscript of the assignment that [insert] assembles: [[offset]] or
    [[:]]. *)
Inductive Subscript :=
| At (offset : nat)
| Full.

(** A store opened with mode ['r'] refuses writes. *)
Definition read_only (self : GeoZarrDataset) : bool := bool_decide (_mode self = "r").

(** The shape left by one subscript of a read, on a zarr array or on the
    numpy array a previous read returned: an offset drops the leading axis,
    [[:]] keeps the shape, and a scalar cannot be subscripted. *)
Definition getitem_shape (s : Subscript) (shape : list nat) : result (list nat) :=
  match shape with
  | [] => Raise IndexError
  | d0 :: rest =>
      match s with
      | At i => if decide (i < d0)%nat then Ok rest else Raise IndexError
      | Full => Ok shape
      end
  end.

(** The cells written for a selection of [n] cells: a scalar fills it, an
    array of the selection's shape replaces it, anything else is refused
    (zarr does not broadcast). *)
Definition selection_cells (sel_shape : list nat) (value : NDArray) : result (list (option Z)) :=
  match sel_shape with
  | [] =>
      match nd_cells value with
      | [c] => Ok [c]
      | _ => Raise ValueError
      end
  | _ =>
      match nd_shape value, nd_cells value with
      | [], [c] => Ok (replicate (shape_size sel_shape) c)
      | _, _ =>
          if decide (nd_shape value = sel_shape) then Ok (nd_cells value)
          else Raise ValueError
      end
  end.

(** [zarr.Array.__setitem__] with one subscript: the only call that writes
    the store. *)
Definition zarr_setitem (s : Subscript) (value : NDArray) (z : NDArray) : result NDArray :=
  match nd_shape z with
  | [] => Raise IndexError
  | d0 :: rest =>
      match s with
      | Full =>
          new ← selection_cells (nd_shape z) value;
          Ok {| nd_shape := nd_shape z; nd_dtype := nd_dtype z; nd_cells := new |}
      | At i =>
          if decide (i < d0)%nat then
            new ← selection_cells rest value;
            let block := shape_size rest in
            Ok {| nd_shape := nd_shape z; nd_dtype := nd_dtype z;
                  nd_cells := take (i * block) (nd_cells z) ++ new
                              ++ drop (S i * block) (nd_cells z) |}
          else Raise IndexError
      end
  end.

(** numpy's assignment broadcasting: leading axes of length one of the
    value are dropped while it has more axes than the target; then the
    shapes are matched from the last axis. *)
Fixpoint drop_ones (extra : nat) (shape : list nat) : list nat :=
  match extra, shape with
  | S extra', 1%nat :: shape' => drop_ones extra' shape'
  | _, _ => shape
  end.

Fixpoint match_trailing (rvalue rtarget : list nat) : bool :=
  match rvalue, rtarget with
  | [], _ => true
  | _ :: _, [] => false
  | v :: rvalue', t :: rtarget' =>
      (bool_decide (v = 1%nat) || bool_decide (v = t)) && match_trailing rvalue' rtarget'
  end.

Definition broadcastable (value_shape target : list nat) : bool :=
  match_trailing (reverse (drop_ones (length value_shape - length target) value_shape))
                 (reverse target).

(** [tmp[s] = data] on a numpy array [tmp] of the given shape: only its
    success matters, [tmp] being dropped afterwards.  A numpy scalar does
    not support item assignment. *)
Definition numpy_setitem_check (s : Subscript) (shape : list nat) (data : NDArray) : result unit :=
  match shape with
  | [] => Raise TypeError
  | _ =>
      target ← getitem_shape s shape;
      if broadcastable (nd_shape data) target then Ok tt else Raise ValueError
  end.

(** The subscripts after the first one, applied to the numpy array that
    the first read produced; the last one is the assignment target. *)
Fixpoint numpy_chain (subs : list Subscript) (shape : list nat) (data : NDArray) : result unit :=
  match subs with
  | [] => Ok tt
  | [s] => numpy_setitem_check s shape data
  | s :: subs' => shape' ← getitem_shape s shape; numpy_chain subs' shape' data
  end.

(** [list(coords[:]).index(v)].  Iterating a numpy array yields its
    sub-arrays along the first axis; [list.index] takes the truth value of
    [item == v], which numpy gives for a single element only.  A cell that
    was never written matches nothing. *)
Definition coordinate_offset (coords : NDArray) (v : Z) : result nat :=
  match nd_shape coords with
  | [] => Raise IndexError
  | _ :: rest =>
      if decide (shape_size rest = 1%nat)
      then or_raise (fst <$> list_find (fun c => c = Some v) (nd_cells coords)) ValueError
      else Raise ValueError
  end.

(** [l.index(x)] of a Python list. *)
Definition py_index `{EqDecision A} (x : A) (l : list A) : result nat :=
  or_raise (fst <$> list_find (fun y => y = x) l) ValueError.

(** Lines 181-186, for one entry [index] of ['_ARRAY_DIMENSIONS']. *)
Definition resolve_axis (h : Hierarchy) (indexes : list (string * Z)) (index : string)
    : result Subscript :=
  let index_keys := fst <$> indexes in
  if decide (index ∈ index_keys) then
    index_key_offset ← py_index index index_keys;
    item ← or_raise (indexes !! index_key_offset) IndexError;
    node ← getitem index h;
    match node with
    | ArrayNode z =>
        index_offset ← coordinate_offset (z_data z) item.2;
        Ok (At index_offset)
    | GroupNode _ => Raise KeyError
    end
  else Ok Full.

(** Lines 178-186: the subscripts of [index_expr], one per linked
    dimension, in linkage order. *)
Definition index_expr (h : Hierarchy) (dims : list string) (indexes : list (string * Z))
    : result (list Subscript) :=
  mapM_result (resolve_axis h indexes) dims.

(** Iterating the value stored under ['_ARRAY_DIMENSIONS']: a list yields
    its items, a string its characters. *)
Definition iterate (v : AttrValue) : result (list string) :=
  match v with
  | AList l => Ok l
  | AStr s => Ok ((fun c => String c "") <$> String.list_ascii_of_string s)
  | _ => Raise TypeError
  end.

(** [exec(index_expr)], the statement being
    [self._dataset["<name>"]<subscripts> = data].

    Python evaluates all subscripts but the last as reads and applies the
    last one as [__setitem__] to what the reads returned.  A read of a zarr
    array returns a numpy array copied out of the chunks, so with two or
    more subscripts the assignment lands in that temporary and the store is
    not written; with one subscript it is zarr's own [__setitem__]; with
    none it is the group's, which replaces the member (and what lies below
    it) by a new array.  A group at [<name>] would take a subscript for a
    member name; such a member is taken not to exist, so that the lookup
    raises KeyError.  The name itself is taken to hold no double quote,
    backslash or line break. *)
Definition exec_assignment (self : GeoZarrDataset) (h : Hierarchy) (dataset_name : string)
    (subs : list Subscript) (data : NDArray) : Hierarchy * result unit :=
  let key := normalize_storage_path dataset_name in
  match subs with
  | [] =>
      if read_only self then (h, Raise ReadOnlyError)
      else
        let below := fun (kn : string * Node) => startswith kn.1 (key +:+ "/") = true in
        (set_node key (ArrayNode {| z_data := data; z_chunks := ChunksAuto; z_attrs := ∅ |})
           {| root_attrs := root_attrs h; nodes := filter (fun kn => ¬ below kn) (nodes h) |},
         Ok tt)
  | s :: subs' =>
      match getitem dataset_name h with
      | Raise e => (h, Raise e)
      | Ok (GroupNode _) => (h, Raise KeyError)
      | Ok (ArrayNode z) =>
          match subs' with
          | [] =>
              if read_only self then (h, Raise ReadOnlyError)
              else match zarr_setitem s data (z_data z) with
                   | Ok d =>
                       (set_node key (ArrayNode {| z_data := d; z_chunks := z_chunks z;
                                                   z_attrs := z_attrs z |}) h,
                        Ok tt)
                   | Raise e => (h, Raise e)
                   end
          | _ :: _ =>
              (h, shape ← getitem_shape s (nd_shape (z_data z)); numpy_chain subs' shape data)
          end
      end
  end.

(** [set_index(index_name, values)], line 164:
    [self._dataset[index_name][:] = values]. *)
Definition set_index (self : GeoZarrDataset) (index_name : string) (values : NDArray)
    : GeoZarrDataset * result unit :=
  match _dataset self with
  | None => (self, Raise AttributeError)
  | Some h =>
      let '(h', r) := exec_assignment self h index_name [Full] values in
      (with_store self h', r)
  end.

(** [insert(dataset_name, data, indexes)], lines 178-189.  [indexes]
    defaults to [None], which the comprehension at line 179 cannot
    iterate. *)
Definition insert (self : GeoZarrDataset) (dataset_name : string) (data : NDArray)
    (indexes : option (list (string * Z))) : GeoZarrDataset * result unit :=
  match indexes with
  | None => (self, Raise TypeError)
  | Some indexes =>
      match _dataset self with
      | None => (self, Raise AttributeError)
      | Some h =>
          let selection :=
            node ← getitem dataset_name h;
            linked ← or_raise (node_attrs node !! "_ARRAY_DIMENSIONS") KeyError;
            dims ← iterate linked;
            index_expr h dims indexes in
          match selection with
          | Raise e => (self, Raise e)
          | Ok subs =>
              let '(h', r) := exec_assignment self h dataset_name subs data in
              (with_store self h', r)
          end
      end
  end.

(** ** factory.py *)

(** [GeoZarrDataset.close]: the body is [pass]. *)
Definition close (self : GeoZarrDataset) : GeoZarrDataset := self.

(** The factory object: path, mode, and the dataset once [__enter__] has
    opened it. *)
Record GeoZarr := {
  factory_dataset_path : string;
  factory_mode : string;
  factory_dataset : option GeoZarrDataset
}.

(** [GeoZarr.__init__(dataset_path, mode)]. *)
Definition GeoZarr_init (dataset_path mode : string) : GeoZarr :=
  {| factory_dataset_path := dataset_path; factory_mode := mode; factory_dataset := None |}.

(** The class method [GeoZarr.open]. *)
Definition GeoZarr_open (zarr_open : string -> string -> result Hierarchy)
    (dataset_path mode : string) : result GeoZarrDataset :=
  GeoZarrDataset_init zarr_open dataset_path mode.

(** [GeoZarr.__enter__]: the factory keeps the dataset and hands it to the
    [with] block. *)
Definition GeoZarr_enter (zarr_open : string -> string -> result Hierarchy) (self : GeoZarr)
    : result (GeoZarr * GeoZarrDataset) :=
  ds ← GeoZarr_open zarr_open (factory_dataset_path self) (factory_mode self);
  Ok ({| factory_dataset_path := factory_dataset_path self; factory_mode := factory_mode self;
         factory_dataset := Some ds |}, ds).

(** [GeoZarr.__exit__]: [self._dataset.close()], on [None] before
    [__enter__]. *)
Definition GeoZarr_exit (self : GeoZarr) : result unit :=
  ds ← or_raise (factory_dataset self) AttributeError;
  let _ := close ds in Ok tt.

(** ** Notions used in the statements *)

(** An overview whose pixel rows match its shape: [h] rows of [w] pixels
    of [bands] values. *)
Definition well_shaped (ov : Overview) : Prop :=
  let '(h, w, bands) := ov_shape ov in
  length (ov_pixels ov) = h ∧
  Forall (fun line => length line = w ∧ Forall (fun px => length px = bands) line)
         (ov_pixels ov).

(** The extents on which a loop of [create_overview] reaches a position
    outside the overview it allocated: along one axis the remainder of the
    extent by the step exceeds the start offset, and the loop along the
    other axis runs at least once. *)
Definition misaligned (start step height width : nat) : Prop :=
  (start < height `mod` step ∧ start < width)%nat ∨
  (start < width `mod` step ∧ start < height)%nat.

(** The rounded mean of the positive samples: the value of [band_average]
    when there is one. *)
Definition positive_mean (samples : list Z) : Z :=
  let kept := filter (fun v => 0 < v) samples in
  round_half_even (foldr Z.add 0 kept) (Z.of_nat (length kept)).

(** The storage path of the member [name] of the group [var]. *)
Definition member_key (var name : string) : string :=
  item_path (normalize_storage_path var) name.

(** [h'] holds everything [h] holds, unchanged, under the same root
    attributes. *)
Definition extends (h h' : Hierarchy) : Prop :=
  nodes h ⊆ nodes h' ∧ root_attrs h' = root_attrs h.

(** The members that the setter creates for one variable. *)
Definition coordinate_node (grid : option Grid) (var : string) (dim : DimensionSpec)
    (extent : nat) : Node :=
  ArrayNode {| z_data := coordinate_data grid dim extent; z_chunks := ChunksAuto;
               z_attrs := {[ "_ARRAY_DIMENSION" := AList [member_path var (dim_name dim)];
                             "standard_name" := AStr (dim_standard_name dim);
                             "units" := AStr (dim_units dim) ]} |}.

Definition crs_grid_node (grid_mapping : Attrs) : Node :=
  ArrayNode {| z_data := np_empty [0%nat] "S1"; z_chunks := ChunksOff;
               z_attrs := grid_mapping |}.

Definition data_node (v : VarEntry) : Node :=
  ArrayNode {| z_data := np_empty (var_shape v) (var_dtype v);
               z_chunks := ChunkShape (default (var_shape v) (var_chunks v));
               z_attrs := var_attributes v |}.

(** The value that [insert] looks up on an axis: that of the first
    selector naming it, if any. *)
Definition selector (indexes : list (string * Z)) (axis : string) : option Z :=
  (fun found => found.2.2) <$> list_find (fun item => item.1 = axis) indexes.

(** What a member looks like apart from the contents of its cells: a
    group's attributes; an array's attributes, shape, dtype and chunking. *)
Definition layout (n : Node) : Attrs * option (list nat * DType * Chunks) :=
  match n with
  | GroupNode attrs => (attrs, None)
  | ArrayNode z => (z_attrs z, Some (nd_shape (z_data z), nd_dtype (z_data z), z_chunks z))
  end.

(** [h'] has the members of [h], each with the layout it has in [h], under
    the same root attributes. *)
Definition same_layout (h h' : Hierarchy) : Prop :=
  root_attrs h' = root_attrs h ∧ ∀ key, layout <$> nodes h' !! key = layout <$> nodes h !! key.

(** The paths that [annotate] lists under ['_ARRAY_DIMENSIONS']. *)
Definition linked_paths (var : string) (v : VarEntry) : list string :=
  (fun item => member_path var (dim_name item)) <$> var_dimensions v.

(** ** Sample inputs *)

(** Ellipsoids: WGS 84 is defined by its semi-major axis and inverse
    flattening (the semi-minor axis is computed); Clarke 1866 is defined by
    both axes in the EPSG registry.  WKT text gives an ellipsoid by its
    semi-major axis and inverse flattening only, so the semi-minor axis of
    an ellipsoid parsed from WKT is always computed. *)
Definition wgs84 : Ellipsoid :=
  {| inverse_flattening := 298257223563 # 1000000000;
     is_semi_minor_computed := true;
     semi_major_metre := 6378137 # 1;
     semi_minor_metre := 6356752314245 # 1000000 |}.

Definition clarke1866 : Ellipsoid :=
  {| inverse_flattening := 294978698214 # 1000000000;
     is_semi_minor_computed := false;
     semi_major_metre := 63782064 # 10;
     semi_minor_metre := 63565838 # 10 |}.

Definition clarke1866_from_wkt : Ellipsoid :=
  {| inverse_flattening := 294978698214 # 1000000000;
     is_semi_minor_computed := true;
     semi_major_metre := 63782064 # 10;
     semi_minor_metre := 63565838 # 10 |}.

Definition utm18_conversion : CoordinateOperation :=
  {| method_name := "Transverse Mercator";
     params := [ {| param_name := "Latitude of natural origin"; param_value := 0 # 1 |};
                 {| param_name := "Longitude of natural origin"; param_value := -75 # 1 |};
                 {| param_name := "Scale factor at natural origin"; param_value := 9996 # 10000 |};
                 {| param_name := "False easting"; param_value := 500000 # 1 |};
                 {| param_name := "False northing"; param_value := 0 # 1 |} ] |}.

Definition jamaica_conversion : CoordinateOperation :=
  {| method_name := "Lambert Conic Conformal (1SP)";
     params := [ {| param_name := "Latitude of natural origin"; param_value := 18 # 1 |};
                 {| param_name := "Longitude of natural origin"; param_value := -77 # 1 |};
                 {| param_name := "Scale factor at natural origin"; param_value := 1 # 1 |};
                 {| param_name := "False easting"; param_value := 250000 # 1 |};
                 {| param_name := "False northing"; param_value := 150000 # 1 |} ] |}.

Definition towgs84 : CoordinateOperation :=
  {| method_name := "Position Vector transformation (geog2D domain)"; params := [] |}.

(** EPSG:4326, geographic. *)
Definition crs_4326 : CRS :=
  {| is_projected := false; coordinate_operation := None; source_crs := None;
     datum_ellipsoid := wgs84; ellipsoid := wgs84; prime_meridian_longitude := 0 # 1;
     to_wkt := "GEOGCRS[WGS 84]" |}.

(** EPSG:24200, JAD69 / Jamaica National Grid: projected, Lambert Conic
    Conformal; its base CRS is geographic and has no coordinate
    operation. *)
Definition crs_24200 : CRS :=
  {| is_projected := true; coordinate_operation := Some jamaica_conversion;
     source_crs := Some {| src_coordinate_operation := None |};
     datum_ellipsoid := clarke1866; ellipsoid := clarke1866;
     prime_meridian_longitude := 0 # 1;
     to_wkt := "PROJCRS[JAD69 / Jamaica National Grid]" |}.

(** EPSG:26718, NAD27 / UTM zone 18N: projected, Transverse Mercator, on
    Clarke 1866; its base CRS is geographic and has no coordinate
    operation. *)
Definition crs_26718 : CRS :=
  {| is_projected := true; coordinate_operation := Some utm18_conversion;
     source_crs := Some {| src_coordinate_operation := None |};
     datum_ellipsoid := clarke1866; ellipsoid := clarke1866;
     prime_meridian_longitude := 0 # 1;
     to_wkt := "PROJCRS[NAD27 / UTM zone 18N]" |}.

(** Bound CRSs, as WKT text with a TOWGS84 clause parses: the source CRS is
    the projected CRS and carries its conversion. *)
Definition wkt_utm18_wgs84 : string := "BOUNDCRS[SOURCECRS[PROJCRS[WGS 84 / UTM zone 18N]]]".
Definition wkt_jamaica : string := "BOUNDCRS[SOURCECRS[PROJCRS[JAD69 / Jamaica National Grid]]]".

Definition bound_utm18_wgs84 : CRS :=
  {| is_projected := true; coordinate_operation := Some towgs84;
     source_crs := Some {| src_coordinate_operation := Some utm18_conversion |};
     datum_ellipsoid := wgs84; ellipsoid := wgs84; prime_meridian_longitude := 0 # 1;
     to_wkt := wkt_utm18_wgs84 |}.

Definition bound_jamaica : CRS :=
  {| is_projected := true; coordinate_operation := Some towgs84;
     source_crs := Some {| src_coordinate_operation := Some jamaica_conversion |};
     datum_ellipsoid := clarke1866_from_wkt; ellipsoid := clarke1866_from_wkt;
     prime_meridian_longitude := 0 # 1;
     to_wkt := wkt_jamaica |}.

(** A runtime that knows these CRSs. *)
Definition sample_runtime : Runtime :=
  {| int := fun s =>
       if decide (s = "4326") then Ok 4326
       else if decide (s = "24200") then Ok 24200
       else if decide (s = "26718") then Ok 26718
       else Raise ValueError;
     from_epsg := fun code =>
       if decide (code = 4326) then Ok crs_4326
       else if decide (code = 24200) then Ok crs_24200
       else if decide (code = 26718) then Ok crs_26718
       else Raise CRSError;
     from_wkt := fun text =>
       if decide (text = wkt_utm18_wgs84) then Ok bound_utm18_wgs84
       else if decide (text = wkt_jamaica) then Ok bound_jamaica
       else Raise CRSError |}.

(** A store just created with mode ['x'], and the same store reopened with
    mode ['r']. *)
Definition empty_hierarchy : Hierarchy := {| root_attrs := ∅; nodes := ∅ |}.

Definition created : GeoZarrDataset :=
  {| _dataset_path := "swe.zarr"; _mode := "x"; _dataset := Some empty_hierarchy |}.

Definition opened : GeoZarrDataset :=
  {| _dataset_path := "swe.zarr"; _mode := "r"; _dataset := Some empty_hierarchy |}.

(** A schema in the shape of the one in [test_create_dataset.py]: one
    variable over [(time, y, x)], here of shape [(2, 2, 5)], on the grid of
    the coordinate-generation example. *)
Definition swe_dimensions : list DimensionSpec :=
  [ {| dim_name := "time"; dim_standard_name := "time"; dim_units := "ns";
       dim_dtype := "<M8[ns]"; dim_kind := DIMENSION_VALUE |};
    {| dim_name := "y"; dim_standard_name := "projection_y_coordinate"; dim_units := "m";
       dim_dtype := "float64"; dim_kind := COORDINATE_Y |};
    {| dim_name := "x"; dim_standard_name := "projection_x_coordinate"; dim_units := "m";
       dim_dtype := "float64"; dim_kind := COORDINATE_X |} ].

Definition swe_entry : VarEntry :=
  {| var_name := "SWE";
     var_attributes := {[ "long_name" := AStr "Snow water equivalent"; "units" := AStr "m" ]};
     var_shape := [2; 2; 5]%nat;
     var_chunks := Some [1; 2; 5]%nat;
     var_dtype := "float64";
     var_dimensions := swe_dimensions |}.

Definition sample_grid : Grid :=
  {| grid_crs := Some wkt_utm18_wgs84; upperLeft := (100, 200); unitSize := 10 |}.

Definition swe_schema : Schema :=
  {| global_attributes := Some {[ "conventions" := AStr "CF-1.11" ]};
     grid := Some sample_grid;
     variables := [("SWE", swe_entry)] |}.

(** The same variable with a vertical axis of kind [COORDINATE_Z] in front,
    shape [(3, 2, 5)]. *)
Definition depth_dimensions : list DimensionSpec :=
  [ {| dim_name := "z"; dim_standard_name := "depth"; dim_units := "m";
       dim_dtype := "float64"; dim_kind := COORDINATE_Z |};
    {| dim_name := "y"; dim_standard_name := "projection_y_coordinate"; dim_units := "m";
       dim_dtype := "float64"; dim_kind := COORDINATE_Y |};
    {| dim_name := "x"; dim_standard_name := "projection_x_coordinate"; dim_units := "m";
       dim_dtype := "float64"; dim_kind := COORDINATE_X |} ].

Definition depth_schema : Schema :=
  {| global_attributes := None;
     grid := Some sample_grid;
     variables := [("T", {| var_name := "T"; var_attributes := ∅; var_shape := [3; 2; 5]%nat;
                            var_chunks := None; var_dtype := "float64";
                            var_dimensions := depth_dimensions |})] |}.

(** The dataset after [geo_zarr.schema = swe_schema], and after the
    [set_index] that follows it in the test. *)
Definition swe_built : GeoZarrDataset := out_self (schema_setter sample_runtime created swe_schema).

Definition time_values : NDArray :=
  {| nd_shape := [2]%nat; nd_dtype := "<M8[ns]"; nd_cells := [Some 1000; Some 2000] |}.

Definition swe_indexed : GeoZarrDataset := (set_index swe_built "/SWE/time" time_values).1.

(** One time slice of [SWE], shape [(2, 5)]. *)
Definition swe_slice : NDArray :=
  {| nd_shape := [2; 5]%nat; nd_dtype := "float64";
     nd_cells := Some <$> [1; 2; 3; 4; 5; 6; 7; 8; 9; 10] |}.

(** The whole of [SWE], shape [(2, 2, 5)]. *)
Definition swe_cube : NDArray :=
  {| nd_shape := [2; 2; 5]%nat; nd_dtype := "float64";
     nd_cells := Some <$> [1; 2; 3; 4; 5; 6; 7; 8; 9; 10;
                           11; 12; 13; 14; 15; 16; 17; 18; 19; 20] |}.

(** The hierarchy held by [swe_indexed]. *)
Definition swe_store : Hierarchy := default empty_hierarchy (_dataset swe_indexed).

(** The same store reopened with mode ['r']. *)
Definition swe_reopened : GeoZarrDataset :=
  {| _dataset_path := "swe.zarr"; _mode := "r"; _dataset := Some swe_store |}.








(** Reading a member's array back: [root[path][:]]. *)
Definition read_array (self : GeoZarrDataset) (path : string) : option NDArray :=
  h ← _dataset self;
  n ← nodes h !! normalize_storage_path path;
  match n with
  | ArrayNode z => Some (z_data z)
  | GroupNode _ => None
  end.

(** One attribute of a computed grid mapping: [gm.get(key)]. *)
Definition attribute (r : result Attrs) (key : string) : result (option AttrValue) :=
  gm ← r; Ok (gm !! key).

(** The CRS specifications on which [encode] runs [_transverse_mercator],
    and the CRS it runs it on: any text that is not an EPSG identifier, and
    an EPSG identifier of a projected Transverse Mercator CRS. *)
Definition extraction_path (rt : Runtime) (spec : string) (crs : CRS) : Prop :=
  if startswith spec "EPSG:" then
    ∃ code op,
      int rt (string_from 5 spec) = Ok code ∧ from_epsg rt code = Ok crs ∧
      is_projected crs = true ∧ coordinate_operation crs = Some op ∧
      upper (method_name op) = "TRANSVERSE MERCATOR"
  else from_wkt rt spec = Ok crs.

(** The one-dimensional coordinate array stored for an axis path. *)
Definition coordinate_array (h : Hierarchy) (axis : string) (coords : NDArray) : Prop :=
  ∃ z n, getitem axis h = Ok (ArrayNode z) ∧ z_data z = coords ∧ nd_shape coords = [n].

(** [i] is the position of the first cell of [cells] equal to [v]. *)
Definition first_match (cells : list (option Z)) (v : Z) (i : nat) : Prop :=
  cells !! i = Some (Some v) ∧ ∀ j, (j < i)%nat → cells !! j ≠ Some (Some v).

(** * Properties *)

(** ** Checks on concrete inputs *)

Example range_zoom1 : py_range 0 6 2 = [0; 2; 4]%nat.
Proof. reflexivity. Qed.

Example range_zoom2 : py_range 1 8 4 = [1; 5]%nat.
Proof. reflexivity. Qed.

Example round_ties :
  round_half_even 5 2 = 2 ∧ round_half_even 7 2 = 4 ∧ round_half_even 7 3 = 2.
Proof. by vm_compute. Qed.

(** At zoom level 2 the window sits at row 1, column 1 of each 4x4 block:
    the mean of 6, 7, 10, 11 is 8.5, rounded to the even 8. *)
Example overview_zoom2 :
  create_overview (4, 4, 1)%nat [1; 2; 3; 4; 5; 6; 7; 8; 9; 10; 11; 12; 13; 14; 15; 16] 2
  = Ok {| ov_shape := (1, 1, 1)%nat; ov_pixels := [[[8]]] |}.
Proof. by vm_compute. Qed.

Example lower_upper :
  lower "False Easting" = "false easting" ∧ upper "Transverse Mercator" = "TRANSVERSE MERCATOR".
Proof. by vm_compute. Qed.

Example epsg_code : startswith "EPSG:24200" "EPSG:" = true ∧ string_from 5 "EPSG:24200" = "24200".
Proof. by vm_compute. Qed.

Example schema_assignment_succeeds :
  out_result (schema_setter sample_runtime created swe_schema) = Ok tt.
Proof. vm_compute. reflexivity. Qed.

Example time_axis_is_placeholder :
  read_array swe_built "/SWE/time" = Some (np_empty [2%nat] "<M8[ns]").
Proof. vm_compute. reflexivity. Qed.

Example time_axis_after_set_index :
  read_array swe_indexed "/SWE/time" = Some time_values.
Proof. vm_compute. reflexivity. Qed.

(** ** bilinear.py: rasters whose extents are multiples of the step *)

Lemma py_range_aligned start step n :
  (start < step)%nat →
  py_range start (n * step) step = (fun k => start + k * step)%nat <$> seq 0 n.
Proof.
  intros Hlt. unfold py_range. f_equal. f_equal.
  destruct n as [|n].
  - simpl. apply Nat.div_small. lia.
  - replace (S n * step - start + step - 1)%nat
      with ((step - start - 1) + S n * step)%nat by lia.
    rewrite Nat.div_add by lia. rewrite Nat.div_small by lia. lia.
Qed.

Lemma aligned_index start step k :
  (start < step)%nat → ((start + k * step) / step = k)%nat.
Proof. intros Hlt. rewrite Nat.div_add by lia. rewrite Nat.div_small by lia. lia. Qed.

Lemma fill_line_length px c0 n line : length (fill_line px c0 n line) = length line.
Proof.
  unfold fill_line. revert c0 line.
  induction n as [|n IH]; intros c0 line; simpl; [done|].
  by rewrite IH, length_insert.
Qed.

Lemma fill_line_lookup px c0 n line c :
  (c < length line)%nat →
  fill_line px c0 n line !! c
  = if decide (c0 ≤ c < c0 + n)%nat then Some (px c) else line !! c.
Proof.
  unfold fill_line. revert c0 line.
  induction n as [|n IH]; intros c0 line Hc; simpl.
  - rewrite decide_False by lia. done.
  - rewrite IH by (by rewrite length_insert).
    destruct (decide (c = c0)) as [->|Hne].
    + rewrite list_lookup_insert_eq by done.
      rewrite decide_False by lia. by rewrite decide_True by lia.
    + rewrite list_lookup_insert_ne by done.
      repeat case_decide; (done || lia).
Qed.

Lemma fill_rows_length px w r0 m pixels :
  length (fill_rows px w r0 m pixels) = length pixels.
Proof.
  unfold fill_rows. revert r0 pixels.
  induction m as [|m IH]; intros r0 pixels; simpl; [done|].
  by rewrite IH, length_alter.
Qed.

Lemma fill_rows_lookup px w r0 m pixels r :
  fill_rows px w r0 m pixels !! r
  = if decide (r0 ≤ r < r0 + m)%nat
    then fill_line (px r) 0 w <$> pixels !! r
    else pixels !! r.
Proof.
  unfold fill_rows. revert r0 pixels.
  induction m as [|m IH]; intros r0 pixels; simpl.
  - rewrite decide_False by lia. done.
  - rewrite IH.
    destruct (decide (r = r0)) as [->|Hne].
    + rewrite list_lookup_alter_eq.
      rewrite decide_False by lia. by rewrite decide_True by lia.
    + rewrite list_lookup_alter_ne by done.
      repeat case_decide; (done || lia).
Qed.

Section aligned.
Variables (im : Image) (start step : nat).
Hypothesis start_lt_step : (start < step)%nat.

Lemma overview_cols_aligned r c0 n zoom_image hz wz :
  ov_shape zoom_image = (hz, wz, im_bands im) →
  (r < hz)%nat → (c0 + n ≤ wz)%nat →
  (∀ c, (c0 ≤ c < c0 + n)%nat → ∃ px, source im start step r c = Ok px) →
  overview_cols im step (start + r * step)
    ((fun k => start + k * step)%nat <$> seq c0 n) zoom_image
  = Ok {| ov_shape := ov_shape zoom_image;
          ov_pixels := alter (fill_line (fun c => pixel_or_empty (source im start step r c)) c0 n) r
                         (ov_pixels zoom_image) |}.
Proof.
  revert c0 zoom_image.
  induction n as [|n IH]; intros c0 zoom_image Hshape Hr Hc Hsrc; simpl.
  - unfold fill_line. simpl. rewrite list_alter_id by done. by destruct zoom_image.
  - destruct (Hsrc c0) as [px Hpx]; [lia|].
    unfold source in Hpx. rewrite Hpx. simpl.
    unfold set_pixel. rewrite Hshape, !aligned_index by done.
    rewrite decide_True by lia. simpl.
    rewrite IH; simpl; [| done | done | lia | intros; apply Hsrc; lia].
    f_equal. f_equal.
    rewrite list_alter_alter_eq. apply list_alter_ext; [|done].
    intros line _. unfold fill_line. simpl.
    unfold source. by rewrite Hpx.
Qed.

Lemma overview_rows_aligned r0 m zoom_image hz wz :
  ov_shape zoom_image = (hz, wz, im_bands im) →
  im_width im = (wz * step)%nat →
  (r0 + m ≤ hz)%nat →
  (∀ r c, (r0 ≤ r < r0 + m)%nat → (c < wz)%nat → ∃ px, source im start step r c = Ok px) →
  overview_rows im start step ((fun k => start + k * step)%nat <$> seq r0 m) zoom_image
  = Ok {| ov_shape := ov_shape zoom_image;
          ov_pixels := fill_rows (fun r c => pixel_or_empty (source im start step r c)) wz r0 m
                         (ov_pixels zoom_image) |}.
Proof.
  intros Hshape Hwidth. revert r0 zoom_image Hshape.
  induction m as [|m IH]; intros r0 zoom_image Hshape Hr Hsrc; simpl.
  - by destruct zoom_image.
  - rewrite Hwidth, py_range_aligned by done.
    rewrite (overview_cols_aligned r0 0 wz zoom_image hz wz);
      [| done | lia | lia | intros; apply Hsrc; lia].
    simpl. rewrite IH; simpl; [done | done | lia | intros; apply Hsrc; lia].
Qed.
End aligned.

Lemma np_zeros_lookup h w bands r c :
  (r < h)%nat → (c < w)%nat →
  ∃ line, ov_pixels (np_zeros h w bands) !! r = Some line ∧ length line = w.
Proof.
  intros Hr Hc. exists (replicate w (replicate bands 0)). simpl.
  split; [by apply lookup_replicate_2 | by rewrite length_replicate].
Qed.

(** On a raster of [h * step] rows and [w * step] columns, [step] being
    [2 ^ zoom_level], [create_overview] returns an array of shape
    [(h, w, bands)] as soon as every window yields a pixel, and the pixel at
    [(r, c)] is the one computed from the window whose corner is at row
    [start + r * step], column [start + c * step]. *)
Lemma create_overview_aligned h w bands content zoom_level :
  let z := Z.to_nat zoom_level in
  let step := (2 ^ z)%nat in
  let start := (2 ^ (z - 1) - 1)%nat in
  let im := {| im_height := h * step; im_width := w * step; im_bands := bands;
               im_content := content |} in
  1 ≤ zoom_level →
  (h * step * (w * step) * bands ≤ length content)%nat →
  (∀ r c, (r < h)%nat → (c < w)%nat →
     ∃ px, source im start step r c = Ok px) →
  ∃ out,
    create_overview (h * step, w * step, bands)%nat content zoom_level = Ok out ∧
    ov_shape out = (h, w, bands) ∧
    ∀ r c, (r < h)%nat → (c < w)%nat →
      ∃ line px,
        ov_pixels out !! r = Some line ∧ line !! c = Some px ∧
        source im start step r c = Ok px.
Proof.
  intros z step start im Hzoom Hcontent Hsrc.
  assert (0 < step)%nat as Hstep.
  { unfold step. pose proof (Nat.pow_nonzero 2 z). lia. }
  assert (start < step)%nat as Hstart.
  { unfold start, step. destruct z as [|z'] eqn:Hz; [lia|].
    simpl. rewrite Nat.sub_0_r. pose proof (Nat.pow_nonzero 2 z'). lia. }
  unfold create_overview.
  rewrite decide_False by lia. rewrite decide_False by lia.
  fold z. fold step. fold start. fold im.
  rewrite !Nat.div_mul by lia.
  rewrite py_range_aligned by done.
  rewrite (overview_rows_aligned im start step Hstart 0 h _ h w);
    [| done | done | lia | intros; apply Hsrc; lia].
  eexists. split; [reflexivity|]. split; [done|].
  intros r c Hr Hc. simpl.
  destruct (np_zeros_lookup h w bands r c Hr Hc) as (line & Hline & Hlen).
  destruct (Hsrc r c Hr Hc) as [px Hpx].
  exists (fill_line (fun c => pixel_or_empty (source im start step r c)) 0 w line), px.
  split; [|split; [|done]].
  - rewrite fill_rows_lookup. rewrite decide_True by lia.
    simpl in Hline. by rewrite Hline.
  - rewrite fill_line_lookup by lia. rewrite decide_True by lia. by rewrite Hpx.
Qed.

(** ** bilinear.py: one window *)

Lemma foldr_max_elem v vs : foldr Z.max v vs ∈ v :: vs.
Proof.
  induction vs as [|x vs IH]; simpl; [by left|].
  destruct (Z.max_spec x (foldr Z.max v vs)) as [[_ ->] | [_ ->]].
  - apply elem_of_cons in IH as [-> | IH]; [by left | by do 2 right].
  - right. by left.
Qed.

Lemma foldr_max_upper v vs x : x ∈ v :: vs → x ≤ foldr Z.max v vs.
Proof.
  induction vs as [|y vs IH]; simpl.
  - intros Hin. apply list_elem_of_singleton in Hin as ->. lia.
  - intros Hin. apply elem_of_cons in Hin as [-> | Hin].
    + specialize (IH ltac:(by left)). lia.
    + apply elem_of_cons in Hin as [-> | Hin]; [lia|].
      specialize (IH ltac:(by right)). lia.
Qed.

(** A window with no positive sample gives the zero pixel: the averaging,
    and its division, is not reached. *)
Lemma overview_pixel_background bands pixel_values :
  concat pixel_values ≠ [] →
  (∀ v, v ∈ concat pixel_values → v ≤ 0) →
  overview_pixel bands pixel_values = Ok (replicate bands 0).
Proof.
  intros Hne Hall. unfold overview_pixel, pixels_max.
  destruct (concat pixel_values) as [|v vs]; [done|]. simpl.
  pose proof (Hall _ (foldr_max_elem v vs)) as Hmax.
  by rewrite (proj2 (Z.ltb_ge 0 _) Hmax).
Qed.

(** With a single band the averaging cannot fail: the maximum is positive
    only if that band has a positive sample. *)
Lemma overview_pixel_single_band pixel_values :
  pixel_values ≠ [] →
  (∀ px, px ∈ pixel_values → length px = 1%nat) →
  ∃ v, overview_pixel 1 pixel_values = Ok [v].
Proof.
  intros Hne Hone. unfold overview_pixel, pixels_max.
  assert (band_samples pixel_values 0 = concat pixel_values) as Hband.
  { unfold band_samples. clear Hne.
    induction pixel_values as [|px pvs IH]; [done|].
    rewrite fmap_cons, IH by (intros; apply Hone; by right).
    specialize (Hone px ltac:(by left)).
    destruct px as [|x [|? ?]]; simpl in *; by try discriminate. }
  destruct (concat pixel_values) as [|v vs] eqn:Hcat.
  { destruct pixel_values as [|px pvs]; [done|].
    specialize (Hone px ltac:(by left)).
    destruct px; simpl in *; discriminate. }
  simpl. destruct (0 <? foldr Z.max v vs) eqn:Hpos; [|by eexists].
  simpl. rewrite Hband. unfold band_average.
  apply Z.ltb_lt in Hpos.
  destruct (filter (fun x => 0 < x) (v :: vs)) as [|k ks] eqn:Hkept.
  - assert (foldr Z.max v vs ∈ filter (fun x => 0 < x) (v :: vs)) as Hin
      by (apply list_elem_of_filter; split; [done | apply foldr_max_elem]).
    rewrite Hkept in Hin. by apply elem_of_nil in Hin.
  - simpl. by eexists.
Qed.

Lemma image_pixel_length im r c : length (image_pixel im r c) = im_bands im.
Proof. unfold image_pixel. by rewrite length_fmap, length_seq. Qed.

(** Inside the raster the window holds its corner pixel, and every pixel
    of a window has one sample per band. *)
Lemma neighborhood_corner im row col :
  (row < im_height im)%nat → (col < im_width im)%nat →
  image_pixel im row col ∈ neighborhood im row col.
Proof.
  intros Hr Hc. unfold neighborhood.
  apply list_elem_of_bind. exists row. split.
  - apply list_elem_of_bind. exists col. split; [by left|].
    apply list_elem_of_filter. split; [done | by left].
  - apply list_elem_of_filter. split; [done | by left].
Qed.

Lemma neighborhood_pixel_length im row col px :
  px ∈ neighborhood im row col → length px = im_bands im.
Proof.
  unfold neighborhood. intros Hin.
  apply list_elem_of_bind in Hin as (r & Hin & _).
  apply list_elem_of_bind in Hin as (c & Hin & _).
  apply list_elem_of_singleton in Hin as ->. apply image_pixel_length.
Qed.

(** When the extents are multiples of the step, the window of every
    overview pixel is the whole 2x2 block. *)
Lemma neighborhood_full im row col :
  (S row < im_height im)%nat → (S col < im_width im)%nat →
  neighborhood im row col
  = [image_pixel im row col; image_pixel im row (S col);
     image_pixel im (S row) col; image_pixel im (S row) (S col)].
Proof.
  intros Hr Hc. unfold neighborhood.
  rewrite !filter_cons_True by lia. by rewrite !filter_nil.
Qed.

(** A single-band raster whose extents are multiples of the step always
    has an overview, of the shape [(h, w, 1)]. *)
Lemma create_overview_single_band h w content zoom_level :
  let step := (2 ^ Z.to_nat zoom_level)%nat in
  1 ≤ zoom_level →
  (h * step * (w * step) * 1 ≤ length content)%nat →
  ∃ out,
    create_overview (h * step, w * step, 1)%nat content zoom_level = Ok out ∧
    ov_shape out = (h, w, 1%nat).
Proof.
  intros step Hzoom Hcontent.
  destruct (create_overview_aligned h w 1 content zoom_level Hzoom Hcontent)
    as (out & Hout & Hshape & _); [|eauto].
  intros r c Hr Hc.
  set (start := (2 ^ (Z.to_nat zoom_level - 1) - 1)%nat).
  assert (0 < step)%nat as Hstep.
  { unfold step. pose proof (Nat.pow_nonzero 2 (Z.to_nat zoom_level)). lia. }
  assert (start < step)%nat as Hstart.
  { unfold start, step. destruct (Z.to_nat zoom_level) as [|z'] eqn:Hz; [lia|].
    simpl. rewrite Nat.sub_0_r. pose proof (Nat.pow_nonzero 2 z'). lia. }
  unfold source. simpl im_bands.
  match goal with |- ∃ px, overview_pixel 1 ?window = Ok px =>
    destruct (overview_pixel_single_band window) as [v Hv] end.
  - intros Hempty.
    match type of Hempty with neighborhood ?im ?row ?col = [] =>
      pose proof (neighborhood_corner im row col) as Hin end.
    simpl in Hin. rewrite Hempty in Hin.
    eapply elem_of_nil, Hin; fold step; nia.
  - intros px Hpx. by apply neighborhood_pixel_length in Hpx.
  - eauto.
Qed.

(** ** bilinear.py: the claims on the overview *)

(** C5.  On a single-band 2x2 raster at zoom level 1, [create_overview]
    returns one pixel: 5 for [[0,5],[0,0]] (only the positive sample
    counts), 0 for the all-zero window, and the rounded mean 5 for
    [[4,6],[2,8]]. *)
Theorem overview_zero_handling :
  create_overview (2, 2, 1)%nat [0; 5; 0; 0] 1
    = Ok {| ov_shape := (1, 1, 1)%nat; ov_pixels := [[[5]]] |} ∧
  create_overview (2, 2, 1)%nat [0; 0; 0; 0] 1
    = Ok {| ov_shape := (1, 1, 1)%nat; ov_pixels := [[[0]]] |} ∧
  create_overview (2, 2, 1)%nat [4; 6; 2; 8] 1
    = Ok {| ov_shape := (1, 1, 1)%nat; ov_pixels := [[[5]]] |}.
Proof. by vm_compute. Qed.

(** C6, where the code leaves the claim.  A raster of three rows at zoom
    level 1 makes the row loop visit rows 0 and 2; row 2 maps to overview
    row 1, outside the [3 // 2 = 1] rows allocated, and the store into
    [zoom_image] raises IndexError.  A two-band window whose second band is
    all zero while the first is not passes the [max() > 0] test and makes
    [np.average] raise ZeroDivisionError.  In both cases no array is
    returned. *)
Theorem overview_raises :
  create_overview (3, 2, 1)%nat [1; 1; 1; 1; 1; 1] 1 = Raise IndexError ∧
  create_overview (2, 2, 2)%nat [5; 0; 0; 0; 0; 0; 0; 0] 1 = Raise ZeroDivisionError.
Proof. by vm_compute. Qed.

(** ** dataset.py: the grid mapping *)

(** With no CRS in the grid, the mapping is the WKT of EPSG:4326 and
    nothing else. *)
Lemma encode_default rt crs :
  from_epsg rt 4326 = Ok crs →
  encode rt None = Ok {[ "spatial_ref" := AStr (to_wkt crs) ]}.
Proof. intros Hcrs. unfold encode. by rewrite Hcrs. Qed.

(** An EPSG identifier of a CRS that is not projected, or whose method is
    not Transverse Mercator, gets [spatial_ref] and nothing else. *)
Lemma encode_epsg_other_method rt spec code crs :
  startswith spec "EPSG:" = true →
  int rt (string_from 5 spec) = Ok code →
  from_epsg rt code = Ok crs →
  is_projected crs = false ∨
    (∃ op, coordinate_operation crs = Some op ∧
           upper (method_name op) ≠ "TRANSVERSE MERCATOR") →
  encode rt (Some spec) = Ok {[ "spatial_ref" := AStr (to_wkt crs) ]}.
Proof.
  intros Hepsg Hint Hcrs Hother. unfold encode.
  rewrite Hepsg, Hint; simpl. rewrite Hcrs; simpl.
  destruct Hother as [Hgeo | (op & Hop & Hmethod)].
  - by rewrite Hgeo.
  - destruct (is_projected crs); [|done].
    rewrite Hop; simpl. by rewrite decide_False.
Qed.

(** WKT text is never asked for its method: whatever CRS it parses to, a
    grid mapping that comes back is labelled [transverse_mercator] and
    carries the five projection parameters. *)
Lemma encode_wkt_always_extracts rt spec crs gm :
  startswith spec "EPSG:" = false →
  from_wkt rt spec = Ok crs →
  encode rt (Some spec) = Ok gm →
  gm !! "grid_mapping_name" = Some (AStr "transverse_mercator") ∧
  is_Some (gm !! "false_easting") ∧ is_Some (gm !! "false_northing") ∧
  is_Some (gm !! "scale_factor_at_central_meridian") ∧
  is_Some (gm !! "longitude_of_central_meridian") ∧
  is_Some (gm !! "latitude_of_projection_origin").
Proof.
  intros Hwkt Hcrs. unfold encode. rewrite Hwkt, Hcrs; simpl.
  unfold _transverse_mercator.
  destruct (source_crs crs) as [src|]; simpl; [|done].
  destruct (src_coordinate_operation src) as [op|]; simpl; [|done].
  destruct (is_semi_minor_computed (ellipsoid crs)); simpl; intros [= <-];
    split_and!; repeat (rewrite lookup_insert_ne by done);
    try (rewrite lookup_insert_eq; by eauto);
    simplify_map_eq; by eauto.
Qed.


(** C1, where the code leaves the claim.  Given WKT text, [encode] runs
    [_transverse_mercator] without looking at the method: for a Lambert
    Conic Conformal CRS it reports [transverse_mercator] and sets the
    projection parameters.  The same CRS given as an EPSG identifier gets
    [spatial_ref] only. *)
Theorem encode_wkt_extracts_any_method :
  upper (method_name jamaica_conversion) ≠ "TRANSVERSE MERCATOR" ∧
  attribute (encode sample_runtime (Some wkt_jamaica)) "spatial_ref"
    = Ok (Some (AStr wkt_jamaica)) ∧
  attribute (encode sample_runtime (Some wkt_jamaica)) "grid_mapping_name"
    = Ok (Some (AStr "transverse_mercator")) ∧
  attribute (encode sample_runtime (Some wkt_jamaica)) "false_easting"
    = Ok (Some (AFloat (250000 # 1))) ∧
  attribute (encode sample_runtime (Some wkt_jamaica)) "false_northing"
    = Ok (Some (AFloat (150000 # 1))) ∧
  attribute (encode sample_runtime (Some wkt_jamaica)) "scale_factor_at_central_meridian"
    = Ok (Some (AFloat (1 # 1))) ∧
  attribute (encode sample_runtime (Some wkt_jamaica)) "longitude_of_central_meridian"
    = Ok (Some (AFloat (-77 # 1))) ∧
  attribute (encode sample_runtime (Some wkt_jamaica)) "latitude_of_projection_origin"
    = Ok (Some (AFloat (18 # 1))) ∧
  encode sample_runtime (Some "EPSG:24200") = Ok {[ "spatial_ref" := AStr (to_wkt crs_24200) ]}.
Proof.
  split; [by vm_compute|].
  split_and!; vm_compute; reflexivity.
Qed.


(** [_transverse_mercator] raises AttributeError when the CRS has no source
    CRS or the source CRS has no coordinate operation, and returns
    otherwise; the two axis attributes of its result follow the flag
    [is_semi_minor_computed] of the ellipsoid. *)
Lemma transverse_mercator_semi_axes crs :
  match source_crs crs ≫= src_coordinate_operation with
  | None => _transverse_mercator crs = Raise AttributeError
  | Some _ =>
      ∃ attributes,
        _transverse_mercator crs = Ok attributes ∧
        if is_semi_minor_computed (ellipsoid crs)
        then attributes !! "semi_major_axis" = Some (AFloat (semi_major_metre (ellipsoid crs))) ∧
             attributes !! "semi_minor_axis" = Some (AFloat (semi_minor_metre (ellipsoid crs)))
        else attributes !! "semi_major_axis" = None ∧ attributes !! "semi_minor_axis" = None
  end.
Proof.
  unfold _transverse_mercator.
  destruct (source_crs crs) as [src|]; simpl; [|done].
  destruct (src_coordinate_operation src) as [op|]; simpl; [|done].
  destruct (is_semi_minor_computed (ellipsoid crs)); eexists; (split; [reflexivity|]).
  - split; [by rewrite lookup_insert_ne, lookup_insert_eq | by rewrite lookup_insert_eq].
  - split; vm_compute; reflexivity.
Qed.

(** On the extraction path the result of [encode] is that of
    [_transverse_mercator] with [spatial_ref] added. *)
Lemma encode_on_extraction_path rt spec crs :
  extraction_path rt spec crs →
  ∃ wkt, encode rt (Some spec)
         = (attributes ← _transverse_mercator crs; Ok (<["spatial_ref" := AStr wkt]> attributes)).
Proof.
  unfold extraction_path, encode.
  destruct (startswith spec "EPSG:").
  - intros (code & op & Hint & Hepsg & Hproj & Hop & Hm).
    rewrite Hint; simpl. rewrite Hepsg; simpl. rewrite Hproj, Hop; simpl.
    rewrite decide_True by done. eauto.
  - intros ->; simpl. eauto.
Qed.



(** ** dataset.py: the schema setter *)

(** C3 as stated fails: on a store opened with mode ['r'] the assignment
    raises nothing and returns. *)
Lemma read_only_assignment_counterexample :
  _mode opened = "r" ∧
  out_result (schema_setter sample_runtime opened swe_schema) = Ok tt ∧
  ¬ ∃ e, out_result (schema_setter sample_runtime opened swe_schema) = Raise e.
Proof.
  split; [done|]. split; [vm_compute; reflexivity|].
  intros [e He]. vm_compute in He. discriminate He.
Qed.

(** C3, amended.  On a store opened with mode ['r'] the assignment to
    [schema] returns normally and changes neither the store nor the mapping
    it was given. *)
Theorem schema_setter_read_only rt self value :
  _mode self = "r" →
  schema_setter rt self value = {| out_self := self; out_value := value; out_result := Ok tt |}.
Proof.
  intros Hmode. unfold schema_setter.
  rewrite decide_False; [done|]. rewrite Hmode. discriminate.
Qed.

Lemma schema_setter_read_only_witness :
  schema_setter sample_runtime opened swe_schema
  = {| out_self := opened; out_value := swe_schema; out_result := Ok tt |}.
Proof. apply (schema_setter_read_only sample_runtime opened swe_schema). reflexivity. Defined.

(** The loop over the variables leaves the two reserved fields alone: it
    only hands back the variable entries. *)
Lemma schema_setter_value rt self h value :
  _mode self = "x" → _dataset self = Some h →
  global_attributes (out_value (schema_setter rt self value)) = None ∧
  match grid_mapping_of rt (grid value) with
  | Ok _ => grid (out_value (schema_setter rt self value)) = None
  | Raise e => out_result (schema_setter rt self value) = Raise e
  end.
Proof.
  intros Hmode Hds. unfold schema_setter.
  rewrite decide_True by done. rewrite Hds. simpl.
  destruct (grid_mapping_of rt (grid value)) as [gm|e]; simpl; [|done].
  by destruct (process_variables _ _ _ _) as [[vars h2] r].
Qed.

(** C10.  In create mode the assignment deletes ['global_attributes'] and
    ['grid'] from the mapping it was given, before it turns to the
    variables: once the grid's CRS has been resolved both keys are gone
    whatever the variable loop does, and so they are when the assignment
    returns; a mapping that held one of them is then no longer the mapping
    that was passed in. *)
Theorem schema_setter_deletes_reserved_keys rt self h value :
  _mode self = "x" → _dataset self = Some h →
  let out := schema_setter rt self value in
  global_attributes (out_value out) = None ∧
  ((∃ gm, grid_mapping_of rt (grid value) = Ok gm) → grid (out_value out) = None) ∧
  (out_result out = Ok tt →
     grid (out_value out) = None ∧
     (is_Some (global_attributes value) ∨ is_Some (grid value) → out_value out ≠ value)).
Proof.
  intros Hmode Hds out.
  destruct (schema_setter_value rt self h value Hmode Hds) as [Hga Hgrid].
  fold out in Hga, Hgrid.
  split; [done|]. split.
  - intros [gm Hgm]. by rewrite Hgm in Hgrid.
  - intros Hok.
    assert (grid (out_value out) = None) as Hnone.
    { destruct (grid_mapping_of rt (grid value)); [done | congruence]. }
    split; [done|].
    intros [[ga Hsome] | [g Hsome]] Heq; rewrite Heq in *; congruence.
Qed.

Lemma schema_setter_deletes_reserved_keys_witness :
  is_Some (global_attributes swe_schema) ∧ is_Some (grid swe_schema) ∧
  global_attributes (out_value (schema_setter sample_runtime created swe_schema)) = None ∧
  grid (out_value (schema_setter sample_runtime created swe_schema)) = None ∧
  out_value (schema_setter sample_runtime created swe_schema) ≠ swe_schema.
Proof.
  destruct (schema_setter_deletes_reserved_keys sample_runtime created empty_hierarchy
              swe_schema eq_refl eq_refl) as (Hga & _ & Hok).
  destruct Hok as [Hgrid Hne]; [vm_compute; reflexivity|].
  split; [by eexists|]. split; [by eexists|].
  split; [exact Hga|]. split; [exact Hgrid|].
  apply Hne. left. by eexists.
Defined.

(** ** dataset.py: coordinate arrays *)

Lemma axis_values_length origin unit_size extent :
  length (axis_values origin unit_size extent) = extent.
Proof. unfold axis_values. by rewrite length_fmap, length_seq. Qed.

Lemma axis_values_lookup origin unit_size extent i :
  (i < extent)%nat →
  axis_values origin unit_size extent !! i = Some (origin + unit_size * Z.of_nat i).
Proof.
  intros Hi. unfold axis_values.
  by rewrite list_lookup_fmap, lookup_seq_lt.
Qed.


(** A [COORDINATE_X] axis on a grid gets the X sequence, inside a list. *)
Lemma coordinate_data_x g dim extent :
  dim_kind dim = COORDINATE_X →
  coordinate_data (Some g) dim extent
  = list_of_one (np_array (axis_values (upperLeft g).1 (unitSize g) extent) (dim_dtype dim)).
Proof.
  intros Hk. unfold coordinate_data.
  rewrite decide_False by (rewrite Hk; discriminate). by rewrite decide_True.
Qed.

(** Every other kind, [COORDINATE_Z] as well as [COORDINATE_Y], takes the
    last branch and gets the Y sequence. *)
Lemma coordinate_data_y_or_z g dim extent :
  dim_kind dim = COORDINATE_Y ∨ dim_kind dim = COORDINATE_Z →
  coordinate_data (Some g) dim extent
  = list_of_one (np_array (axis_values (upperLeft g).2 (unitSize g) extent) (dim_dtype dim)).
Proof.
  intros Hk. unfold coordinate_data.
  rewrite !decide_False; [done | |]; destruct Hk as [-> | ->]; discriminate.
Qed.

(** The array stored for an X or Y axis has two axes, the first of length
    one. *)
Lemma coordinate_data_wrapped_shape g dim extent :
  dim_kind dim ≠ DIMENSION_VALUE →
  nd_shape (coordinate_data (Some g) dim extent) = [1%nat; extent] ∧
  ∃ origin, nd_cells (coordinate_data (Some g) dim extent)
            = Some <$> axis_values origin (unitSize g) extent.
Proof.
  intros Hk. unfold coordinate_data.
  rewrite decide_False by done.
  case_decide; simpl; rewrite axis_values_length; eauto.
Qed.

(** C7, where the code leaves the claim.  With [upperLeft = (100, 200)] and
    [unitSize = 10] the values generated for the X axis of extent 5 are
    100, 110, ..., 140 and those for the Y axis of extent 2 are 200, 210,
    but each array is passed to [create_dataset] inside a one-element list:
    what is stored has shape [(1, 5)] and [(1, 2)], while the
    [DIMENSION_VALUE] axis of extent 2 is stored with shape [(2,)].  A
    selector on the X axis then finds one row of five values to compare
    with, and [insert] raises ValueError for a value that is on the
    axis. *)
Theorem xy_axes_stored_with_extra_axis :
  read_array swe_built "/SWE/x"
    = Some {| nd_shape := [1; 5]%nat; nd_dtype := "float64";
              nd_cells := Some <$> [100; 110; 120; 130; 140] |} ∧
  read_array swe_built "/SWE/y"
    = Some {| nd_shape := [1; 2]%nat; nd_dtype := "float64";
              nd_cells := Some <$> [200; 210] |} ∧
  read_array swe_built "/SWE/time"
    = Some {| nd_shape := [2]%nat; nd_dtype := "<M8[ns]"; nd_cells := [None; None] |} ∧
  insert swe_indexed "/SWE/SWE" swe_slice (Some [("/SWE/x", 110)])
    = (swe_indexed, Raise ValueError).
Proof. split_and!; vm_compute; reflexivity. Qed.

(** C8, where the code leaves the claim.  The axis of kind [COORDINATE_Z]
    and extent 3 is not left unwritten: on the grid with
    [upperLeft = (100, 200)] and [unitSize = 10] it holds the sequence that
    starts at the Y origin. *)
Theorem z_axis_gets_y_sequence :
  out_result (schema_setter sample_runtime created depth_schema) = Ok tt ∧
  read_array (out_self (schema_setter sample_runtime created depth_schema)) "/T/z"
    = Some {| nd_shape := [1; 3]%nat; nd_dtype := "float64";
              nd_cells := Some <$> [200; 210; 220] |}.
Proof. split; vm_compute; reflexivity. Qed.

(** ** dataset.py: insert *)

Lemma mapM_result_length {A B} (f : A → result B) l ys :
  mapM_result f l = Ok ys → length ys = length l.
Proof.
  revert ys. induction l as [|x l IH]; intros ys; simpl.
  - by intros [= <-].
  - destruct (f x) as [y|]; simpl; [|done].
    destruct (mapM_result f l) as [ys'|]; simpl; [|done].
    intros [= <-]. simpl. by rewrite (IH ys').
Qed.

Lemma mapM_result_lookup {A B} (f : A → result B) l ys k x :
  mapM_result f l = Ok ys → l !! k = Some x →
  ∃ y, ys !! k = Some y ∧ f x = Ok y.
Proof.
  revert ys k. induction l as [|x' l IH]; intros ys k; simpl; [done|].
  destruct (f x') as [y'|] eqn:Hx'; simpl; [|done].
  destruct (mapM_result f l) as [ys'|]; simpl; [|done].
  intros [= <-]. destruct k as [|k]; simpl.
  - intros [= ->]. eauto.
  - by apply IH.
Qed.

Lemma mapM_result_ok {A B} (f : A → result B) l :
  (∀ x, x ∈ l → ∃ y, f x = Ok y) → ∃ ys, mapM_result f l = Ok ys.
Proof.
  induction l as [|x l IH]; intros Hall; simpl; [eauto|].
  destruct (Hall x) as [y ->]; [left|]. simpl.
  destruct IH as [ys ->]; [intros; apply Hall; by right|].
  simpl. eauto.
Qed.

(** When every element either succeeds or raises [e], and one raises, the
    traversal raises [e]. *)
Lemma mapM_result_raise {A B} (f : A → result B) l e x :
  (∀ x', x' ∈ l → (∃ y, f x' = Ok y) ∨ f x' = Raise e) →
  x ∈ l → f x = Raise e →
  mapM_result f l = Raise e.
Proof.
  induction l as [|x' l IH]; intros Hall Hin Hx; [by apply elem_of_nil in Hin|].
  simpl. destruct (Hall x') as [[y Hy] | Hr]; [left | |].
  - rewrite Hy. simpl.
    apply elem_of_cons in Hin as [-> | Hin]; [congruence|].
    rewrite IH; [done | | done | done].
    intros; apply Hall; by right.
  - by rewrite Hr.
Qed.

(** [list.index] on cells finds the first match, or nothing when the value
    is not there. *)
Lemma find_cell_present (cells : list (option Z)) v :
  Some v ∈ cells →
  ∃ i, fst <$> list_find (fun c => c = Some v) cells = Some i ∧ first_match cells v i.
Proof.
  intros Hin.
  destruct (list_find (fun c => c = Some v) cells) as [[i c]|] eqn:Hfind.
  - apply list_find_Some in Hfind as (Hi & -> & Hbefore).
    exists i. split; [done|]. split; [done|].
    intros j Hj Hc. by apply (Hbefore j (Some v)).
  - apply list_find_None in Hfind.
    rewrite Forall_forall in Hfind. by destruct (Hfind _ Hin).
Qed.

Lemma find_cell_absent (cells : list (option Z)) v :
  Some v ∉ cells → list_find (fun c => c = Some v) cells = None.
Proof.
  intros Hout. apply list_find_None, Forall_forall.
  intros c Hc ->. by apply Hout.
Qed.

(** With one selector per axis, [index_keys.index(axis)] leads to that
    selector. *)
Lemma py_index_selector (indexes : list (string * Z)) axis v :
  NoDup (fst <$> indexes) → (axis, v) ∈ indexes →
  ∃ k, py_index axis (fst <$> indexes) = Ok k ∧ indexes !! k = Some (axis, v).
Proof.
  intros Hnd Hin.
  apply list_elem_of_lookup in Hin as [k Hk].
  assert ((fst <$> indexes) !! k = Some axis) as Hkey
    by (by rewrite list_lookup_fmap, Hk).
  unfold py_index.
  destruct (list_find (fun y => y = axis) (fst <$> indexes)) as [[k' a]|] eqn:Hfind.
  - apply list_find_Some in Hfind as (Hk' & -> & _).
    rewrite (NoDup_lookup _ _ _ _ Hnd Hk' Hkey). simpl. eauto.
  - apply list_find_None in Hfind. rewrite Forall_forall in Hfind.
    destruct (Hfind axis); [|done]. apply list_elem_of_lookup; eauto.
Qed.

Lemma resolve_axis_unselected h (indexes : list (string * Z)) axis :
  axis ∉ fst <$> indexes → resolve_axis h indexes axis = Ok Full.
Proof. intros Hout. unfold resolve_axis. by rewrite decide_False. Qed.

Lemma resolve_axis_selected h (indexes : list (string * Z)) axis v coords :
  NoDup (fst <$> indexes) → (axis, v) ∈ indexes → coordinate_array h axis coords →
  resolve_axis h indexes axis
  = (i ← or_raise (fst <$> list_find (fun c => c = Some v) (nd_cells coords)) ValueError;
     Ok (At i)).
Proof.
  intros Hnd Hin (z & n & Hget & <- & Hshape).
  destruct (py_index_selector indexes axis v Hnd Hin) as (k & Hk & Hitem).
  unfold resolve_axis.
  rewrite decide_True by (apply list_elem_of_fmap; by exists (axis, v)).
  rewrite Hk; simpl. rewrite Hitem; simpl. rewrite Hget; simpl.
  unfold coordinate_offset. rewrite Hshape. simpl.
  by destruct (list_find _ _) as [[i c]|].
Qed.

(** The subscripts that [insert] assembles.  Let the selectors name
    distinct linked axes whose coordinate arrays are stored and
    one-dimensional.  If every selector's value occurs on its axis, the
    assignment is run with one subscript per linked dimension, in linkage
    order: [[:]] for an axis without a selector, and for an axis with a
    selector the position of the first cell equal to its value.  If some
    selector's value occurs nowhere on its axis, the call raises ValueError
    (the exception of [list.index]) and nothing is written. *)
Lemma insert_resolves_selectors self h dataset_name node dims data
    (indexes : list (string * Z)) :
  _dataset self = Some h →
  getitem dataset_name h = Ok node →
  node_attrs node !! "_ARRAY_DIMENSIONS" = Some (AList dims) →
  NoDup (fst <$> indexes) →
  (∀ axis v, (axis, v) ∈ indexes → axis ∈ dims ∧ ∃ coords, coordinate_array h axis coords) →
  ((∀ axis v coords, (axis, v) ∈ indexes → coordinate_array h axis coords →
      Some v ∈ nd_cells coords) →
   ∃ subs,
     insert self dataset_name data (Some indexes)
       = (let '(h', r) := exec_assignment self h dataset_name subs data in
          (with_store self h', r)) ∧
     length subs = length dims ∧
     ∀ k axis, dims !! k = Some axis →
       (axis ∉ fst <$> indexes → subs !! k = Some Full) ∧
       (∀ v coords, (axis, v) ∈ indexes → coordinate_array h axis coords →
          ∃ i, subs !! k = Some (At i) ∧ first_match (nd_cells coords) v i)) ∧
  (∀ axis v coords, (axis, v) ∈ indexes → coordinate_array h axis coords →
     Some v ∉ nd_cells coords →
     insert self dataset_name data (Some indexes) = (self, Raise ValueError)).
Proof.
  intros Hds Hget Hattr Hnd Hsel.
  assert (∀ r, index_expr h dims indexes = r →
            insert self dataset_name data (Some indexes)
            = match r with
              | Raise e => (self, Raise e)
              | Ok subs => let '(h', r) := exec_assignment self h dataset_name subs data in
                           (with_store self h', r)
              end) as Hinsert.
  { intros r <-. unfold insert. rewrite Hds, Hget. simpl. by rewrite Hattr. }
  assert (∀ axis, axis ∈ dims →
            (∃ sub, resolve_axis h indexes axis = Ok sub) ∨
            resolve_axis h indexes axis = Raise ValueError) as Hsteps.
  { intros axis _.
    destruct (decide (axis ∈ fst <$> indexes)) as [Hkey|Hkey].
    - apply list_elem_of_fmap in Hkey as ([axis' v] & -> & Hin). simpl.
      destruct (Hsel _ _ Hin) as [_ [coords Hcoords]].
      rewrite (resolve_axis_selected _ _ _ _ _ Hnd Hin Hcoords).
      destruct (list_find _ _) as [[i c]|]; simpl; eauto.
    - rewrite resolve_axis_unselected by done. eauto. }
  split.
  - intros Hpresent.
    destruct (mapM_result_ok (resolve_axis h indexes) dims) as [subs Hsubs].
    { intros axis Hin.
      destruct (decide (axis ∈ fst <$> indexes)) as [Hkey|Hkey].
      - apply list_elem_of_fmap in Hkey as ([axis' v] & -> & Hsel'). simpl.
        destruct (Hsel _ _ Hsel') as [_ [coords Hcoords]].
        rewrite (resolve_axis_selected _ _ _ _ _ Hnd Hsel' Hcoords).
        destruct (find_cell_present _ _ (Hpresent _ _ _ Hsel' Hcoords)) as (i & -> & _).
        simpl. eauto.
      - rewrite resolve_axis_unselected by done. eauto. }
    exists subs. split; [by apply (Hinsert (Ok subs))|].
    split; [by apply mapM_result_length in Hsubs|].
    intros k axis Hk.
    destruct (mapM_result_lookup _ _ _ _ _ Hsubs Hk) as (sub & Hsub & Hres).
    split.
    + intros Hkey. rewrite resolve_axis_unselected in Hres by done. congruence.
    + intros v coords Hin Hcoords.
      rewrite (resolve_axis_selected _ _ _ _ _ Hnd Hin Hcoords) in Hres.
      destruct (find_cell_present _ _ (Hpresent _ _ _ Hin Hcoords)) as (i & Hi & Hfirst).
      rewrite Hi in Hres. simpl in Hres. exists i. split; [congruence | done].
  - intros axis v coords Hin Hcoords Habsent.
    rewrite (Hinsert (Raise ValueError)); [done|].
    apply (mapM_result_raise _ _ _ axis); [done | by apply (Hsel axis v) |].
    rewrite (resolve_axis_selected _ _ _ _ _ Hnd Hin Hcoords).
    by rewrite find_cell_absent.
Qed.

Lemma insert_resolves_selectors_witness :
  (∃ subs,
     insert swe_indexed "/SWE/SWE" swe_slice (Some [("/SWE/time", 2000)])
       = (let '(h', r) := exec_assignment swe_indexed swe_store "/SWE/SWE" subs swe_slice in
          (with_store swe_indexed h', r)) ∧
     length subs = 3%nat ∧
     (∃ i, subs !! 0%nat = Some (At i) ∧ first_match (nd_cells time_values) 2000 i) ∧
     subs !! 1%nat = Some Full ∧ subs !! 2%nat = Some Full) ∧
  insert swe_indexed "/SWE/SWE" swe_slice (Some [("/SWE/time", 3000)])
    = (swe_indexed, Raise ValueError).
Proof.
  assert (coordinate_array swe_store "/SWE/time" time_values) as Htime.
  { eexists _, _. split; [vm_compute; reflexivity|]. split; reflexivity. }
  assert (∀ coords, coordinate_array swe_store "/SWE/time" coords → coords = time_values)
    as Hsame.
  { intros coords (z & n & Hget & <- & _).
    vm_compute in Hget. injection Hget as <-. reflexivity. }
  assert (∀ v : Z, NoDup (fst <$> [("/SWE/time", v)])) as Hnd.
  { intros v. apply NoDup_singleton. }
  assert (∀ (v : Z) axis v', (axis, v') ∈ [("/SWE/time", v)] →
            axis ∈ ["/SWE/time"; "/SWE/y"; "/SWE/x"] ∧
            ∃ coords, coordinate_array swe_store axis coords) as Hsel.
  { intros v axis v' Hin. apply list_elem_of_singleton in Hin. injection Hin as -> ->.
    split; [left | eauto]. }
  pose (node := default (GroupNode ∅) (nodes swe_store !! "SWE/SWE")).
  split.
  - destruct (insert_resolves_selectors swe_indexed swe_store "/SWE/SWE" node
                ["/SWE/time"; "/SWE/y"; "/SWE/x"] swe_slice [("/SWE/time", 2000)])
      as [Hresolved _].
    + vm_compute; reflexivity.
    + vm_compute; reflexivity.
    + vm_compute; reflexivity.
    + apply Hnd.
    + apply Hsel.
    + destruct Hresolved as (subs & Hinsert & Hlength & Haxes).
      { intros axis v coords Hin Hcoords.
        apply list_elem_of_singleton in Hin. injection Hin as -> ->.
        rewrite (Hsame _ Hcoords). right. left. }
      exists subs. split; [exact Hinsert|]. split; [exact Hlength|].
      split; [|split].
      * destruct (Haxes 0%nat "/SWE/time" eq_refl) as [_ Hat].
        apply (Hat 2000 time_values); [left | exact Htime].
      * apply (Haxes 1%nat "/SWE/y" eq_refl).
        intros Hin. apply list_elem_of_singleton in Hin. discriminate Hin.
      * apply (Haxes 2%nat "/SWE/x" eq_refl).
        intros Hin. apply list_elem_of_singleton in Hin. discriminate Hin.
  - destruct (insert_resolves_selectors swe_indexed swe_store "/SWE/SWE" node
                ["/SWE/time"; "/SWE/y"; "/SWE/x"] swe_slice [("/SWE/time", 3000)])
      as [_ Hmissing].
    + vm_compute; reflexivity.
    + vm_compute; reflexivity.
    + vm_compute; reflexivity.
    + apply Hnd.
    + apply Hsel.
    + apply (Hmissing "/SWE/time" 3000 time_values); [left | exact Htime |].
      intros Hin. vm_compute in Hin.
      repeat (apply elem_of_cons in Hin as [Heq | Hin]; [discriminate Heq|]).
      by apply elem_of_nil in Hin.
Defined.

(** With two or more subscripts the assignment is applied to the numpy
    array that the first subscript read out of the store: the hierarchy is
    what it was. *)
Lemma exec_assignment_chain_keeps_store self h dataset_name s1 s2 subs data :
  (exec_assignment self h dataset_name (s1 :: s2 :: subs) data).1 = h.
Proof.
  unfold exec_assignment.
  destruct (getitem dataset_name h) as [[attrs|z]|e]; reflexivity.
Qed.

Lemma with_store_same self h : _dataset self = Some h → with_store self h = self.
Proof. destruct self; simpl. by intros ->. Qed.

(** An [insert] into an array linked to two or more dimensions never
    changes the dataset, whatever the selectors and the data. *)
Lemma insert_keeps_dataset self h dataset_name z d1 d2 dims data indexes :
  _dataset self = Some h →
  getitem dataset_name h = Ok (ArrayNode z) →
  z_attrs z !! "_ARRAY_DIMENSIONS" = Some (AList (d1 :: d2 :: dims)) →
  (insert self dataset_name data indexes).1 = self.
Proof.
  intros Hds Hget Hattr. unfold insert.
  destruct indexes as [indexes|]; [|done].
  rewrite Hds, Hget. simpl. rewrite Hattr. simpl.
  destruct (index_expr h (d1 :: d2 :: dims) indexes) as [subs|e] eqn:Hsubs; [|done].
  apply mapM_result_length in Hsubs.
  destruct subs as [|s1 [|s2 subs]]; [done | done |].
  pose proof (exec_assignment_chain_keeps_store self h dataset_name s1 s2 subs data) as Hkeep.
  destruct (exec_assignment _ _ _ _ _) as [h' r]. simpl in *. subst h'.
  by apply with_store_same.
Qed.

(** C9, where the code leaves the claim.  After the schema assignment and
    [set_index('/SWE/time', [1000, 2000])], inserting a time slice with the
    selector [('/SWE/time', 2000)] resolves to the subscripts
    [[1][:][:]] and returns normally, but the dataset is the one from
    before the call: the plane at time offset 1 of [/SWE/SWE] is as
    unwritten as every other cell. *)
Theorem insert_time_slice_not_stored :
  index_expr swe_store ["/SWE/time"; "/SWE/y"; "/SWE/x"] [("/SWE/time", 2000)]
    = Ok [At 1; Full; Full] ∧
  insert swe_indexed "/SWE/SWE" swe_slice (Some [("/SWE/time", 2000)]) = (swe_indexed, Ok tt) ∧
  read_array swe_indexed "/SWE/SWE" = Some (np_empty [2; 2; 5]%nat "float64").
Proof. split_and!; vm_compute; reflexivity. Qed.

(** C4, where the code leaves the claim.  On the dataset built from the
    schema, with its time axis set to [1000, 2000]:

    - the stored Y axis holds 200 and 210, yet a selector [('/SWE/y', 210)]
      makes [insert] raise ValueError: the axis was stored with shape
      [(1, 2)], so [list(...)] has the whole row as its one item and
      [index] cannot compare it with 210;
    - with no selector at all every axis gets [[:]], the call returns
      normally for data of the array's full shape, and nothing is written:
      [/SWE/SWE] is as unwritten as before;
    - of two selectors on the same axis only the first is looked at: the
      value 3000 of the second is nowhere on the time axis and the call
      returns normally. *)
Theorem insert_selection_diverges :
  read_array swe_indexed "/SWE/y"
    = Some {| nd_shape := [1; 2]%nat; nd_dtype := "float64";
              nd_cells := Some <$> [200; 210] |} ∧
  insert swe_indexed "/SWE/SWE" swe_slice (Some [("/SWE/time", 2000); ("/SWE/y", 210)])
    = (swe_indexed, Raise ValueError) ∧
  index_expr swe_store ["/SWE/time"; "/SWE/y"; "/SWE/x"] [] = Ok [Full; Full; Full] ∧
  insert swe_indexed "/SWE/SWE" swe_cube (Some []) = (swe_indexed, Ok tt) ∧
  read_array (insert swe_indexed "/SWE/SWE" swe_cube (Some [])).1 "/SWE/SWE"
    = Some (np_empty [2; 2; 5]%nat "float64") ∧
  read_array swe_indexed "/SWE/time" = Some time_values ∧
  insert swe_indexed "/SWE/SWE" swe_slice (Some [("/SWE/time", 2000); ("/SWE/time", 3000)])
    = (swe_indexed, Ok tt).
Proof. split_and!; vm_compute; reflexivity. Qed.

(** With a single linked dimension the assignment is zarr's own and the
    cell is written. *)
Example insert_into_one_dimension :
  let h := set_node "v" (ArrayNode {| z_data := np_empty [3%nat] "int32"; z_chunks := ChunksAuto;
                                      z_attrs := {[ "_ARRAY_DIMENSIONS" := AList ["/t"] ]} |})
             (set_node "t" (ArrayNode {| z_data := np_array [10; 20; 30] "int32";
                                         z_chunks := ChunksAuto; z_attrs := ∅ |})
                empty_hierarchy) in
  let self := with_store created h in
  let value := {| nd_shape := []; nd_dtype := "int32"; nd_cells := [Some 7] |} in
  read_array (insert self "/v" value (Some [("/t", 20)])).1 "/v"
  = Some {| nd_shape := [3%nat]; nd_dtype := "int32"; nd_cells := [None; Some 7; None] |}.
Proof. vm_compute. reflexivity. Qed.
(** ** The store under the setter *)

Lemma extends_refl h : extends h h.
Proof. by split. Qed.

Lemma extends_trans h1 h2 h3 : extends h1 h2 → extends h2 h3 → extends h1 h3.
Proof. intros [Hn1 Hr1] [Hn2 Hr2]. split; [by etrans | congruence]. Qed.

Lemma set_node_fresh_extends key n h :
  nodes h !! key = None → extends h (set_node key n h).
Proof. intros Hfresh. split; [by apply insert_subseteq | done]. Qed.

Lemma create_at_Ok key n h h' :
  create_at key n h = Ok h' ↔ key ≠ "" ∧ nodes h !! key = None ∧ h' = set_node key n h.
Proof.
  unfold create_at. case_decide as Hkey.
  - split; [done | by intros (? & _)].
  - destruct (nodes h !! key) as [[a|z]|]; split; try done;
      try (by intros (_ & ? & _)).
    + by intros [= <-].
    + by intros (_ & _ & ->).
Qed.

(** A failed creation raises one of the two "contains" errors. *)
Lemma create_at_Raise key n h e :
  create_at key n h = Raise e → e = ContainsArrayError ∨ e = ContainsGroupError.
Proof.
  unfold create_at. case_decide; [intros [= <-]; by right|].
  destruct (nodes h !! key) as [[a|z]|]; intros [= <-]; eauto.
Qed.

(** Creating a member and then updating its attributes amounts to one
    insertion at a fresh path; the update cannot fail once the creation has
    gone through. *)
Lemma add_member_run {A} group name data chunks new (k : StoreM A) h :
  (_ ← store_call (create_dataset group name data chunks);
   _ ← store_call (update_member_attrs group name new); k) h
  = match create_dataset group name data chunks h with
    | Raise e => (h, Raise e)
    | Ok _ => k (set_node (member_key group name)
                   (ArrayNode {| z_data := data; z_chunks := chunks; z_attrs := new |}) h)
    end.
Proof.
  unfold mbind at 1, StoreM_bind, store_call at 1.
  destruct (create_dataset group name data chunks h) as [h1|e] eqn:Hcreate; [|done].
  unfold create_dataset in Hcreate.
  destruct (getitem group h) as [[a|z]|] eqn:Hgroup;
    unfold mbind, result_bind in Hcreate; try done.
  apply create_at_Ok in Hcreate as (Hkey & Hfresh & ->).
  fold (member_key group name) in *.
  unfold mbind, StoreM_bind, store_call, update_member_attrs.
  assert (member_key group name ≠ normalize_storage_path group) as Hne.
  { intros Heq. unfold getitem in Hgroup. rewrite <- Heq, Hfresh in Hgroup. done. }
  unfold getitem in *. simpl.
  rewrite (lookup_insert_ne (nodes h) (member_key group name)
             (normalize_storage_path group)) by done.
  destruct (nodes h !! normalize_storage_path group) as [[a'|z']|]; simpl in *; try done.
  fold (member_key group name).
  rewrite lookup_insert_eq. simpl.
  f_equal. unfold set_node. simpl. f_equal.
  rewrite insert_insert_eq. do 3 f_equal.
  unfold attrs_update. by rewrite (right_id_L ∅ (∪)).
Qed.

Lemma create_dataset_Ok group name data chunks h h' :
  create_dataset group name data chunks h = Ok h' →
  (∃ a, nodes h !! normalize_storage_path group = Some (GroupNode a)) ∧
  member_key group name ≠ "" ∧ nodes h !! member_key group name = None.
Proof.
  unfold create_dataset, getitem.
  destruct (nodes h !! normalize_storage_path group) as [[a|z]|];
    unfold or_raise, mbind, result_bind; try done.
  intros (Hkey & Hfresh & _)%create_at_Ok. eauto.
Qed.

Lemma build_dimensions_cons grid var shape dim dims i h :
  build_dimensions grid var shape (dim :: dims) i h
  = match shape !! i with
    | None => (h, Raise IndexError)
    | Some extent =>
        match create_dataset var (dim_name dim) (coordinate_data grid dim extent) ChunksAuto h with
        | Raise e => (h, Raise e)
        | Ok _ =>
            build_dimensions grid var shape dims (S i)
              (set_node (member_key var (dim_name dim)) (coordinate_node grid var dim extent) h)
        end
    end.
Proof.
  cbn [build_dimensions]. unfold mbind at 1, StoreM_bind, pure_call.
  destruct (shape !! i) as [extent|]; [|done]. cbn [or_raise].
  apply add_member_run.
Qed.

Lemma build_dimensions_extends grid var shape dims i h :
  extends h (build_dimensions grid var shape dims i h).1.
Proof.
  revert i h. induction dims as [|dim dims IH]; intros i h.
  - apply extends_refl.
  - rewrite build_dimensions_cons.
    destruct (shape !! i) as [extent|]; [|apply extends_refl].
    destruct (create_dataset _ _ _ _ h) as [h1|e] eqn:Hcreate; [|apply extends_refl].
    apply create_dataset_Ok in Hcreate as (_ & _ & Hfresh).
    eapply extends_trans; [by apply set_node_fresh_extends | apply IH].
Qed.

(** What a completed dimension loop has put into the store. *)
Lemma build_dimensions_Ok grid var shape dims i h h' :
  build_dimensions grid var shape dims i h = (h', Ok tt) →
  (∀ j dim, dims !! j = Some dim →
     ∃ extent, shape !! (i + j)%nat = Some extent ∧
       nodes h' !! member_key var (dim_name dim) = Some (coordinate_node grid var dim extent) ∧
       nodes h !! member_key var (dim_name dim) = None) ∧
  NoDup ((fun dim => member_key var (dim_name dim)) <$> dims).
Proof.
  revert i h. induction dims as [|dim dims IH]; intros i h Hrun.
  - split; [done | constructor].
  - rewrite build_dimensions_cons in Hrun.
    destruct (shape !! i) as [extent|] eqn:Hextent; [|done].
    destruct (create_dataset _ _ _ _ h) as [h1|e] eqn:Hcreate; [|done].
    apply create_dataset_Ok in Hcreate as (_ & _ & Hfresh).
    pose proof (build_dimensions_extends grid var shape dims (S i)
                  (set_node (member_key var (dim_name dim))
                     (coordinate_node grid var dim extent) h)) as [Hsub _].
    rewrite Hrun in Hsub. simpl in Hsub.
    destruct (IH _ _ Hrun) as [Hrest Hnodup].
    split.
    + intros [|j] dim' Hdim; simpl in Hdim.
      * injection Hdim as <-. exists extent.
        rewrite Nat.add_0_r. split; [done|]. split; [|done].
        eapply lookup_weaken; [|exact Hsub]. apply lookup_insert_eq.
      * destruct (Hrest j dim' Hdim) as (extent' & Hshape & Hnode & Hfresh').
        exists extent'. replace (i + S j)%nat with (S i + j)%nat by lia.
        split; [done|]. split; [done|].
        simpl in Hfresh'.
        destruct (decide (member_key var (dim_name dim) = member_key var (dim_name dim')))
          as [Heq|Hne].
        -- by rewrite Heq, lookup_insert_eq in Hfresh'.
        -- by rewrite lookup_insert_ne in Hfresh'.
    + rewrite fmap_cons. constructor; [|done].
      intros Hin. apply list_elem_of_fmap in Hin as (dim' & Heq & Hin).
      apply list_elem_of_lookup in Hin as [j Hj].
      destruct (Hrest j dim' Hj) as (_ & _ & _ & Hfresh').
      simpl in Hfresh'. by rewrite <- Heq, lookup_insert_eq in Hfresh'.
Qed.

(** A completed loop has found an extent for every dimension. *)
Lemma build_dimensions_lengths grid var shape dims h h' :
  build_dimensions grid var shape dims 0 h = (h', Ok tt) →
  (length dims ≤ length shape)%nat.
Proof.
  intros Hrun. destruct dims as [|dim dims _] using rev_ind; [simpl; lia|].
  destruct (build_dimensions_Ok _ _ _ _ _ _ _ Hrun) as [Hall _].
  destruct (Hall (length dims) dim) as (extent & Hshape & _).
  { by rewrite lookup_app_r, Nat.sub_diag by lia. }
  apply lookup_lt_Some in Hshape. rewrite length_app. simpl in *. lia.
Qed.

Lemma build_variable_run grid grid_mapping var v h :
  build_variable grid grid_mapping var v h
  = match create_group var h with
    | Raise e => (h, Raise e)
    | Ok h0 =>
        match build_dimensions grid var (var_shape v) (var_dimensions v) 0 h0 with
        | (h1, Raise e) => (h1, Raise e)
        | (h1, Ok _) =>
            match create_dataset var "crs_grid" (np_empty [0%nat] "S1") ChunksOff h1 with
            | Raise e => (h1, Raise e)
            | Ok _ =>
                let h2 := set_node (member_key var "crs_grid") (crs_grid_node grid_mapping) h1 in
                match create_dataset var (var_name v) (np_empty (var_shape v) (var_dtype v))
                        (ChunkShape (default (var_shape v) (var_chunks v))) h2 with
                | Raise e => (h2, Raise e)
                | Ok _ => (set_node (member_key var (var_name v)) (data_node v) h2, Ok tt)
                end
            end
        end
    end.
Proof.
  unfold build_variable.
  unfold mbind at 1, StoreM_bind, store_call at 1.
  destruct (create_group var h) as [h0|e]; [|done].
  unfold mbind at 1, StoreM_bind.
  destruct (build_dimensions _ _ _ _ _ h0) as [h1 [[]|e]]; [|done].
  rewrite add_member_run.
  destruct (create_dataset var "crs_grid" _ _ h1) as [h2'|e]; [|done].
  fold (crs_grid_node grid_mapping).
  set (h2 := set_node _ (crs_grid_node grid_mapping) h1).
  pose proof (add_member_run var (var_name v) (np_empty (var_shape v) (var_dtype v))
                (ChunkShape (default (var_shape v) (var_chunks v))) (var_attributes v)
                (mret tt) h2) as Hlast.
  unfold mret, StoreM_ret in Hlast.
  destruct (create_dataset var (var_name v) _ _ h2) as [h3|e] eqn:Hdata.
  - fold (data_node v) in Hlast. rewrite <- Hlast. clear.
    unfold mbind, StoreM_bind.
    destruct (store_call _ h2) as [h3' [[]|e]]; [|done].
    by destruct (store_call _ h3') as [h4 [[]|e]].
  - rewrite <- Hlast. clear.
    unfold mbind, StoreM_bind.
    destruct (store_call _ h2) as [h3' [[]|e]]; [|done].
    by destruct (store_call _ h3') as [h4 [[]|e]].
Qed.

Lemma create_group_Ok var h h0 :
  create_group var h = Ok h0 ↔
  normalize_storage_path var ≠ "" ∧ nodes h !! normalize_storage_path var = None ∧
  h0 = set_node (normalize_storage_path var) (GroupNode ∅) h.
Proof. apply create_at_Ok. Qed.

Lemma build_variable_extends grid grid_mapping var v h :
  extends h (build_variable grid grid_mapping var v h).1.
Proof.
  rewrite build_variable_run.
  destruct (create_group var h) as [h0|e] eqn:Hgroup; [|apply extends_refl].
  apply create_group_Ok in Hgroup as (_ & Hfresh0 & ->).
  eapply extends_trans; [by apply set_node_fresh_extends|].
  pose proof (build_dimensions_extends grid var (var_shape v) (var_dimensions v) 0
                (set_node (normalize_storage_path var) (GroupNode ∅) h)) as Hdims.
  destruct (build_dimensions _ _ _ _ _ _) as [h1 [[]|e]]; [|done].
  simpl in Hdims. eapply extends_trans; [exact Hdims|].
  destruct (create_dataset var "crs_grid" _ _ h1) as [h2'|e] eqn:Hcrs; [|apply extends_refl].
  apply create_dataset_Ok in Hcrs as (_ & _ & Hfresh1).
  eapply extends_trans; [by apply set_node_fresh_extends|]. simpl.
  destruct (create_dataset var (var_name v) _ _ _) as [h3|e] eqn:Hdata; [|apply extends_refl].
  apply create_dataset_Ok in Hdata as (_ & _ & Hfresh2).
  by apply set_node_fresh_extends.
Qed.

(** What a completed variable has put into the store, and what it found
    free there. *)
Lemma build_variable_Ok grid grid_mapping var v h h' :
  build_variable grid grid_mapping var v h = (h', Ok tt) →
  normalize_storage_path var ≠ "" ∧
  nodes h !! normalize_storage_path var = None ∧
  nodes h' !! normalize_storage_path var = Some (GroupNode ∅) ∧
  nodes h' !! member_key var "crs_grid" = Some (crs_grid_node grid_mapping) ∧
  nodes h' !! member_key var (var_name v) = Some (data_node v) ∧
  (∀ j dim, var_dimensions v !! j = Some dim →
     ∃ extent, var_shape v !! j = Some extent ∧
       nodes h' !! member_key var (dim_name dim) = Some (coordinate_node grid var dim extent)) ∧
  NoDup (normalize_storage_path var :: member_key var (var_name v) :: member_key var "crs_grid"
         :: ((fun dim => member_key var (dim_name dim)) <$> var_dimensions v)).
Proof.
  rewrite build_variable_run.
  destruct (create_group var h) as [h0|e] eqn:Hgroup; [|done].
  apply create_group_Ok in Hgroup as (Hname & Hfresh0 & ->).
  destruct (build_dimensions _ _ _ _ _ _) as [h1 [[]|e]] eqn:Hdims; [|done].
  destruct (create_dataset var "crs_grid" _ _ h1) as [h2'|e] eqn:Hcrs; [|done].
  apply create_dataset_Ok in Hcrs as (_ & _ & Hfresh1). simpl.
  destruct (create_dataset var (var_name v) _ _ _) as [h3|e] eqn:Hdata; [|done].
  apply create_dataset_Ok in Hdata as (_ & _ & Hfresh2).
  intros [= <-].
  pose proof (build_dimensions_extends grid var (var_shape v) (var_dimensions v) 0
                (set_node (normalize_storage_path var) (GroupNode ∅) h)) as [Hsub _].
  rewrite Hdims in Hsub. simpl in Hsub.
  destruct (build_dimensions_Ok _ _ _ _ _ _ _ Hdims) as [Hcoords Hnodup].
  assert (nodes h1 !! normalize_storage_path var = Some (GroupNode ∅)) as Hgroup1.
  { eapply lookup_weaken; [|exact Hsub]. apply lookup_insert_eq. }
  simpl in Hfresh2.
  assert (member_key var (var_name v) ≠ member_key var "crs_grid") as Hne_data_crs.
  { intros Heq. by rewrite Heq, lookup_insert_eq in Hfresh2. }
  rewrite lookup_insert_ne in Hfresh2 by done.
  assert (∀ key, nodes h1 !! key = None → is_Some (nodes h1 !! key) → False) as Hclash.
  { intros key Hnone [n Hsome]. congruence. }
  assert (∀ dim, dim ∈ var_dimensions v →
            is_Some (nodes h1 !! member_key var (dim_name dim))) as Hdim_present.
  { intros dim Hin. apply list_elem_of_lookup in Hin as [j Hj].
    destruct (Hcoords j dim Hj) as (extent & _ & Hnode & _). eauto. }
  split; [done|]. split; [done|].
  split. { simpl. rewrite !lookup_insert_ne; [done | |]; intros Heq.
           - apply (Hclash _ Hfresh1). rewrite Heq. eauto.
           - apply (Hclash _ Hfresh2). rewrite Heq. eauto. }
  split. { simpl. rewrite lookup_insert_ne by done. apply lookup_insert_eq. }
  split. { simpl. apply lookup_insert_eq. }
  split.
  - intros j dim Hj.
    destruct (Hcoords j dim Hj) as (extent & Hshape & Hnode & _).
    exists extent. split; [done|]. simpl.
    rewrite !lookup_insert_ne; [done | |]; intros Heq.
    + apply (Hclash _ Hfresh1). rewrite Heq. eauto.
    + apply (Hclash _ Hfresh2). rewrite Heq. eauto.
  - constructor; [|constructor; [|constructor; [|done]]].
    + intros Hin.
      apply elem_of_cons in Hin as [Heq|Hin];
        [apply (Hclash _ Hfresh2); rewrite <- Heq; eauto|].
      apply elem_of_cons in Hin as [Heq|Hin];
        [apply (Hclash _ Hfresh1); rewrite <- Heq; eauto|].
      apply list_elem_of_fmap in Hin as (dim & Heq & Hin).
      apply list_elem_of_lookup in Hin as [j Hj].
      destruct (Hcoords j dim Hj) as (_ & _ & _ & Hfresh').
      simpl in Hfresh'. by rewrite <- Heq, lookup_insert_eq in Hfresh'.
    + intros Hin.
      apply elem_of_cons in Hin as [Heq|Hin]; [done|].
      apply list_elem_of_fmap in Hin as (dim & Heq & Hin).
      apply (Hclash _ Hfresh2). rewrite Heq. by apply Hdim_present.
    + intros Hin.
      apply list_elem_of_fmap in Hin as (dim & Heq & Hin).
      apply (Hclash _ Hfresh1). rewrite Heq. by apply Hdim_present.
Qed.

Lemma build_variable_lengths grid grid_mapping var v h h' :
  build_variable grid grid_mapping var v h = (h', Ok tt) →
  (length (var_dimensions v) ≤ length (var_shape v))%nat.
Proof.
  rewrite build_variable_run.
  destruct (create_group var h) as [h0|e]; [|done].
  destruct (build_dimensions _ _ _ _ _ _) as [h1 [[]|e]] eqn:Hdims; [|done].
  intros _. by apply build_dimensions_lengths in Hdims.
Qed.

Lemma process_variables_extends grid grid_mapping todo h :
  extends h (process_variables grid grid_mapping todo h).1.2.
Proof.
  revert h. induction todo as [|[var v] todo IH]; intros h; simpl; [apply extends_refl|].
  pose proof (build_variable_extends grid grid_mapping var (annotate grid var v) h) as Hvar.
  destruct (build_variable _ _ _ _ h) as [h1 [[]|e]]; simpl in *; [|done].
  specialize (IH h1).
  destruct (process_variables _ _ todo h1) as [[rest h2] r]. simpl in *.
  by eapply extends_trans.
Qed.

(** The caller's variable entries keep their names and order, whatever
    happens. *)
Lemma process_variables_names grid grid_mapping todo h :
  fst <$> (process_variables grid grid_mapping todo h).1.1 = fst <$> todo.
Proof.
  revert h. induction todo as [|[var v] todo IH]; intros h; simpl; [done|].
  destruct (build_variable _ _ _ _ h) as [h1 [[]|e]]; simpl; [|done].
  specialize (IH h1).
  destruct (process_variables _ _ todo h1) as [[rest h2] r]. simpl in *. by f_equal.
Qed.

(** What a completed loop over the variables leaves: every entry
    annotated, in the store and in the caller's mapping. *)
Lemma process_variables_Ok grid grid_mapping todo h vars h' :
  process_variables grid grid_mapping todo h = (vars, h', Ok tt) →
  vars = (fun item => (item.1, annotate grid item.1 item.2)) <$> todo ∧
  NoDup ((fun item => normalize_storage_path item.1) <$> todo) ∧
  ∀ var v, (var, v) ∈ todo →
    ∃ h0 h1, extends h h0 ∧
      build_variable grid grid_mapping var (annotate grid var v) h0 = (h1, Ok tt) ∧
      extends h1 h'.
Proof.
  revert h vars h'. induction todo as [|[var v] todo IH]; intros h vars h'; simpl.
  - intros [= <- <-]. split; [done|]. split; [constructor|].
    intros var v Hin. by apply elem_of_nil in Hin.
  - destruct (build_variable _ _ _ _ h) as [h1 [[]|e]] eqn:Hvar; [|done].
    destruct (process_variables _ _ todo h1) as [[rest h2] r] eqn:Hrest.
    intros [= <- <- ->].
    destruct (IH _ _ _ Hrest) as (-> & Hnodup & Hall).
    pose proof (build_variable_extends grid grid_mapping var (annotate grid var v) h) as Hext1.
    rewrite Hvar in Hext1. simpl in Hext1.
    pose proof (process_variables_extends grid grid_mapping todo h1) as Hext2.
    rewrite Hrest in Hext2. simpl in Hext2.
    split; [done|]. split.
    + constructor; [|done]. simpl.
      intros Hin. apply list_elem_of_fmap in Hin as ([var' v'] & Heq & Hin). simpl in Heq.
      destruct (Hall var' v' Hin) as (h0 & h1' & [Hsub _] & Hbuild & _).
      apply build_variable_Ok in Hbuild as (_ & Hfresh & _).
      apply build_variable_Ok in Hvar as (_ & _ & Hgroup & _).
      rewrite <- Heq in Hfresh.
      pose proof (lookup_weaken _ _ _ _ Hgroup Hsub). congruence.
    + intros var' v' Hin. apply elem_of_cons in Hin as [[= -> ->] | Hin].
      * exists h, h1. split; [apply extends_refl|]. by split.
      * destruct (Hall var' v' Hin) as (h0 & h1' & Hext0 & Hbuild & Hext').
        exists h0, h1'. split; [by eapply extends_trans|]. by split.
Qed.

(** ** Paths *)

Lemma normalize_cons c s :
  normalize_storage_path (String c s)
  = if decide (c = "/"%char) then normalize_storage_path s else String c s.
Proof.
  case_decide as Hc; [by subst|].
  destruct c as [[] [] [] [] [] [] [] []]; simpl; done.
Qed.

Lemma startswith_slash_cons c s :
  startswith (String c s) "/" = bool_decide (c = "/"%char).
Proof.
  unfold startswith.
  destruct c as [[] [] [] [] [] [] [] []]; try done.
  by destruct s.
Qed.

Lemma normalize_relative name :
  startswith name "/" = false → normalize_storage_path name = name.
Proof.
  destruct name as [|c s]; [done|].
  rewrite startswith_slash_cons, normalize_cons.
  intros Hc%bool_decide_eq_false. by rewrite decide_False.
Qed.

Lemma normalize_app s t :
  normalize_storage_path s ≠ "" →
  normalize_storage_path (s +:+ t) = normalize_storage_path s +:+ t.
Proof.
  induction s as [|c s IH]; [done|].
  change (String c s +:+ t) with (String c (s +:+ t)).
  rewrite !normalize_cons. case_decide; [done|]. done.
Qed.

(** The path that the setter writes into the linkage attributes leads to
    the member it names, provided the member's own name is relative. *)
Lemma member_path_key var name :
  normalize_storage_path var ≠ "" → startswith name "/" = false →
  normalize_storage_path (member_path var name) = member_key var name.
Proof.
  intros Hvar Hname. unfold member_path, member_key, item_path.
  rewrite Hname, decide_False by done. rewrite (normalize_relative name) by done.
  change ("/" +:+ var +:+ "/" +:+ name) with (String "/" (var +:+ "/" +:+ name)).
  rewrite normalize_cons, decide_True by done.
  by rewrite normalize_app.
Qed.

(** ** dataset.py: what a schema assignment builds *)

(** The root attributes once lines 78-80 have run. *)
Lemma schema_setter_run rt self h value :
  _mode self = "x" → _dataset self = Some h →
  let h1 := match global_attributes value with
            | Some ga => {| root_attrs := attrs_update ga (root_attrs h); nodes := nodes h |}
            | None => h
            end in
  schema_setter rt self value
  = match grid_mapping_of rt (grid value) with
    | Raise e =>
        {| out_self := with_store self h1;
           out_value := {| global_attributes := None; grid := grid value;
                           variables := variables value |};
           out_result := Raise e |}
    | Ok grid_mapping =>
        let '(vars, h2, r) :=
          process_variables (grid value) grid_mapping (variables value) h1 in
        {| out_self := with_store self h2;
           out_value := {| global_attributes := None; grid := None; variables := vars |};
           out_result := r |}
    end.
Proof.
  intros Hmode Hds. unfold schema_setter.
  rewrite decide_True by done. rewrite Hds. simpl.
  destruct (global_attributes value); by destruct (grid_mapping_of rt (grid value)).
Qed.

Lemma schema_setter_Ok rt self h value :
  _mode self = "x" → _dataset self = Some h →
  out_result (schema_setter rt self value) = Ok tt →
  ∃ grid_mapping h1 h',
    grid_mapping_of rt (grid value) = Ok grid_mapping ∧
    nodes h1 = nodes h ∧
    _dataset (out_self (schema_setter rt self value)) = Some h' ∧
    process_variables (grid value) grid_mapping (variables value) h1
      = (variables (out_value (schema_setter rt self value)), h', Ok tt).
Proof.
  intros Hmode Hds. rewrite (schema_setter_run rt self h value Hmode Hds). simpl.
  destruct (grid_mapping_of rt (grid value)) as [gm|e]; [|done].
  destruct (process_variables _ _ _ _) as [[vars h2] r] eqn:Hrun. simpl.
  intros ->. eexists gm, _, h2. split; [done|]. split; [|split; [done|exact Hrun]].
  by destruct (global_attributes value).
Qed.

(** X1.  An assignment in create mode only adds to the store: whether it
    returns or raises, every member that was there is still there,
    unchanged, and the root attributes are the old ones overlaid with
    ['global_attributes']. *)
Theorem schema_setter_only_adds rt self h value :
  _mode self = "x" → _dataset self = Some h →
  ∃ h', _dataset (out_self (schema_setter rt self value)) = Some h' ∧
        nodes h ⊆ nodes h' ∧
        root_attrs h' = match global_attributes value with
                        | Some ga => ga ∪ root_attrs h
                        | None => root_attrs h
                        end.
Proof.
  intros Hmode Hds. rewrite (schema_setter_run rt self h value Hmode Hds). simpl.
  destruct (grid_mapping_of rt (grid value)) as [gm|e]; simpl.
  - match goal with |- context [process_variables ?g ?m ?t ?h1] =>
      pose proof (process_variables_extends g m t h1) as [Hsub Hroot];
      destruct (process_variables g m t h1) as [[vars h2] r] end.
    simpl in *. exists h2. split; [done|].
    rewrite Hroot. by destruct (global_attributes value).
  - eexists. split; [done|]. by destruct (global_attributes value).
Qed.

Lemma schema_setter_only_adds_witness :
  ∃ h', _dataset (out_self (schema_setter sample_runtime swe_indexed depth_schema)) = Some h' ∧
        nodes swe_store ⊆ nodes h' ∧ root_attrs h' = root_attrs swe_store.
Proof.
  apply (schema_setter_only_adds sample_runtime swe_indexed swe_store depth_schema);
    vm_compute; reflexivity.
Defined.

(** The facts about one variable of a completed assignment. *)
Lemma schema_setter_variable rt self h value var v :
  _mode self = "x" → _dataset self = Some h →
  out_result (schema_setter rt self value) = Ok tt →
  (var, v) ∈ variables value →
  ∃ grid_mapping h',
    grid_mapping_of rt (grid value) = Ok grid_mapping ∧
    _dataset (out_self (schema_setter rt self value)) = Some h' ∧
    let v' := annotate (grid value) var v in
    normalize_storage_path var ≠ "" ∧
    nodes h !! normalize_storage_path var = None ∧
    nodes h' !! normalize_storage_path var = Some (GroupNode ∅) ∧
    nodes h' !! member_key var "crs_grid" = Some (crs_grid_node grid_mapping) ∧
    nodes h' !! member_key var (var_name v) = Some (data_node v') ∧
    (∀ j dim, var_dimensions v !! j = Some dim →
       ∃ extent, var_shape v !! j = Some extent ∧
         nodes h' !! member_key var (dim_name dim)
           = Some (coordinate_node (grid value) var dim extent)) ∧
    NoDup (normalize_storage_path var :: member_key var (var_name v)
           :: member_key var "crs_grid"
           :: ((fun dim => member_key var (dim_name dim)) <$> var_dimensions v)) ∧
    (length (var_dimensions v) ≤ length (var_shape v))%nat.
Proof.
  intros Hmode Hds Hok Hin.
  destruct (schema_setter_Ok rt self h value Hmode Hds Hok)
    as (gm & h1 & h' & Hgm & Hnodes & Hds' & Hrun).
  destruct (process_variables_Ok _ _ _ _ _ _ Hrun) as (_ & _ & Hall).
  destruct (Hall var v Hin) as (h0 & h2 & [Hsub0 _] & Hbuild & [Hsub2 _]).
  pose proof (build_variable_lengths _ _ _ _ _ _ Hbuild) as Hlen.
  apply build_variable_Ok in Hbuild
    as (Hname & Hfresh & Hgroup & Hcrs & Hdata & Hcoords & Hnodup).
  exists gm, h'. split; [done|]. split; [done|]. simpl.
  split; [done|]. split.
  { rewrite <- Hnodes. by eapply lookup_weaken_None. }
  split; [by eapply lookup_weaken|]. split; [by eapply lookup_weaken|].
  split; [by eapply lookup_weaken|]. split; [|by split].
  intros j dim Hj. destruct (Hcoords j dim Hj) as (extent & Hshape & Hnode).
  exists extent. split; [done|]. by eapply lookup_weaken.
Qed.

Lemma annotate_linkage grid var v :
  var_attributes (annotate grid var v) !! "_ARRAY_DIMENSIONS" = Some (AList (linked_paths var v)).
Proof.
  unfold annotate. simpl. destruct grid.
  - rewrite lookup_insert_ne by done. apply lookup_insert_eq.
  - apply lookup_insert_eq.
Qed.

Lemma annotate_grid_mapping grid var v :
  var_attributes (annotate grid var v) !! "grid_mapping"
  = match grid with
    | Some _ => Some (AStr (member_path var "crs_grid"))
    | None => var_attributes v !! "grid_mapping"
    end.
Proof.
  unfold annotate. simpl. destruct grid.
  - apply lookup_insert_eq.
  - by rewrite lookup_insert_ne.
Qed.

Lemma annotate_other grid var v key :
  key ≠ "_ARRAY_DIMENSIONS" → key ≠ "grid_mapping" →
  var_attributes (annotate grid var v) !! key = var_attributes v !! key.
Proof.
  intros H1 H2. unfold annotate. simpl.
  destruct grid; by rewrite !lookup_insert_ne.
Qed.

(** X2.  Linkage round trip.  After an assignment that returned, the data
    array of every variable is stored under [<var>/<name>] with the declared
    shape and dtype, unwritten, chunked as declared (as one chunk when no
    chunks were given), and its ['_ARRAY_DIMENSIONS'] attribute lists the
    paths [/<var>/<dimension>] of the variable's dimensions in their
    declared order.  ['grid_mapping'] is [/<var>/crs_grid] when a grid was
    given, and every other attribute is the one the caller declared. *)
Theorem schema_setter_data_array rt self h value var v :
  _mode self = "x" → _dataset self = Some h →
  out_result (schema_setter rt self value) = Ok tt →
  (var, v) ∈ variables value →
  ∃ h' z,
    _dataset (out_self (schema_setter rt self value)) = Some h' ∧
    nodes h' !! member_key var (var_name v) = Some (ArrayNode z) ∧
    z_data z = np_empty (var_shape v) (var_dtype v) ∧
    z_chunks z = ChunkShape (default (var_shape v) (var_chunks v)) ∧
    z_attrs z !! "_ARRAY_DIMENSIONS"
      = Some (AList ((fun dim => member_path var (dim_name dim)) <$> var_dimensions v)) ∧
    z_attrs z !! "grid_mapping"
      = match grid value with
        | Some _ => Some (AStr (member_path var "crs_grid"))
        | None => var_attributes v !! "grid_mapping"
        end ∧
    ∀ key, key ≠ "_ARRAY_DIMENSIONS" → key ≠ "grid_mapping" →
           z_attrs z !! key = var_attributes v !! key.
Proof.
  intros Hmode Hds Hok Hin.
  destruct (schema_setter_variable rt self h value var v Hmode Hds Hok Hin)
    as (gm & h' & _ & Hds' & _ & _ & _ & _ & Hdata & _).
  eexists h', _. split; [done|]. split; [exact Hdata|]. simpl.
  split; [done|]. split; [done|].
  split; [apply annotate_linkage|]. split; [apply annotate_grid_mapping|].
  apply annotate_other.
Qed.

Lemma schema_setter_data_array_witness :
  ∃ h' z,
    _dataset (out_self (schema_setter sample_runtime created swe_schema)) = Some h' ∧
    nodes h' !! member_key "SWE" "SWE" = Some (ArrayNode z) ∧
    z_data z = np_empty [2; 2; 5]%nat "float64" ∧
    z_chunks z = ChunkShape [1; 2; 5]%nat ∧
    z_attrs z !! "_ARRAY_DIMENSIONS" = Some (AList ["/SWE/time"; "/SWE/y"; "/SWE/x"]) ∧
    z_attrs z !! "grid_mapping" = Some (AStr "/SWE/crs_grid") ∧
    ∀ key, key ≠ "_ARRAY_DIMENSIONS" → key ≠ "grid_mapping" →
           z_attrs z !! key = var_attributes swe_entry !! key.
Proof.
  apply (schema_setter_data_array sample_runtime created empty_hierarchy swe_schema
           "SWE" swe_entry); [reflexivity | reflexivity | vm_compute; reflexivity | left].
Defined.

(** X3.  After an assignment that returned, every dimension of every
    variable has its coordinate array under [<var>/<dimension>]: its data
    are those computed from the shape entry at the dimension's position,
    and its attributes are exactly ['_ARRAY_DIMENSION'] (its own path),
    ['standard_name'] and ['units'].  The shape has an entry for every
    dimension. *)
Theorem schema_setter_coordinate_arrays rt self h value var v j dim :
  _mode self = "x" → _dataset self = Some h →
  out_result (schema_setter rt self value) = Ok tt →
  (var, v) ∈ variables value →
  var_dimensions v !! j = Some dim →
  ∃ h' extent,
    _dataset (out_self (schema_setter rt self value)) = Some h' ∧
    var_shape v !! j = Some extent ∧
    nodes h' !! member_key var (dim_name dim)
      = Some (ArrayNode
                {| z_data := coordinate_data (grid value) dim extent;
                   z_chunks := ChunksAuto;
                   z_attrs := {[ "_ARRAY_DIMENSION" := AList [member_path var (dim_name dim)];
                                 "standard_name" := AStr (dim_standard_name dim);
                                 "units" := AStr (dim_units dim) ]} |}).
Proof.
  intros Hmode Hds Hok Hin Hj.
  destruct (schema_setter_variable rt self h value var v Hmode Hds Hok Hin)
    as (gm & h' & _ & Hds' & _ & _ & _ & _ & _ & Hcoords & _).
  destruct (Hcoords j dim Hj) as (extent & Hshape & Hnode).
  by exists h', extent.
Qed.

Lemma schema_setter_coordinate_arrays_witness :
  ∃ h' extent,
    _dataset (out_self (schema_setter sample_runtime created swe_schema)) = Some h' ∧
    var_shape swe_entry !! 0%nat = Some extent ∧
    nodes h' !! member_key "SWE" "time"
      = Some (ArrayNode
                {| z_data := np_empty [extent] "<M8[ns]";
                   z_chunks := ChunksAuto;
                   z_attrs := {[ "_ARRAY_DIMENSION" := AList ["/SWE/time"];
                                 "standard_name" := AStr "time";
                                 "units" := AStr "ns" ]} |}).
Proof.
  apply (schema_setter_coordinate_arrays sample_runtime created empty_hierarchy swe_schema
           "SWE" swe_entry 0
           {| dim_name := "time"; dim_standard_name := "time"; dim_units := "ns";
              dim_dtype := "<M8[ns]"; dim_kind := DIMENSION_VALUE |});
    [reflexivity | reflexivity | vm_compute; reflexivity | left | reflexivity].
Defined.

(** The grid mapping of a grid always carries the origin, and only adds
    to what [encode] returned. *)
Lemma grid_mapping_of_grid rt g gm :
  grid_mapping_of rt (Some g) = Ok gm →
  gm !! "projection_x_coordinate" = Some (AInt (upperLeft g).1) ∧
  gm !! "projection_y_coordinate" = Some (AInt (upperLeft g).2) ∧
  ∃ encoded, encode rt (grid_crs g) = Ok encoded ∧
    ∀ key, key ≠ "projection_x_coordinate" → key ≠ "projection_y_coordinate" →
           gm !! key = encoded !! key.
Proof.
  unfold grid_mapping_of.
  destruct (encode rt (grid_crs g)) as [encoded|e]; simpl; [|done].
  intros [= <-].
  split; [by rewrite lookup_insert_ne, lookup_insert_eq|].
  split; [by rewrite lookup_insert_eq|].
  exists encoded. split; [done|]. intros key H1 H2. by rewrite !lookup_insert_ne.
Qed.

(** X4.  After an assignment that returned, every variable has under
    [<var>/crs_grid] a zero-length, unchunked array of dtype [S1] whose
    attributes are the grid mapping: nothing at all when the schema had no
    grid, and otherwise what [encode] gave for the grid's CRS together with
    the grid origin under [projection_x_coordinate] and
    [projection_y_coordinate]. *)
Theorem schema_setter_crs_grid rt self h value var v :
  _mode self = "x" → _dataset self = Some h →
  out_result (schema_setter rt self value) = Ok tt →
  (var, v) ∈ variables value →
  ∃ h' gm,
    _dataset (out_self (schema_setter rt self value)) = Some h' ∧
    nodes h' !! member_key var "crs_grid"
      = Some (ArrayNode {| z_data := np_empty [0%nat] "S1"; z_chunks := ChunksOff;
                           z_attrs := gm |}) ∧
    match grid value with
    | None => gm = ∅
    | Some g =>
        gm !! "projection_x_coordinate" = Some (AInt (upperLeft g).1) ∧
        gm !! "projection_y_coordinate" = Some (AInt (upperLeft g).2) ∧
        ∃ encoded, encode rt (grid_crs g) = Ok encoded ∧
          ∀ key, key ≠ "projection_x_coordinate" → key ≠ "projection_y_coordinate" →
                 gm !! key = encoded !! key
    end.
Proof.
  intros Hmode Hds Hok Hin.
  destruct (schema_setter_variable rt self h value var v Hmode Hds Hok Hin)
    as (gm & h' & Hgm & Hds' & _ & _ & _ & Hcrs & _).
  exists h', gm. split; [done|]. split; [exact Hcrs|].
  destruct (grid value) as [g|].
  - by apply grid_mapping_of_grid.
  - by injection Hgm as <-.
Qed.

Lemma schema_setter_crs_grid_witness :
  ∃ h' gm,
    _dataset (out_self (schema_setter sample_runtime created swe_schema)) = Some h' ∧
    nodes h' !! member_key "SWE" "crs_grid"
      = Some (ArrayNode {| z_data := np_empty [0%nat] "S1"; z_chunks := ChunksOff;
                           z_attrs := gm |}) ∧
    gm !! "projection_x_coordinate" = Some (AInt 100) ∧
    gm !! "projection_y_coordinate" = Some (AInt 200) ∧
    ∃ encoded, encode sample_runtime (Some wkt_utm18_wgs84) = Ok encoded ∧
      ∀ key, key ≠ "projection_x_coordinate" → key ≠ "projection_y_coordinate" →
             gm !! key = encoded !! key.
Proof.
  apply (schema_setter_crs_grid sample_runtime created empty_hierarchy swe_schema
           "SWE" swe_entry); [reflexivity | reflexivity | vm_compute; reflexivity | left].
Defined.

(** X5.  The linkage can be followed.  After an assignment that returned,
    the path at position [j] of a data array's ['_ARRAY_DIMENSIONS'] opens,
    through [root[path]], the coordinate array that was created for the
    variable's dimension [j]; and [/<var>/crs_grid], the value of
    ['grid_mapping'], opens the variable's grid-mapping array.  This holds
    for a dimension whose name does not start with a slash. *)
Theorem schema_setter_linkage_resolves rt self h value var v j dim :
  _mode self = "x" → _dataset self = Some h →
  out_result (schema_setter rt self value) = Ok tt →
  (var, v) ∈ variables value →
  var_dimensions v !! j = Some dim →
  startswith (dim_name dim) "/" = false →
  ∃ h' path coords crs,
    _dataset (out_self (schema_setter rt self value)) = Some h' ∧
    ((fun dim => member_path var (dim_name dim)) <$> var_dimensions v) !! j = Some path ∧
    getitem path h' = Ok (ArrayNode coords) ∧
    (∃ extent, var_shape v !! j = Some extent ∧
               z_data coords = coordinate_data (grid value) dim extent) ∧
    z_attrs coords !! "_ARRAY_DIMENSION" = Some (AList [path]) ∧
    getitem (member_path var "crs_grid") h' = Ok (ArrayNode crs) ∧
    z_data crs = np_empty [0%nat] "S1".
Proof.
  intros Hmode Hds Hok Hin Hj Hrel.
  destruct (schema_setter_variable rt self h value var v Hmode Hds Hok Hin)
    as (gm & h' & _ & Hds' & Hname & _ & _ & Hcrs & _ & Hcoords & _).
  destruct (Hcoords j dim Hj) as (extent & Hshape & Hnode).
  eexists h', (member_path var (dim_name dim)), _, _.
  split; [done|]. split; [by rewrite list_lookup_fmap, Hj|].
  split; [unfold getitem; rewrite member_path_key by done; by rewrite Hnode|].
  split; [by exists extent|]. split; [done|].
  split; [unfold getitem; rewrite member_path_key by done; by rewrite Hcrs|]. done.
Qed.

Lemma schema_setter_linkage_resolves_witness :
  ∃ h' path coords crs,
    _dataset (out_self (schema_setter sample_runtime created swe_schema)) = Some h' ∧
    ["/SWE/time"; "/SWE/y"; "/SWE/x"] !! 2%nat = Some path ∧
    getitem path h' = Ok (ArrayNode coords) ∧
    (∃ extent, var_shape swe_entry !! 2%nat = Some extent ∧
               z_data coords
               = list_of_one (np_array (axis_values 100 10 extent) "float64")) ∧
    z_attrs coords !! "_ARRAY_DIMENSION" = Some (AList [path]) ∧
    getitem "/SWE/crs_grid" h' = Ok (ArrayNode crs) ∧
    z_data crs = np_empty [0%nat] "S1".
Proof.
  apply (schema_setter_linkage_resolves sample_runtime created empty_hierarchy swe_schema
           "SWE" swe_entry 2
           {| dim_name := "x"; dim_standard_name := "projection_x_coordinate";
              dim_units := "m"; dim_dtype := "float64"; dim_kind := COORDINATE_X |});
    [reflexivity | reflexivity | vm_compute; reflexivity | left | reflexivity | reflexivity].
Defined.

(** X6.  What an assignment that returns has checked.  The store had no
    member under any variable's name, no two variables share a (normalised)
    name, and within a variable the dimension names are distinct, none of
    them is [crs_grid], the data array's name is neither [crs_grid] nor a
    dimension name, and the shape has at least as many entries as there are
    dimensions. *)
Theorem schema_setter_accepts rt self h value :
  _mode self = "x" → _dataset self = Some h →
  out_result (schema_setter rt self value) = Ok tt →
  NoDup ((fun item => normalize_storage_path item.1) <$> variables value) ∧
  ∀ var v, (var, v) ∈ variables value →
    normalize_storage_path var ≠ "" ∧
    nodes h !! normalize_storage_path var = None ∧
    NoDup (dim_name <$> var_dimensions v) ∧
    ("crs_grid" ∉ dim_name <$> var_dimensions v) ∧
    (var_name v ∉ "crs_grid" :: (dim_name <$> var_dimensions v)) ∧
    (length (var_dimensions v) ≤ length (var_shape v))%nat.
Proof.
  intros Hmode Hds Hok. split.
  - destruct (schema_setter_Ok rt self h value Hmode Hds Hok)
      as (gm & h1 & h' & _ & _ & _ & Hrun).
    by apply process_variables_Ok in Hrun as (_ & Hnodup & _).
  - intros var v Hin.
    destruct (schema_setter_variable rt self h value var v Hmode Hds Hok Hin)
      as (gm & h' & _ & _ & Hname & Hfresh & _ & _ & _ & _ & Hnodup & Hlen).
    split; [done|]. split; [done|].
    apply NoDup_cons in Hnodup as [_ Hnodup].
    apply NoDup_cons in Hnodup as [Hdata Hnodup].
    apply NoDup_cons in Hnodup as [Hcrs Hnodup].
    split; [|split; [|split; [|done]]].
    + rewrite (list_fmap_compose dim_name (member_key var)) in Hnodup.
      by apply NoDup_fmap_1 in Hnodup.
    + intros Hc. apply Hcrs.
      apply list_elem_of_fmap in Hc as (dim & Heq & Hdim).
      apply list_elem_of_fmap. exists dim. by rewrite <- Heq.
    + intros Hc. apply Hdata.
      apply elem_of_cons in Hc as [-> | Hc]; [by left|]. right.
      apply list_elem_of_fmap in Hc as (dim & Heq & Hdim).
      apply list_elem_of_fmap. exists dim. by rewrite <- Heq.
Qed.

Lemma schema_setter_accepts_witness :
  NoDup ((fun item => normalize_storage_path item.1) <$> variables swe_schema) ∧
  ∀ var v, (var, v) ∈ variables swe_schema →
    normalize_storage_path var ≠ "" ∧
    nodes empty_hierarchy !! normalize_storage_path var = None ∧
    NoDup (dim_name <$> var_dimensions v) ∧
    ("crs_grid" ∉ dim_name <$> var_dimensions v) ∧
    (var_name v ∉ "crs_grid" :: (dim_name <$> var_dimensions v)) ∧
    (length (var_dimensions v) ≤ length (var_shape v))%nat.
Proof.
  apply (schema_setter_accepts sample_runtime created empty_hierarchy swe_schema);
    [reflexivity | reflexivity | vm_compute; reflexivity].
Defined.

(** The variable entries that an assignment that returned leaves in the
    caller's mapping. *)
Lemma schema_setter_annotated rt self h value :
  _mode self = "x" → _dataset self = Some h →
  out_result (schema_setter rt self value) = Ok tt →
  variables (out_value (schema_setter rt self value))
  = (fun item => (item.1, annotate (grid value) item.1 item.2)) <$> variables value.
Proof.
  intros Hmode Hds Hok.
  destruct (schema_setter_Ok rt self h value Hmode Hds Hok)
    as (gm & h1 & h' & _ & _ & _ & Hrun).
  by apply process_variables_Ok in Hrun as (-> & _).
Qed.

(** X7.  What the caller's mapping holds after an assignment that
    returned: the same variables in the same order, each with its own
    attribute dictionary updated in place - ['_ARRAY_DIMENSIONS'] set to the
    dimension paths (replacing a value the caller may have put there),
    ['grid_mapping'] set when a grid was given - and nothing else changed.
    When the assignment raises, the names and their order are still those
    passed in. *)
Theorem schema_setter_mutates_variables rt self h value :
  _mode self = "x" → _dataset self = Some h →
  fst <$> variables (out_value (schema_setter rt self value)) = fst <$> variables value ∧
  (out_result (schema_setter rt self value) = Ok tt →
   variables (out_value (schema_setter rt self value))
   = (fun item =>
        (item.1,
         {| var_name := var_name item.2;
            var_attributes :=
              (if grid value is Some _
               then <["grid_mapping" := AStr (member_path item.1 "crs_grid")]>
               else id)
                (<["_ARRAY_DIMENSIONS" :=
                     AList ((fun dim => member_path item.1 (dim_name dim))
                              <$> var_dimensions item.2)]> (var_attributes item.2));
            var_shape := var_shape item.2;
            var_chunks := var_chunks item.2;
            var_dtype := var_dtype item.2;
            var_dimensions := var_dimensions item.2 |})) <$> variables value).
Proof.
  intros Hmode Hds. split.
  - rewrite (schema_setter_run rt self h value Hmode Hds). simpl.
    destruct (grid_mapping_of rt (grid value)) as [gm|e]; [|done].
    match goal with |- context [process_variables ?g ?m ?t ?h1] =>
      pose proof (process_variables_names g m t h1) as Hnames;
      destruct (process_variables g m t h1) as [[vars h2] r] end.
    done.
  - intros Hok. rewrite (schema_setter_annotated rt self h value Hmode Hds Hok).
    apply list_fmap_ext. intros i [var v] _. simpl. f_equal.
    unfold annotate. by destruct (grid value).
Qed.

Lemma schema_setter_mutates_variables_witness :
  fst <$> variables (out_value (schema_setter sample_runtime created swe_schema)) = ["SWE"] ∧
  ∃ v, variables (out_value (schema_setter sample_runtime created swe_schema)) = [("SWE", v)] ∧
       var_attributes v
       = <["grid_mapping" := AStr "/SWE/crs_grid"]>
           (<["_ARRAY_DIMENSIONS" := AList ["/SWE/time"; "/SWE/y"; "/SWE/x"]]>
              (var_attributes swe_entry)).
Proof.
  destruct (schema_setter_mutates_variables sample_runtime created empty_hierarchy swe_schema
              eq_refl eq_refl) as [Hnames Hvars].
  split; [exact Hnames|].
  eexists. split; [apply Hvars; vm_compute; reflexivity|]. reflexivity.
Defined.

(** X8.  An assignment cannot be repeated.  After an assignment that
    returned for a schema with at least one variable, assigning the mapping
    again (as the first call left it) raises ContainsGroupError at the
    first variable and leaves the store as it was. *)
Theorem schema_setter_again_raises rt self h value :
  _mode self = "x" → _dataset self = Some h →
  out_result (schema_setter rt self value) = Ok tt →
  variables value ≠ [] →
  let first := schema_setter rt self value in
  out_result (schema_setter rt (out_self first) (out_value first)) = Raise ContainsGroupError ∧
  out_self (schema_setter rt (out_self first) (out_value first)) = out_self first.
Proof.
  intros Hmode Hds Hok Hvars first.
  destruct (variables value) as [|[var v] rest] eqn:Hvalue; [done|].
  destruct (schema_setter_variable rt self h value var v Hmode Hds Hok)
    as (gm & h' & _ & Hds' & _ & _ & Hgroup & _); [rewrite Hvalue; by left|].
  pose proof (schema_setter_annotated rt self h value Hmode Hds Hok) as Hmut.
  rewrite Hvalue in Hmut. simpl in Hmut.
  assert (_mode (out_self first) = "x") as Hmode'.
  { unfold first. rewrite (schema_setter_run rt self h value Hmode Hds).
    destruct (grid_mapping_of rt (grid value)); [|done].
    by destruct (process_variables _ _ _ _) as [[? ?] ?]. }
  assert (global_attributes (out_value first) = None ∧ grid (out_value first) = None)
    as [Hga Hgrid].
  { unfold first. rewrite (schema_setter_run rt self h value Hmode Hds).
    unfold first in Hok. rewrite (schema_setter_run rt self h value Hmode Hds) in Hok.
    destruct (grid_mapping_of rt (grid value)); [|done].
    by destruct (process_variables _ _ _ _) as [[? ?] ?]. }
  fold first in Hds', Hmut.
  rewrite (schema_setter_run rt (out_self first) h' (out_value first) Hmode' Hds').
  rewrite Hga, Hgrid, Hmut. simpl.
  rewrite build_variable_run.
  unfold create_group, create_at.
  destruct (decide (normalize_storage_path var = "")); simpl.
  - split; [done|]. destruct (out_self first); simpl in *. by rewrite Hds'.
  - rewrite Hgroup. simpl.
    split; [done|]. destruct (out_self first); simpl in *. by rewrite Hds'.
Qed.

Lemma schema_setter_again_raises_witness :
  let first := schema_setter sample_runtime created swe_schema in
  out_result (schema_setter sample_runtime (out_self first) (out_value first))
    = Raise ContainsGroupError ∧
  out_self (schema_setter sample_runtime (out_self first) (out_value first)) = out_self first.
Proof.
  apply (schema_setter_again_raises sample_runtime created empty_hierarchy swe_schema);
    [reflexivity | reflexivity | vm_compute; reflexivity | discriminate].
Defined.

(** [insert] reads the selectors through [selector] only. *)
Lemma py_index_first (indexes : list (string * Z)) axis :
  py_index axis (fst <$> indexes)
  = or_raise (fst <$> list_find (fun item => item.1 = axis) indexes) ValueError.
Proof.
  unfold py_index. f_equal. rewrite list_find_fmap.
  change ((fun y => y = axis) ∘ fst) with (fun item : string * Z => item.1 = axis).
  by destruct (list_find (fun item : string * Z => item.1 = axis) indexes) as [[k item]|].
Qed.

Lemma resolve_axis_selector h (indexes : list (string * Z)) axis :
  resolve_axis h indexes axis
  = match selector indexes axis with
    | None => Ok Full
    | Some v =>
        node ← getitem axis h;
        match node with
        | ArrayNode z => index_offset ← coordinate_offset (z_data z) v; Ok (At index_offset)
        | GroupNode _ => Raise KeyError
        end
    end.
Proof.
  unfold resolve_axis, selector. rewrite py_index_first.
  destruct (list_find (fun item => item.1 = axis) indexes) as [[k [a v]]|] eqn:Hfind; simpl.
  - apply list_find_Some in Hfind as (Hk & Ha & _). simpl in Ha. subst a.
    rewrite decide_True.
    + by rewrite Hk.
    + apply list_elem_of_fmap. exists (axis, v). split; [done|].
      by apply list_elem_of_lookup_2 in Hk.
  - rewrite decide_False; [done|].
    intros Hin. apply list_elem_of_fmap in Hin as ([a v] & -> & Hin).
    apply list_find_None in Hfind. rewrite Forall_forall in Hfind.
    by apply (Hfind _ Hin).
Qed.

Lemma mapM_result_ext {A B} (f g : A → result B) l :
  (∀ x, x ∈ l → f x = g x) → mapM_result f l = mapM_result g l.
Proof.
  induction l as [|x l IH]; intros Heq; [done|]. simpl.
  rewrite (Heq x) by left. rewrite IH; [done|]. intros; apply Heq; by right.
Qed.

(** X9.  [insert] uses of its selectors only, for each linked dimension,
    the value of the first selector that names it: selectors naming
    something else, later selectors for the same dimension and the order of
    the selectors make no difference to what the call does. *)
Theorem insert_first_selector_counts self h dataset_name node dims data
    (indexes indexes' : list (string * Z)) :
  _dataset self = Some h →
  getitem dataset_name h = Ok node →
  node_attrs node !! "_ARRAY_DIMENSIONS" = Some (AList dims) →
  (∀ axis, axis ∈ dims → selector indexes axis = selector indexes' axis) →
  insert self dataset_name data (Some indexes) = insert self dataset_name data (Some indexes').
Proof.
  intros Hds Hget Hattr Hsame. unfold insert.
  rewrite Hds, Hget. simpl. rewrite Hattr. simpl.
  unfold index_expr.
  rewrite (mapM_result_ext (resolve_axis h indexes) (resolve_axis h indexes')); [done|].
  intros axis Hin. rewrite !resolve_axis_selector. by rewrite (Hsame axis Hin).
Qed.

Lemma insert_first_selector_counts_witness :
  insert swe_indexed "/SWE/SWE" swe_slice
    (Some [("/SWE/depth", 7); ("/SWE/time", 2000); ("/SWE/time", 1000)])
  = insert swe_indexed "/SWE/SWE" swe_slice (Some [("/SWE/time", 2000)]).
Proof.
  apply (insert_first_selector_counts swe_indexed swe_store "/SWE/SWE"
           (default (GroupNode ∅) (nodes swe_store !! "SWE/SWE"))
           ["/SWE/time"; "/SWE/y"; "/SWE/x"]);
    [vm_compute; reflexivity | vm_compute; reflexivity | vm_compute; reflexivity |].
  intros axis Hin.
  repeat (apply elem_of_cons in Hin as [-> | Hin]; [vm_compute; reflexivity|]).
  by apply elem_of_nil in Hin.
Defined.

Lemma exec_assignment_raise self h dataset_name subs data e :
  (exec_assignment self h dataset_name subs data).2 = Raise e →
  (exec_assignment self h dataset_name subs data).1 = h.
Proof.
  unfold exec_assignment.
  destruct subs as [|s [|s' subs]].
  - by destruct (read_only self).
  - destruct (getitem dataset_name h) as [[attrs|z]|e']; [done | | done].
    destruct (read_only self); [done|].
    by destruct (zarr_setitem s data (z_data z)).
  - by destruct (getitem dataset_name h) as [[attrs|z]|e'].
Qed.

(** X10.  A call of [set_index] or [insert] that raises has written
    nothing: the dataset is the one the call started from. *)
Theorem raising_call_writes_nothing self e :
  (∀ index_name values,
     (set_index self index_name values).2 = Raise e →
     (set_index self index_name values).1 = self) ∧
  (∀ dataset_name data indexes,
     (insert self dataset_name data indexes).2 = Raise e →
     (insert self dataset_name data indexes).1 = self).
Proof.
  split.
  - intros index_name values. unfold set_index.
    destruct (_dataset self) as [h|] eqn:Hds; [|done].
    pose proof (exec_assignment_raise self h index_name [Full] values e) as Hkeep.
    destruct (exec_assignment self h index_name [Full] values) as [h' r]. simpl in *.
    intros Hr. rewrite (Hkeep Hr). by apply with_store_same.
  - intros dataset_name data indexes. unfold insert.
    destruct indexes as [indexes|]; [|done].
    destruct (_dataset self) as [h|] eqn:Hds; [|done].
    match goal with |- context [match ?sel with Ok _ => _ | Raise _ => _ end] =>
      destruct sel as [subs|e'] end; [|done].
    pose proof (exec_assignment_raise self h dataset_name subs data e) as Hkeep.
    destruct (exec_assignment self h dataset_name subs data) as [h' r]. simpl in *.
    intros Hr. rewrite (Hkeep Hr). by apply with_store_same.
Qed.

(** X11.  A dataset opened with mode ['r'] is never changed: [set_index]
    always raises on it, and [insert] leaves it as it is whether it raises
    or returns. *)
Theorem read_mode_is_never_written self :
  _mode self = "r" →
  (∀ index_name values,
     (∃ e, (set_index self index_name values).2 = Raise e) ∧
     (set_index self index_name values).1 = self) ∧
  (∀ dataset_name data indexes, (insert self dataset_name data indexes).1 = self).
Proof.
  intros Hmode.
  assert (read_only self = true) as Hro by (unfold read_only; by rewrite bool_decide_true).
  assert (∀ h name subs data,
            (exec_assignment self h name subs data).1 = h ∧
            ((length subs ≤ 1)%nat → ∃ e, (exec_assignment self h name subs data).2 = Raise e))
    as Hexec.
  { intros h name subs data. unfold exec_assignment. rewrite Hro.
    destruct subs as [|s [|s' subs]]; simpl.
    - eauto.
    - destruct (getitem name h) as [[attrs|z]|e']; simpl; eauto.
    - split; [|lia]. by destruct (getitem name h) as [[attrs|z]|e']. }
  split.
  - intros index_name values. unfold set_index.
    destruct (_dataset self) as [h|] eqn:Hds; [|simpl; eauto].
    destruct (Hexec h index_name [Full] values) as [Hkeep [e He]]; [simpl; lia|].
    destruct (exec_assignment self h index_name [Full] values) as [h' r]. simpl in *.
    subst h'. split; [eauto | by apply with_store_same].
  - intros dataset_name data indexes. unfold insert.
    destruct indexes as [indexes|]; [|done].
    destruct (_dataset self) as [h|] eqn:Hds; [|done].
    match goal with |- context [match ?sel with Ok _ => _ | Raise _ => _ end] =>
      destruct sel as [subs|e'] end; [|done].
    destruct (Hexec h dataset_name subs data) as [Hkeep _].
    destruct (exec_assignment self h dataset_name subs data) as [h' r]. simpl in *.
    subst h'. by apply with_store_same.
Qed.

Lemma raising_call_writes_nothing_witness :
  (insert swe_indexed "/SWE/SWE" swe_slice (Some [("/SWE/time", 3000)])).1 = swe_indexed.
Proof.
  apply (proj2 (raising_call_writes_nothing swe_indexed ValueError)).
  vm_compute; reflexivity.
Defined.

Lemma read_mode_is_never_written_witness :
  (∃ e, (set_index swe_reopened "/SWE/time" time_values).2 = Raise e) ∧
  (insert swe_reopened "/SWE/SWE" swe_slice (Some [("/SWE/time", 2000)])).1 = swe_reopened.
Proof.
  destruct (read_mode_is_never_written swe_reopened eq_refl) as [Hset Hinsert].
  split; [apply Hset | apply Hinsert].
Defined.

(** ** dataset.py: what set_index and insert write *)

Lemma same_layout_refl h : same_layout h h.
Proof. by split. Qed.

Lemma same_layout_trans h1 h2 h3 :
  same_layout h1 h2 → same_layout h2 h3 → same_layout h1 h3.
Proof.
  intros [Hr1 Hn1] [Hr2 Hn2]. split; [congruence|].
  intros key. by rewrite Hn2, Hn1.
Qed.

Lemma set_node_same_layout key n n' h :
  nodes h !! key = Some n → layout n' = layout n → same_layout h (set_node key n' h).
Proof.
  intros Hkey Hlayout. split; [done|]. intros k. simpl.
  destruct (decide (k = key)) as [->|Hne].
  - rewrite lookup_insert_eq, Hkey. simpl. by f_equal.
  - by rewrite lookup_insert_ne.
Qed.

Lemma zarr_setitem_layout s value z d :
  zarr_setitem s value z = Ok d → nd_shape d = nd_shape z ∧ nd_dtype d = nd_dtype z.
Proof.
  unfold zarr_setitem.
  destruct (nd_shape z) as [|d0 rest] eqn:Hshape; [done|].
  destruct s as [i|].
  - case_decide; [|done].
    destruct (selection_cells rest value); simpl; [|done].
    intros [= <-]. by simpl.
  - destruct (selection_cells (d0 :: rest) value); simpl; [|done].
    intros [= <-]. by simpl.
Qed.

(** An assignment with at least one subscript changes no layout. *)
Lemma exec_assignment_same_layout self h dataset_name s subs data :
  same_layout h (exec_assignment self h dataset_name (s :: subs) data).1.
Proof.
  unfold exec_assignment, getitem.
  destruct (nodes h !! normalize_storage_path dataset_name) as [[attrs|z]|] eqn:Hnode; simpl;
    try apply same_layout_refl.
  destruct subs as [|s' subs]; [|apply same_layout_refl].
  destruct (read_only self); [apply same_layout_refl|].
  destruct (zarr_setitem s data (z_data z)) as [d|e] eqn:Hset; [|apply same_layout_refl].
  simpl. apply (set_node_same_layout _ (ArrayNode z)); [done|].
  apply zarr_setitem_layout in Hset as [Hshape Hdtype]. simpl. by rewrite Hshape, Hdtype.
Qed.

Lemma set_index_same_layout self h index_name values :
  _dataset self = Some h →
  ∃ h', _dataset (set_index self index_name values).1 = Some h' ∧ same_layout h h'.
Proof.
  intros Hds. unfold set_index. rewrite Hds.
  pose proof (exec_assignment_same_layout self h index_name Full [] values) as Hsame.
  destruct (exec_assignment self h index_name [Full] values) as [h' r]. simpl in *.
  eauto.
Qed.






(** ** dataset.py: insert into a one-dimensional array *)





(** ** dataset.py: schema assignment, set_index and insert together *)


Lemma set_index_mode self index_name values :
  _mode (set_index self index_name values).1 = _mode self.
Proof.
  unfold set_index. destruct (_dataset self) as [h|]; [|done].
  by destruct (exec_assignment self h index_name [Full] values) as [h' r].
Qed.

Lemma same_layout_array h h' key z :
  same_layout h h' → nodes h !! key = Some (ArrayNode z) →
  ∃ z', nodes h' !! key = Some (ArrayNode z') ∧ z_attrs z' = z_attrs z ∧
        nd_shape (z_data z') = nd_shape (z_data z) ∧
        nd_dtype (z_data z') = nd_dtype (z_data z) ∧ z_chunks z' = z_chunks z.
Proof.
  intros [_ Hsame] Hnode. specialize (Hsame key). rewrite Hnode in Hsame.
  destruct (nodes h' !! key) as [[attrs|z']|]; simpl in Hsame; try discriminate Hsame.
  injection Hsame as Hattrs Hshape Hdtype Hchunks. by exists z'.
Qed.

Lemma coordinate_data_shape grid dim extent :
  nd_shape (coordinate_data grid dim extent)
  = if decide (dim_kind dim = DIMENSION_VALUE) then [extent] else [1%nat; extent].
Proof.
  unfold coordinate_data.
  repeat case_decide; try done; destruct grid; simpl; by rewrite ?axis_values_length.
Qed.

(** The members of a variable after a completed assignment, as paths
    resolve to them. *)
Lemma built_variable rt self h value var v h' :
  _mode self = "x" → _dataset self = Some h →
  out_result (schema_setter rt self value) = Ok tt →
  (var, v) ∈ variables value →
  _dataset (out_self (schema_setter rt self value)) = Some h' →
  (startswith (var_name v) "/" = false →
   nodes h' !! normalize_storage_path (member_path var (var_name v))
   = Some (data_node (annotate (grid value) var v))) ∧
  (∀ j dim, var_dimensions v !! j = Some dim → startswith (dim_name dim) "/" = false →
     ∃ extent, var_shape v !! j = Some extent ∧
       nodes h' !! normalize_storage_path (member_path var (dim_name dim))
       = Some (coordinate_node (grid value) var dim extent)) ∧
  (∀ dim, dim ∈ var_dimensions v →
     startswith (var_name v) "/" = false → startswith (dim_name dim) "/" = false →
     normalize_storage_path (member_path var (dim_name dim))
     ≠ normalize_storage_path (member_path var (var_name v))).
Proof.
  intros Hmode Hds Hok Hin Hds'.
  destruct (schema_setter_variable rt self h value var v Hmode Hds Hok Hin)
    as (gm & h2 & _ & Hds2 & Hname & _ & _ & _ & Hdata & Hcoords & Hnodup & _).
  rewrite Hds' in Hds2. injection Hds2 as <-.
  split; [|split].
  - intros Hrel. by rewrite member_path_key.
  - intros j dim Hj Hrel. destruct (Hcoords j dim Hj) as (extent & Hshape & Hnode).
    exists extent. split; [done|]. by rewrite member_path_key.
  - intros dim Hdim Hrel Hrel'. rewrite !member_path_key by done.
    apply NoDup_cons in Hnodup as [_ Hnodup].
    apply NoDup_cons in Hnodup as [Hdata' _].
    intros Heq. apply Hdata'. right.
    apply list_elem_of_fmap. exists dim. by rewrite Heq.
Qed.

(** X15.  On a dataset built by a schema assignment, [insert] into the
    data array of a variable with two or more dimensions stores nothing,
    whatever the data and the selectors, whether it returns or raises;
    neither does it after a [set_index].  (The assignment it runs has one
    subscript per dimension, and all but the last read a copy.) *)
Theorem insert_after_assignment_stores_nothing rt self h value var v :
  _mode self = "x" → _dataset self = Some h →
  out_result (schema_setter rt self value) = Ok tt →
  (var, v) ∈ variables value →
  startswith (var_name v) "/" = false →
  (2 ≤ length (var_dimensions v))%nat →
  let built := out_self (schema_setter rt self value) in
  ∀ index_name values data indexes,
    (insert built (member_path var (var_name v)) data indexes).1 = built ∧
    let indexed := (set_index built index_name values).1 in
    (insert indexed (member_path var (var_name v)) data indexes).1 = indexed.
Proof.
  intros Hmode Hds Hok Hin Hrel Hdims built index_name values data indexes.
  destruct (schema_setter_variable rt self h value var v Hmode Hds Hok Hin)
    as (gm & h' & _ & Hds' & _).
  destruct (built_variable rt self h value var v h' Hmode Hds Hok Hin Hds')
    as (Hdata & _).
  specialize (Hdata Hrel).
  assert (∃ d1 d2 dims, var_attributes (annotate (grid value) var v) !! "_ARRAY_DIMENSIONS"
                        = Some (AList (d1 :: d2 :: dims))) as (d1 & d2 & dims & Hattr).
  { rewrite annotate_linkage. unfold linked_paths.
    destruct (var_dimensions v) as [|dim1 [|dim2 rest]]; simpl in Hdims; [lia | lia |].
    by eexists _, _, _. }
  split.
  - eapply (insert_keeps_dataset built h');
      [done | unfold getitem; rewrite Hdata; reflexivity | exact Hattr].
  - intros indexed.
    destruct (set_index_same_layout built h' index_name values Hds') as (h'' & Hds'' & Hsame).
    destruct (same_layout_array h' h'' _ _ Hsame Hdata) as (z' & Hnode & Hattrs & _).
    apply (insert_keeps_dataset indexed h'' _ z' d1 d2 dims); [done | |].
    + unfold getitem. by rewrite Hnode.
    + rewrite Hattrs. exact Hattr.
Qed.

Lemma insert_after_assignment_stores_nothing_witness :
  (insert swe_built "/SWE/SWE" swe_slice (Some [("/SWE/time", 2000)])).1 = swe_built ∧
  (insert swe_indexed "/SWE/SWE" swe_slice (Some [("/SWE/time", 2000)])).1 = swe_indexed.
Proof.
  apply (insert_after_assignment_stores_nothing sample_runtime created empty_hierarchy
           swe_schema "SWE" swe_entry eq_refl eq_refl);
    [vm_compute; reflexivity | left | reflexivity | simpl; lia].
Defined.

Lemma resolve_axis_array h (indexes : list (string * Z)) axis z d0 rest :
  getitem axis h = Ok (ArrayNode z) → nd_shape (z_data z) = d0 :: rest →
  ((∃ sub, resolve_axis h indexes axis = Ok sub) ∨
   resolve_axis h indexes axis = Raise ValueError) ∧
  (is_Some (selector indexes axis) → shape_size rest ≠ 1%nat →
   resolve_axis h indexes axis = Raise ValueError).
Proof.
  intros Hget Hshape. rewrite resolve_axis_selector.
  destruct (selector indexes axis) as [x|]; [|split; [eauto | by intros [? ?]]].
  rewrite Hget. simpl. unfold coordinate_offset. rewrite Hshape.
  case_decide as Hsize.
  - split; [|done]. destruct (list_find _ _) as [[i c]|]; simpl; eauto.
  - split; [by right | done].
Qed.

(** When every linked axis is an array of at least one axis, a selector
    on an axis that is not stored as a line makes [insert] raise
    ValueError. *)
Lemma insert_selector_not_a_line self h dataset_name z dims data
    (indexes : list (string * Z)) axis :
  _dataset self = Some h →
  getitem dataset_name h = Ok (ArrayNode z) →
  z_attrs z !! "_ARRAY_DIMENSIONS" = Some (AList dims) →
  (∀ a, a ∈ dims → ∃ za d0 rest, getitem a h = Ok (ArrayNode za) ∧
                                 nd_shape (z_data za) = d0 :: rest) →
  axis ∈ dims → is_Some (selector indexes axis) →
  (∃ za d0 rest, getitem axis h = Ok (ArrayNode za) ∧ nd_shape (z_data za) = d0 :: rest ∧
                 shape_size rest ≠ 1%nat) →
  insert self dataset_name data (Some indexes) = (self, Raise ValueError).
Proof.
  intros Hds Hget Hattr Hall Hin Hsel (za & d0 & rest & Hgeta & Hshape & Hsize).
  unfold insert. rewrite Hds, Hget. simpl. rewrite Hattr. simpl.
  unfold index_expr.
  rewrite (mapM_result_raise (resolve_axis h indexes) dims ValueError axis); [done | | done |].
  - intros a Ha. destruct (Hall a Ha) as (za' & d0' & rest' & Hget' & Hshape').
    by destruct (resolve_axis_array h indexes a za' d0' rest' Hget' Hshape').
  - by apply (resolve_axis_array h indexes axis za d0 rest Hgeta Hshape).
Qed.

(** X16.  A selector on a grid axis cannot be used.  On a dataset built by
    a schema assignment, whose names are relative, the coordinate array of
    a dimension of kind [COORDINATE_X], [COORDINATE_Y] or [COORDINATE_Z] has
    an extra leading axis; unless the dimension has extent 1, every
    [insert] into the variable whose selectors name that dimension raises
    ValueError and stores nothing, also after a [set_index]. *)
Theorem selector_on_grid_axis_raises rt self h value var v j dim extent :
  _mode self = "x" → _dataset self = Some h →
  out_result (schema_setter rt self value) = Ok tt →
  (var, v) ∈ variables value →
  startswith (var_name v) "/" = false →
  (∀ d, d ∈ var_dimensions v → startswith (dim_name d) "/" = false) →
  var_dimensions v !! j = Some dim → dim_kind dim ≠ DIMENSION_VALUE →
  var_shape v !! j = Some extent → extent ≠ 1%nat →
  let built := out_self (schema_setter rt self value) in
  ∀ index_name values data (indexes : list (string * Z)),
    is_Some (selector indexes (member_path var (dim_name dim))) →
    insert built (member_path var (var_name v)) data (Some indexes)
      = (built, Raise ValueError) ∧
    let indexed := (set_index built index_name values).1 in
    insert indexed (member_path var (var_name v)) data (Some indexes)
      = (indexed, Raise ValueError).
Proof.
  intros Hmode Hds Hok Hin Hrel Hrels Hj Hkind Hextent Hne built
    index_name values data indexes Hsel.
  destruct (schema_setter_variable rt self h value var v Hmode Hds Hok Hin)
    as (gm & h' & _ & Hds' & _).
  destruct (built_variable rt self h value var v h' Hmode Hds Hok Hin Hds')
    as (Hdata & Hcoords & _).
  specialize (Hdata Hrel).
  assert (∀ hh, same_layout h' hh → ∀ ds, _dataset ds = Some hh →
            insert ds (member_path var (var_name v)) data (Some indexes)
            = (ds, Raise ValueError)) as Hany.
  { intros hh Hsame ds Hdsh.
    destruct (same_layout_array h' hh _ _ Hsame Hdata) as (z' & Hnode & Hattrs & _).
    apply (insert_selector_not_a_line ds hh _ z' (linked_paths var v) data indexes
             (member_path var (dim_name dim))); [done | | | | | done |].
    - unfold getitem. by rewrite Hnode.
    - rewrite Hattrs. apply annotate_linkage.
    - intros a Ha. apply list_elem_of_fmap in Ha as (d & -> & Hd).
      apply list_elem_of_lookup in Hd as [k Hk].
      destruct (Hcoords k d Hk) as (ext & _ & Hcoord).
      { apply Hrels. by apply list_elem_of_lookup_2 in Hk. }
      destruct (same_layout_array h' hh _ _ Hsame Hcoord) as (za & Hza & _ & Hshape & _).
      simpl in Hshape. rewrite coordinate_data_shape in Hshape.
      exists za. unfold getitem. rewrite Hza. simpl.
      case_decide; eauto.
    - apply list_elem_of_fmap. exists dim. split; [done|].
      by apply list_elem_of_lookup_2 in Hj.
    - destruct (Hcoords j dim Hj) as (ext & Hext & Hcoord).
      { apply Hrels. by apply list_elem_of_lookup_2 in Hj. }
      rewrite Hextent in Hext. injection Hext as <-.
      destruct (same_layout_array h' hh _ _ Hsame Hcoord) as (za & Hza & _ & Hshape & _).
      simpl in Hshape. rewrite coordinate_data_shape in Hshape.
      rewrite decide_False in Hshape by done.
      exists za, 1%nat, [extent]. unfold getitem. rewrite Hza. simpl.
      split; [done|]. split; [done|]. lia. }
  split.
  - by apply (Hany h' (same_layout_refl h')).
  - intros indexed.
    destruct (set_index_same_layout built h' index_name values Hds') as (h'' & Hds'' & Hsame).
    by apply (Hany h'' Hsame).
Qed.

Lemma selector_on_grid_axis_raises_witness :
  insert swe_built "/SWE/SWE" swe_slice (Some [("/SWE/y", 210)]) = (swe_built, Raise ValueError) ∧
  insert swe_indexed "/SWE/SWE" swe_slice (Some [("/SWE/y", 210)])
    = (swe_indexed, Raise ValueError).
Proof.
  apply (selector_on_grid_axis_raises sample_runtime created empty_hierarchy swe_schema
           "SWE" swe_entry 1
           {| dim_name := "y"; dim_standard_name := "projection_y_coordinate"; dim_units := "m";
              dim_dtype := "float64"; dim_kind := COORDINATE_Y |} 2 eq_refl eq_refl).
  - vm_compute; reflexivity.
  - left.
  - reflexivity.
  - intros d Hd.
    repeat (apply elem_of_cons in Hd as [-> | Hd]; [reflexivity|]).
    by apply elem_of_nil in Hd.
  - reflexivity.
  - discriminate.
  - reflexivity.
  - lia.
  - by eexists.
Defined.



(** ** factory.py and the constructor *)

(** X18.  A mode other than ['r'] and ['x'] is accepted and gives a
    dataset that cannot be used.  The constructor matches no case: zarr is
    not called (so the call succeeds whatever [zarr.open] would do) and
    [_dataset] is never set.  On that dataset an assignment to [schema]
    returns without doing anything, while [set_index] and [insert] raise
    AttributeError. *)
Theorem other_mode_dataset_is_unusable zarr_open dataset_path mode :
  mode ≠ "r" → mode ≠ "x" →
  ∃ ds,
    GeoZarr_open zarr_open dataset_path mode = Ok ds ∧
    (∃ factory, GeoZarr_enter zarr_open (GeoZarr_init dataset_path mode) = Ok (factory, ds)) ∧
    _dataset ds = None ∧
    (∀ rt value,
       schema_setter rt ds value
       = {| out_self := ds; out_value := value; out_result := Ok tt |}) ∧
    (∀ index_name values, set_index ds index_name values = (ds, Raise AttributeError)) ∧
    (∀ dataset_name data indexes,
       insert ds dataset_name data (Some indexes) = (ds, Raise AttributeError)).
Proof.
  intros Hr Hx.
  exists {| _dataset_path := dataset_path; _mode := mode; _dataset := None |}.
  assert (GeoZarr_open zarr_open dataset_path mode
          = Ok {| _dataset_path := dataset_path; _mode := mode; _dataset := None |}) as Hopen.
  { unfold GeoZarr_open, GeoZarrDataset_init. by rewrite !decide_False. }
  split; [done|]. split.
  { unfold GeoZarr_enter, GeoZarr_init. simpl. rewrite Hopen. simpl. by eexists. }
  split; [done|]. split; [|done].
  intros rt value. unfold schema_setter. simpl. by rewrite decide_False.
Qed.

Lemma other_mode_dataset_is_unusable_witness :
  ∃ ds,
    GeoZarr_open (fun _ _ => Raise KeyError) "swe.zarr" "w" = Ok ds ∧
    schema_setter sample_runtime ds swe_schema
      = {| out_self := ds; out_value := swe_schema; out_result := Ok tt |} ∧
    set_index ds "/SWE/time" time_values = (ds, Raise AttributeError) ∧
    insert ds "/SWE/SWE" swe_slice (Some [("/SWE/time", 2000)]) = (ds, Raise AttributeError).
Proof.
  destruct (other_mode_dataset_is_unusable (fun _ _ => Raise KeyError) "swe.zarr" "w")
    as (ds & Hopen & _ & _ & Hschema & Hset & Hinsert); [discriminate | discriminate |].
  exists ds. split; [exact Hopen|].
  split; [apply Hschema|]. split; [apply Hset | apply Hinsert].
Defined.

(** X19.  The [with] protocol of the factory.  [__enter__] hands out the
    dataset that [GeoZarr.open] builds for the path and mode given to the
    constructor, and keeps it; mode ['r'] opens the zarr store with mode
    ['r'] and mode ['x'] with zarr's mode ['w']; what [zarr.open] raises,
    [__enter__] raises.  [__exit__] after [__enter__] returns; without it,
    it raises AttributeError. *)
Theorem factory_with_protocol zarr_open dataset_path mode :
  GeoZarr_exit (GeoZarr_init dataset_path mode) = Raise AttributeError ∧
  match GeoZarr_enter zarr_open (GeoZarr_init dataset_path mode) with
  | Ok (factory, ds) =>
      GeoZarr_open zarr_open dataset_path mode = Ok ds ∧
      factory_dataset factory = Some ds ∧
      GeoZarr_exit factory = Ok tt ∧
      _dataset_path ds = dataset_path ∧ _mode ds = mode ∧
      match _dataset ds with
      | Some h => (mode = "r" ∧ zarr_open dataset_path "r" = Ok h) ∨
                  (mode = "x" ∧ zarr_open dataset_path "w" = Ok h)
      | None => mode ≠ "r" ∧ mode ≠ "x"
      end
  | Raise e =>
      (mode = "r" ∧ zarr_open dataset_path "r" = Raise e) ∨
      (mode = "x" ∧ zarr_open dataset_path "w" = Raise e)
  end.
Proof.
  split; [done|].
  unfold GeoZarr_enter, GeoZarr_open, GeoZarrDataset_init, GeoZarr_init. simpl.
  destruct (decide (mode = "r")) as [->|Hr].
  - destruct (zarr_open dataset_path "r") as [h|e]; simpl; [|by left].
    split_and!; try done. by left.
  - destruct (decide (mode = "x")) as [->|Hx].
    + destruct (zarr_open dataset_path "w") as [h|e]; simpl; [|by right].
      split_and!; try done. by right.
    + simpl. by split_and!.
Qed.

(** ** bilinear.py: the loops on any raster *)

(** [range(start, stop, step)] holds the numbers [start + k * step] below
    [stop]. *)
Lemma py_range_lookup start stop step k :
  (0 < step)%nat →
  py_range start stop step !! k
  = if decide (start + k * step < stop)%nat then Some (start + k * step)%nat else None.
Proof.
  intros Hstep. unfold py_range. rewrite list_lookup_fmap.
  assert ((k < (stop - start + step - 1) / step)%nat ↔ (start + k * step < stop)%nat) as Hk.
  { split.
    - intros Hlt.
      assert (step * S k ≤ stop - start + step - 1)%nat as Hle.
      { destruct (Nat.le_gt_cases (step * S k) (stop - start + step - 1)) as [|Hgt]; [done|].
        apply Nat.Div0.div_lt_upper_bound in Hgt; lia. }
      lia.
    - intros Hlt. apply (Nat.div_le_lower_bound _ _ (S k)); lia. }
  case_decide as Hc.
  - by rewrite lookup_seq_lt by (by apply Hk).
  - rewrite lookup_seq_ge; [done|]. rewrite <- Hk in Hc. lia.
Qed.

Lemma py_range_elem start stop step x :
  (0 < step)%nat →
  x ∈ py_range start stop step ↔ ∃ k, x = (start + k * step)%nat ∧ (x < stop)%nat.
Proof.
  intros Hstep. rewrite list_elem_of_lookup. split.
  - intros [k Hk]. rewrite py_range_lookup in Hk by done.
    case_decide; [|done]. injection Hk as <-. eauto.
  - intros (k & -> & Hlt). exists k. rewrite py_range_lookup by done.
    by rewrite decide_True.
Qed.

(** On an extent whose remainder by the step does not exceed the start
    offset, the loop visits one position per overview index. *)
Lemma py_range_regular start stop step :
  (start < step)%nat → (stop `mod` step ≤ start)%nat →
  py_range start stop step = (fun k => start + k * step)%nat <$> seq 0 (stop / step).
Proof.
  intros Hlt Hmod. unfold py_range. f_equal. f_equal.
  pose proof (Nat.div_mod stop step ltac:(lia)) as Hdiv.
  destruct (stop / step)%nat as [|q] eqn:Hq.
  - apply Nat.div_small. lia.
  - symmetry. apply (Nat.div_unique _ _ _ (step - 1 - (start - stop `mod` step))); lia.
Qed.

Lemma zoom_start_lt_step z :
  (0 < z)%nat → (2 ^ (z - 1) - 1 < 2 ^ z)%nat ∧ (0 < 2 ^ z)%nat.
Proof.
  intros Hz. destruct z as [|z']; [lia|].
  simpl. rewrite Nat.sub_0_r. pose proof (Nat.pow_nonzero 2 z'). lia.
Qed.

Lemma overview_pixel_length bands pixel_values px :
  overview_pixel bands pixel_values = Ok px → length px = bands.
Proof.
  unfold overview_pixel.
  destruct (pixels_max pixel_values) as [m|]; simpl; [|done].
  destruct (0 <? m).
  - intros Hpx. apply mapM_result_length in Hpx. by rewrite length_seq in Hpx.
  - intros [= <-]. by rewrite length_replicate.
Qed.

Lemma set_pixel_well_shaped zoom_image r c px zoom_image' :
  well_shaped zoom_image → length px = (ov_shape zoom_image).2 →
  set_pixel zoom_image r c px = Ok zoom_image' →
  well_shaped zoom_image' ∧ ov_shape zoom_image' = ov_shape zoom_image.
Proof.
  unfold well_shaped, set_pixel.
  destruct (ov_shape zoom_image) as [[h w] bands] eqn:Hshape. simpl.
  intros [Hlen Hall] Hpx. case_decide; [|done]. intros [= <-]. simpl.
  split; [|done]. split; [by rewrite length_alter|].
  apply Forall_alter; [done|].
  intros line Hline. rewrite Forall_lookup in Hall.
  destruct (Hall _ _ Hline) as [Hw Hpxs].
  split; [by rewrite length_insert|]. by apply Forall_insert.
Qed.

Lemma overview_cols_well_shaped im step row cols zoom_image zoom_image' :
  well_shaped zoom_image → (ov_shape zoom_image).2 = im_bands im →
  overview_cols im step row cols zoom_image = Ok zoom_image' →
  well_shaped zoom_image' ∧ ov_shape zoom_image' = ov_shape zoom_image.
Proof.
  revert zoom_image. induction cols as [|col cols IH]; intros zoom_image Hws Hbands; simpl.
  - by intros [= <-].
  - destruct (overview_pixel _ _) as [px|] eqn:Hpx; simpl; [|done].
    destruct (set_pixel zoom_image _ _ px) as [zi|] eqn:Hset; simpl; [|done].
    apply overview_pixel_length in Hpx.
    destruct (set_pixel_well_shaped _ _ _ _ _ Hws ltac:(by rewrite Hbands) Hset)
      as [Hws' Hshape'].
    intros Hrest. destruct (IH zi Hws' ltac:(by rewrite Hshape') Hrest) as [? Hshape''].
    split; [done|]. by rewrite Hshape''.
Qed.

Lemma overview_rows_well_shaped im start step rows zoom_image zoom_image' :
  well_shaped zoom_image → (ov_shape zoom_image).2 = im_bands im →
  overview_rows im start step rows zoom_image = Ok zoom_image' →
  well_shaped zoom_image' ∧ ov_shape zoom_image' = ov_shape zoom_image.
Proof.
  revert zoom_image. induction rows as [|row rows IH]; intros zoom_image Hws Hbands; simpl.
  - by intros [= <-].
  - destruct (overview_cols _ _ _ _ _) as [zi|] eqn:Hcols; simpl; [|done].
    destruct (overview_cols_well_shaped _ _ _ _ _ _ Hws Hbands Hcols) as [Hws' Hshape'].
    intros Hrest. destruct (IH zi Hws' ltac:(by rewrite Hshape') Hrest) as [? Hshape''].
    split; [done|]. by rewrite Hshape''.
Qed.

Lemma np_zeros_well_shaped h w bands : well_shaped (np_zeros h w bands).
Proof.
  unfold well_shaped. simpl. split; [by rewrite length_replicate|].
  apply Forall_replicate. split; [by rewrite length_replicate|].
  apply Forall_replicate. by rewrite length_replicate.
Qed.

(** X20.  The array [create_overview] returns.  Whenever it returns, the
    result has [height // step] rows of [width // step] pixels with one
    value per band, [step] being [2 ** zoom_level]. *)
Theorem create_overview_shape height width bands content zoom_level out :
  create_overview (height, width, bands) content zoom_level = Ok out →
  let step := (2 ^ Z.to_nat zoom_level)%nat in
  ov_shape out = (height / step, width / step, bands)%nat ∧
  length (ov_pixels out) = (height / step)%nat ∧
  ∀ r line, ov_pixels out !! r = Some line →
    length line = (width / step)%nat ∧
    ∀ c px, line !! c = Some px → length px = bands.
Proof.
  unfold create_overview. case_decide; [done|]. case_decide; [done|].
  intros Hrows.
  apply overview_rows_well_shaped in Hrows as [Hws Hshape];
    [| apply np_zeros_well_shaped | done].
  simpl in Hshape. unfold well_shaped in Hws. rewrite Hshape in Hws.
  destruct Hws as [Hlen Hall]. split; [done|]. split; [done|].
  intros r line Hline. rewrite Forall_lookup in Hall.
  destruct (Hall _ _ Hline) as [Hw Hpxs]. split; [done|].
  intros c px Hpx. rewrite Forall_lookup in Hpxs. by apply (Hpxs c).
Qed.

Lemma create_overview_shape_witness :
  ov_shape {| ov_shape := (1, 1, 1)%nat; ov_pixels := [[[8]]] |} = (4 / 4, 4 / 4, 1)%nat ∧
  length [[[8]]] = (4 / 4)%nat ∧
  ∀ r line, [[[8]]] !! r = Some line →
    length line = (4 / 4)%nat ∧ ∀ c px, line !! c = Some px → length px = 1%nat.
Proof.
  apply (create_overview_shape 4 4 1
           [1; 2; 3; 4; 5; 6; 7; 8; 9; 10; 11; 12; 13; 14; 15; 16] 2
           {| ov_shape := (1, 1, 1)%nat; ov_pixels := [[[8]]] |}).
  vm_compute; reflexivity.
Defined.

(** *** Positions outside the overview *)

Lemma overview_cols_bad_row im step row col cols zoom_image hz wz bands :
  ov_shape zoom_image = (hz, wz, bands) → (hz ≤ row / step)%nat →
  ∃ e, overview_cols im step row (col :: cols) zoom_image = Raise e.
Proof.
  intros Hshape Hrow. simpl.
  destruct (overview_pixel _ _) as [px|e]; simpl; [|eauto].
  unfold set_pixel. rewrite Hshape. rewrite decide_False by lia. simpl. eauto.
Qed.

Lemma overview_cols_bad_col im step row col cols zoom_image hz wz :
  ov_shape zoom_image = (hz, wz, im_bands im) → well_shaped zoom_image →
  col ∈ cols → (wz ≤ col / step)%nat →
  ∃ e, overview_cols im step row cols zoom_image = Raise e.
Proof.
  revert zoom_image. induction cols as [|col' cols IH]; intros zoom_image Hshape Hws Hin Hcol;
    [by apply elem_of_nil in Hin|].
  simpl. destruct (overview_pixel _ _) as [px|e] eqn:Hpx; simpl; [|eauto].
  destruct (set_pixel zoom_image _ _ px) as [zi|e] eqn:Hset; simpl; [|eauto].
  apply overview_pixel_length in Hpx.
  destruct (set_pixel_well_shaped _ _ _ _ _ Hws ltac:(by rewrite Hshape) Hset)
    as [Hws' Hshape'].
  apply elem_of_cons in Hin as [-> | Hin].
  - unfold set_pixel in Hset. rewrite Hshape in Hset.
    rewrite decide_False in Hset by lia. done.
  - apply IH; [by rewrite Hshape' | done | done | done].
Qed.

Lemma overview_rows_bad_row im start step rows row zoom_image hz wz :
  ov_shape zoom_image = (hz, wz, im_bands im) → well_shaped zoom_image →
  row ∈ rows →
  (∀ zi, ov_shape zi = (hz, wz, im_bands im) → well_shaped zi →
     ∃ e, overview_cols im step row (py_range start (im_width im) step) zi = Raise e) →
  ∃ e, overview_rows im start step rows zoom_image = Raise e.
Proof.
  revert zoom_image. induction rows as [|row' rows IH]; intros zoom_image Hshape Hws Hin Hbad;
    [by apply elem_of_nil in Hin|].
  simpl. destruct (overview_cols _ _ _ _ _) as [zi|e] eqn:Hcols; simpl; [|eauto].
  destruct (overview_cols_well_shaped _ _ _ _ _ _ Hws ltac:(by rewrite Hshape) Hcols)
    as [Hws' Hshape'].
  apply elem_of_cons in Hin as [-> | Hin].
  - destruct (Hbad zoom_image Hshape Hws) as [e He]. congruence.
  - apply IH; [by rewrite Hshape' | done | done | done].
Qed.

(** X21.  A raster that is not aligned has no overview.  When the
    remainder of the height by the step exceeds the start offset
    [2 ** (zoom_level - 1) - 1] and the raster is wider than that offset,
    or the same with the axes exchanged, a loop reaches an index one past
    the rows or columns allocated and [create_overview] raises.  At zoom
    level 1 (offset 0, step 2) these are the rasters with an odd extent
    and no extent zero. *)
Theorem misaligned_raster_raises height width bands content zoom_level :
  misaligned (2 ^ (Z.to_nat zoom_level - 1) - 1) (2 ^ Z.to_nat zoom_level) height width →
  ∃ e, create_overview (height, width, bands) content zoom_level = Raise e.
Proof.
  intros Hmis. unfold create_overview.
  case_decide; [eauto|]. case_decide as Hzoom; [eauto|].
  destruct (zoom_start_lt_step (Z.to_nat zoom_level) ltac:(lia)) as [Hstart Hstep].
  set (start := (2 ^ (Z.to_nat zoom_level - 1) - 1)%nat) in *.
  set (step := (2 ^ Z.to_nat zoom_level)%nat) in *.
  set (im := {| im_height := height; im_width := width; im_bands := bands;
                im_content := content |}).
  pose proof (Nat.div_mod height step ltac:(lia)) as Hh.
  pose proof (Nat.div_mod width step ltac:(lia)) as Hw.
  destruct Hmis as [[Hrem Hwidth] | [Hrem Hheight]].
  - (* the row loop reaches row index [height / step] *)
    apply (overview_rows_bad_row im start step _ (start + height / step * step)%nat
             _ (height / step)%nat (width / step)%nat);
      [done | apply np_zeros_well_shaped | |].
    + apply py_range_elem; [done|]. exists (height / step)%nat. split; [done | lia].
    + intros zi Hshape _.
      destruct (py_range start (im_width im) step) as [|col cols] eqn:Hcols.
      { assert (start ∈ py_range start (im_width im) step) as Hin.
        { apply py_range_elem; [done|]. exists 0%nat. simpl. split; [lia | done]. }
        rewrite Hcols in Hin. by apply elem_of_nil in Hin. }
      apply (overview_cols_bad_row _ _ _ _ _ _ _ _ _ Hshape).
      rewrite Nat.div_add by lia. rewrite (Nat.div_small start step) by done. simpl. done.
  - (* the column loop reaches column index [width / step] *)
    apply (overview_rows_bad_row im start step _ start
             _ (height / step)%nat (width / step)%nat);
      [done | apply np_zeros_well_shaped | |].
    + apply py_range_elem; [done|]. exists 0%nat. simpl. split; [lia | done].
    + intros zi Hshape Hws.
      apply (overview_cols_bad_col _ _ _ (start + width / step * step)%nat _ _ _ _ Hshape Hws).
      * apply py_range_elem; [done|]. exists (width / step)%nat. split; [done|]. simpl. lia.
      * rewrite Nat.div_add by lia. rewrite (Nat.div_small start step) by done. simpl. done.
Qed.

Lemma misaligned_raster_raises_witness :
  ∃ e, create_overview (3, 2, 1)%nat [1; 1; 1; 1; 1; 1] 1 = Raise e.
Proof.
  apply (misaligned_raster_raises 3 2 1 [1; 1; 1; 1; 1; 1] 1).
  left. vm_compute. lia.
Defined.

(** ** bilinear.py: the value of one overview pixel *)

Lemma round_half_even_bounds s n lo hi :
  0 < n → n * lo ≤ s ≤ n * hi → lo ≤ round_half_even s n ≤ hi.
Proof.
  intros Hn [Hlo Hhi]. unfold round_half_even.
  pose proof (Z.div_mod s n ltac:(lia)) as Hs.
  pose proof (Z.mod_pos_bound s n Hn) as Hr.
  assert (lo ≤ s / n) as Hq1 by (apply Z.div_le_lower_bound; lia).
  assert (s / n ≤ hi) as Hq2 by (apply Z.div_le_upper_bound; lia).
  assert (0 < s `mod` n → s / n < hi) as Hq3 by nia.
  destruct (2 * (s `mod` n) <? n) eqn:H1; [lia|].
  apply Z.ltb_ge in H1.
  destruct (n <? 2 * (s `mod` n)) eqn:H2; [lia|].
  destruct (Z.even (s / n)); lia.
Qed.

Lemma sum_bounds (kept : list Z) lo hi :
  (∀ x, x ∈ kept → lo ≤ x ≤ hi) →
  Z.of_nat (length kept) * lo ≤ foldr Z.add 0 kept ≤ Z.of_nat (length kept) * hi.
Proof.
  induction kept as [|x kept IH]; intros Hall; [simpl; lia|].
  specialize (IH ltac:(intros; apply Hall; by right)).
  specialize (Hall x ltac:(left)).
  cbn [length foldr]. lia.
Qed.

Lemma kept_nonempty (samples : list Z) :
  Exists (fun v => 0 < v) samples ↔ filter (fun v => 0 < v) samples ≠ [].
Proof.
  rewrite Exists_exists. split.
  - intros (v & Hin & Hpos) Hnil.
    assert (v ∈ filter (fun v => 0 < v) samples) as Hv by (by apply list_elem_of_filter).
    rewrite Hnil in Hv. by apply elem_of_nil in Hv.
  - intros Hne. destruct (filter (fun v => 0 < v) samples) as [|v kept] eqn:Hkept; [done|].
    exists v. assert (v ∈ filter (fun v => 0 < v) samples) as Hv by (rewrite Hkept; left).
    apply list_elem_of_filter in Hv as [? ?]. done.
Qed.

Lemma band_average_lit samples :
  Exists (fun v => 0 < v) samples → band_average samples = Ok (positive_mean samples).
Proof.
  intros Hlit%kept_nonempty. unfold band_average, positive_mean.
  by destruct (filter (fun v => 0 < v) samples).
Qed.

Lemma band_average_blank samples :
  ¬ Exists (fun v => 0 < v) samples → band_average samples = Raise ZeroDivisionError.
Proof.
  intros Hblank. unfold band_average.
  destruct (filter (fun v => 0 < v) samples) as [|v kept] eqn:Hkept; [done|].
  destruct Hblank. apply kept_nonempty. by rewrite Hkept.
Qed.

Lemma positive_mean_bounds samples lo hi :
  Exists (fun v => 0 < v) samples →
  (∀ x, x ∈ samples → 0 < x → lo ≤ x ≤ hi) →
  lo ≤ positive_mean samples ≤ hi.
Proof.
  intros Hlit%kept_nonempty Hall. unfold positive_mean.
  apply round_half_even_bounds.
  - destruct (filter (fun v => 0 < v) samples); [done | simpl; lia].
  - apply sum_bounds. intros x Hx. apply list_elem_of_filter in Hx as [? ?]. by apply Hall.
Qed.

Lemma pixels_max_lit pixel_values m :
  pixels_max pixel_values = Ok m →
  (0 < m ↔ Exists (fun v => 0 < v) (concat pixel_values)).
Proof.
  unfold pixels_max. destruct (concat pixel_values) as [|v vs]; [done|].
  intros [= <-]. rewrite Exists_exists. split.
  - intros Hpos. exists (foldr Z.max v vs). split; [apply foldr_max_elem | done].
  - intros (x & Hin & Hpos). pose proof (foldr_max_upper v vs x Hin). lia.
Qed.

Lemma mapM_result_total {A B} (g : A → B) l :
  mapM_result (fun x => Ok (g x)) l = Ok (g <$> l).
Proof. induction l as [|x l IH]; [done|]. simpl. by rewrite IH. Qed.

Lemma mapM_result_raise_inv {A B} (f : A → result B) l e :
  mapM_result f l = Raise e → ∃ x, x ∈ l ∧ f x = Raise e.
Proof.
  induction l as [|x l IH]; [done|]. simpl.
  destruct (f x) as [y|e'] eqn:Hx; simpl.
  - destruct (mapM_result f l) as [ys|e'']; simpl; [done|].
    intros [= ->]. destruct IH as (x' & Hin & Hx'); [done|].
    exists x'. split; [by right | done].
  - intros [= ->]. exists x. split; [left | done].
Qed.

(** The pixel of a window in which every band has a positive sample. *)
Lemma overview_pixel_lit bands pixel_values :
  Exists (fun v => 0 < v) (concat pixel_values) →
  (∀ b, (b < bands)%nat → Exists (fun v => 0 < v) (band_samples pixel_values b)) →
  overview_pixel bands pixel_values
  = Ok ((fun b => positive_mean (band_samples pixel_values b)) <$> seq 0 bands).
Proof.
  intros Hlit Hbands. unfold overview_pixel.
  destruct (pixels_max pixel_values) as [m|e] eqn:Hmax.
  - simpl. rewrite (proj2 (Z.ltb_lt 0 m)) by (by apply (pixels_max_lit _ _ Hmax)).
    rewrite <- mapM_result_total. apply mapM_result_ext.
    intros b Hb. apply elem_of_seq in Hb. apply band_average_lit, Hbands. lia.
  - unfold pixels_max in Hmax. apply Exists_exists in Hlit as (v & Hin & _).
    destruct (concat pixel_values); [by apply elem_of_nil in Hin | done].
Qed.

(** X22.  When one window makes [create_overview] fail.  The computation
    of an overview pixel raises ZeroDivisionError exactly when the window
    has a positive sample while some band has none: the test on the window
    maximum then passes and [np.average] finds weights that sum to zero
    for that band.  On a window that is not empty it raises nothing
    else. *)
Theorem overview_pixel_raises_iff bands pixel_values :
  (overview_pixel bands pixel_values = Raise ZeroDivisionError ↔
   Exists (fun v => 0 < v) (concat pixel_values) ∧
   ∃ b, (b < bands)%nat ∧ ¬ Exists (fun v => 0 < v) (band_samples pixel_values b)) ∧
  (∀ e, overview_pixel bands pixel_values = Raise e →
        e = ZeroDivisionError ∨ (e = ValueError ∧ concat pixel_values = [])).
Proof.
  assert (∀ m, pixels_max pixel_values = Ok m → (0 <? m) = true →
            ∀ e, mapM_result (fun b => band_average (band_samples pixel_values b))
                   (seq 0 bands) = Raise e →
                 e = ZeroDivisionError ∧
                 ∃ b, (b < bands)%nat ∧
                      ¬ Exists (fun v => 0 < v) (band_samples pixel_values b)) as Hband.
  { intros m Hmax Hpos e Hraise.
    apply mapM_result_raise_inv in Hraise as (b & Hb & Hraise).
    apply elem_of_seq in Hb.
    destruct (decide (Exists (fun v => 0 < v) (band_samples pixel_values b))) as [Hlit|Hblank].
    - by rewrite band_average_lit in Hraise.
    - rewrite band_average_blank in Hraise by done. injection Hraise as <-.
      split; [done|]. exists b. split; [lia | done]. }
  split; [split|].
  - unfold overview_pixel.
    destruct (pixels_max pixel_values) as [m|e] eqn:Hmax; simpl.
    + destruct (0 <? m) eqn:Hpos; [|done].
      intros Hraise. split.
      * apply (pixels_max_lit _ _ Hmax). by apply Z.ltb_lt.
      * by apply (Hband m eq_refl Hpos ZeroDivisionError).
    + unfold pixels_max in Hmax.
      destruct (concat pixel_values); [injection Hmax as <-; done | done].
  - intros (Hlit & b & Hb & Hblank). unfold overview_pixel.
    destruct (pixels_max pixel_values) as [m|e] eqn:Hmax; simpl.
    + rewrite (proj2 (Z.ltb_lt 0 m)) by (by apply (pixels_max_lit _ _ Hmax)).
      apply (mapM_result_raise _ _ _ b).
      * intros b' _.
        destruct (decide (Exists (fun v => 0 < v) (band_samples pixel_values b'))).
        -- left. rewrite band_average_lit by done. eauto.
        -- right. by apply band_average_blank.
      * apply elem_of_seq. lia.
      * by apply band_average_blank.
    + unfold pixels_max in Hmax. apply Exists_exists in Hlit as (v & Hin & _).
      destruct (concat pixel_values); [by apply elem_of_nil in Hin | done].
  - intros e. unfold overview_pixel.
    destruct (pixels_max pixel_values) as [m|e'] eqn:Hmax; simpl.
    + destruct (0 <? m) eqn:Hpos; [|done].
      intros Hraise. left. by apply (Hband m eq_refl Hpos e).
    + unfold pixels_max in Hmax.
      destruct (concat pixel_values); [|done].
      injection Hmax as <-. intros [= <-]. by right.
Qed.

(** X23.  The values of an overview pixel, for integer samples below 2^50
    (where the binary64 average that numpy computes is exact).  When the
    computation of an overview pixel returns, either the window has no
    positive sample and every value is 0, or the value of each band is the
    mean of that band's positive samples, rounded half to even: it is
    positive and lies between the smallest and the largest of them. *)
Theorem overview_pixel_value bands pixel_values px b v :
  Forall (fun x => x < 2 ^ 50) (concat pixel_values) →
  overview_pixel bands pixel_values = Ok px → px !! b = Some v →
  (¬ Exists (fun x => 0 < x) (concat pixel_values) ∧ v = 0) ∨
  (v = positive_mean (band_samples pixel_values b) ∧ 0 < v ∧
   ∀ lo hi, (∀ x, x ∈ band_samples pixel_values b → 0 < x → lo ≤ x ≤ hi) → lo ≤ v ≤ hi).
Proof.
  intros _. unfold overview_pixel.
  destruct (pixels_max pixel_values) as [m|e] eqn:Hmax; simpl; [|done].
  destruct (0 <? m) eqn:Hpos.
  - intros Hpx Hv. right.
    destruct (mapM_result_lookup _ _ _ b b Hpx) as (v' & Hv' & Havg).
    { apply lookup_seq_lt. apply lookup_lt_Some in Hv.
      apply mapM_result_length in Hpx. rewrite length_seq in Hpx. lia. }
    rewrite Hv in Hv'. injection Hv' as <-.
    destruct (decide (Exists (fun x => 0 < x) (band_samples pixel_values b))) as [Hlit|Hblank];
      [|by rewrite band_average_blank in Havg].
    rewrite band_average_lit in Havg by done. injection Havg as <-.
    split; [done|]. split.
    + pose proof (positive_mean_bounds (band_samples pixel_values b) 1 (Z.max 1 m) Hlit)
        as Hbounds.
      destruct Hbounds as [Hlo _]; [|lia].
      intros x Hx Hpos'. split; [lia|].
      unfold band_samples in Hx. apply list_elem_of_fmap in Hx as (pixel & -> & Hpixel).
      destruct (pixel !! b) as [x|] eqn:Hb; simpl in *; [|lia].
      unfold pixels_max in Hmax.
      destruct (concat pixel_values) as [|v0 vs] eqn:Hcat; [done|].
      injection Hmax as <-.
      pose proof (foldr_max_upper v0 vs x) as Hupper.
      rewrite <- Hcat in Hupper. specialize (Hupper ltac:(
        apply list_elem_of_In, in_concat; exists pixel; split;
          [by apply list_elem_of_In | apply list_elem_of_In; by eapply list_elem_of_lookup_2])).
      lia.
    + intros lo hi Hall. by apply positive_mean_bounds.
  - intros [= <-] Hv. left.
    apply lookup_replicate in Hv as [-> _]. split; [|done].
    intros Hlit. apply (pixels_max_lit _ _ Hmax) in Hlit.
    apply Z.ltb_ge in Hpos. lia.
Qed.

Lemma overview_pixel_value_witness :
  (¬ Exists (fun x => 0 < x) (concat [[0]; [5]; [0]; [0]]) ∧ 5 = 0) ∨
  (5 = positive_mean (band_samples [[0]; [5]; [0]; [0]] 0) ∧ 0 < 5 ∧
   ∀ lo hi, (∀ x, x ∈ band_samples [[0]; [5]; [0]; [0]] 0 → 0 < x → lo ≤ x ≤ hi) →
            lo ≤ 5 ≤ hi).
Proof.
  apply (overview_pixel_value 1 [[0]; [5]; [0]; [0]] [5] 0 5);
    [repeat constructor | reflexivity | reflexivity].
Defined.

(** ** bilinear.py: rasters on which the loops stay inside the overview *)

Lemma overview_rows_regular im start step r0 m zoom_image hz :
  (start < step)%nat →
  ov_shape zoom_image = (hz, im_width im / step, im_bands im)%nat →
  (im_width im `mod` step ≤ start)%nat →
  (r0 + m ≤ hz)%nat →
  (∀ r c, (r0 ≤ r < r0 + m)%nat → (c < im_width im / step)%nat →
     ∃ px, source im start step r c = Ok px) →
  overview_rows im start step ((fun k => start + k * step)%nat <$> seq r0 m) zoom_image
  = Ok {| ov_shape := ov_shape zoom_image;
          ov_pixels := fill_rows (fun r c => pixel_or_empty (source im start step r c))
                         (im_width im / step) r0 m (ov_pixels zoom_image) |}.
Proof.
  intros Hlt Hshape Hwidth. revert r0 zoom_image Hshape.
  induction m as [|m IH]; intros r0 zoom_image Hshape Hr Hsrc; simpl.
  - by destruct zoom_image.
  - rewrite py_range_regular by done.
    rewrite (overview_cols_aligned im start step Hlt r0 0 (im_width im / step) zoom_image
               hz (im_width im / step));
      [| done | lia | lia | intros; apply Hsrc; lia].
    simpl. rewrite IH; simpl; [done | done | lia | intros; apply Hsrc; lia].
Qed.

(** On a raster whose extents leave remainders no larger than the start
    offset, [create_overview] returns as soon as every window yields a
    pixel, and the pixel at [(r, c)] is the one computed from the window
    whose corner is at row [start + r * step], column [start + c * step]. *)
Lemma create_overview_regular height width bands content zoom_level :
  let step := (2 ^ Z.to_nat zoom_level)%nat in
  let start := (2 ^ (Z.to_nat zoom_level - 1) - 1)%nat in
  let im := {| im_height := height; im_width := width; im_bands := bands;
               im_content := content |} in
  1 ≤ zoom_level →
  (height * width * bands ≤ length content)%nat →
  (height `mod` step ≤ start)%nat → (width `mod` step ≤ start)%nat →
  (∀ r c, (r < height / step)%nat → (c < width / step)%nat →
     ∃ px, source im start step r c = Ok px) →
  ∃ out,
    create_overview (height, width, bands) content zoom_level = Ok out ∧
    ov_shape out = (height / step, width / step, bands)%nat ∧
    ∀ r c, (r < height / step)%nat → (c < width / step)%nat →
      ∃ line px,
        ov_pixels out !! r = Some line ∧ line !! c = Some px ∧
        source im start step r c = Ok px.
Proof.
  intros step start im Hzoom Hcontent Hh Hw Hsrc.
  destruct (zoom_start_lt_step (Z.to_nat zoom_level) ltac:(lia)) as [Hstart Hstep].
  fold step in Hstart, Hstep. fold start in Hstart.
  unfold create_overview.
  rewrite decide_False by lia. rewrite decide_False by lia.
  fold step. fold start. fold im. clearbody step start.
  rewrite py_range_regular by done.
  rewrite (overview_rows_regular im start step 0 (height / step) _ (height / step));
    [| done | done | done | lia | intros r c Hr Hc; apply Hsrc; [lia | exact Hc]].
  eexists. split; [reflexivity|]. split; [done|].
  intros r c Hr Hc. simpl.
  destruct (np_zeros_lookup (height / step) (width / step) bands r c Hr Hc)
    as (line & Hline & Hlen).
  destruct (Hsrc r c Hr Hc) as [px Hpx].
  exists (fill_line (fun c => pixel_or_empty (source im start step r c)) 0 (width / step) line),
         px.
  split; [|split; [|done]].
  - rewrite fill_rows_lookup. rewrite decide_True by lia.
    simpl in Hline. by rewrite Hline.
  - rewrite fill_line_lookup by lia. rewrite decide_True by lia. by rewrite Hpx.
Qed.

Lemma window_inside start step extent r :
  (start < step)%nat → (r < extent / step)%nat → (start + r * step < extent)%nat.
Proof.
  intros Hlt Hr. pose proof (Nat.Div0.mul_div_le extent step) as Hle.
  assert ((r + 1) * step ≤ extent / step * step)%nat as Hmul
    by (apply Nat.mul_le_mono_r; lia).
  lia.
Qed.

Lemma window_not_empty im row col :
  (row < im_height im)%nat → (col < im_width im)%nat → (0 < im_bands im)%nat →
  concat (neighborhood im row col) ≠ [].
Proof.
  intros Hr Hc Hb Hnil.
  pose proof (neighborhood_corner im row col Hr Hc) as Hin.
  pose proof (image_pixel_length im row col) as Hlen.
  destruct (image_pixel im row col) as [|v px] eqn:Hpx; [simpl in Hlen; lia|].
  assert (v ∈ concat (neighborhood im row col)) as Hv.
  { apply list_elem_of_In, in_concat. exists (v :: px).
    split; [by apply list_elem_of_In | by left]. }
  rewrite Hnil in Hv. by apply elem_of_nil in Hv.
Qed.

(** X24.  What [create_overview] computes.  Take a raster of integer
    samples below 2^50 (where the binary64 average that numpy computes is
    exact) whose extents leave remainders by the step no larger than the
    start offset (multiples of the step, for one), with at least one band, a
    buffer that holds it and a zoom level of at least 1; and let no window
    have a positive sample in one band and none in another.  Then [create_overview] returns an
    array of shape [(height // step, width // step, bands)] whose pixel at
    [(r, c)] comes from the window with its corner at row
    [start + r * step], column [start + c * step]: all zeros when the window
    has no positive sample, and otherwise, per band, the mean of the
    positive samples rounded half to even. *)
Theorem create_overview_values height width bands content zoom_level :
  let step := (2 ^ Z.to_nat zoom_level)%nat in
  let start := (2 ^ (Z.to_nat zoom_level - 1) - 1)%nat in
  let im := {| im_height := height; im_width := width; im_bands := bands;
               im_content := content |} in
  let window := fun r c => neighborhood im (start + r * step) (start + c * step) in
  1 ≤ zoom_level → (0 < bands)%nat →
  (height * width * bands ≤ length content)%nat →
  Forall (fun v => v < 2 ^ 50) content →
  (height `mod` step ≤ start)%nat → (width `mod` step ≤ start)%nat →
  (∀ r c b, (r < height / step)%nat → (c < width / step)%nat → (b < bands)%nat →
     Exists (fun v => 0 < v) (concat (window r c)) →
     Exists (fun v => 0 < v) (band_samples (window r c) b)) →
  ∃ out,
    create_overview (height, width, bands) content zoom_level = Ok out ∧
    ov_shape out = (height / step, width / step, bands)%nat ∧
    ∀ r c b, (r < height / step)%nat → (c < width / step)%nat → (b < bands)%nat →
      ∃ line px,
        ov_pixels out !! r = Some line ∧ line !! c = Some px ∧
        px !! b = Some (if decide (Exists (fun v => 0 < v) (concat (window r c)))
                        then positive_mean (band_samples (window r c) b)
                        else 0).
Proof.
  intros step start im window Hzoom Hbands Hcontent _ Hh Hw Hlit.
  destruct (zoom_start_lt_step (Z.to_nat zoom_level) ltac:(lia)) as [Hstart Hstep].
  fold step in Hstart, Hstep. fold start in Hstart.
  pose proof (Nat.div_mod height step ltac:(lia)) as Hheight.
  pose proof (Nat.div_mod width step ltac:(lia)) as Hwidth.
  assert (∀ r c, (r < height / step)%nat → (c < width / step)%nat →
            source im start step r c
            = Ok ((fun b => if decide (Exists (fun v => 0 < v) (concat (window r c)))
                            then positive_mean (band_samples (window r c) b)
                            else 0) <$> seq 0 bands)) as Hsrc.
  { intros r c Hr Hc. unfold source. fold (window r c). simpl im_bands.
    destruct (decide (Exists (fun v => 0 < v) (concat (window r c)))) as [Hex|Hblank].
    - apply overview_pixel_lit; [done|]. intros b Hb. by apply Hlit.
    - rewrite overview_pixel_background.
      + f_equal. clear. generalize 0%nat.
        induction bands as [|n IH]; intros k; [done|]. simpl. by rewrite <- IH.
      + exact (window_not_empty im (start + r * step) (start + c * step)
                 (window_inside start step height r Hstart Hr)
                 (window_inside start step width c Hstart Hc) Hbands).
      + intros v Hv. destruct (decide (0 < v)) as [Hpos|]; [|lia].
        destruct Hblank. apply Exists_exists. eauto. }
  destruct (create_overview_regular height width bands content zoom_level
              Hzoom Hcontent Hh Hw) as (out & Hout & Hshape & Hpixels).
  { intros r c Hr Hc. eexists. apply (Hsrc r c Hr Hc). }
  exists out. split; [done|]. split; [done|].
  intros r c b Hr Hc Hb.
  destruct (Hpixels r c Hr Hc) as (line & px & Hline & Hpx & Hval).
  assert (source im start step r c = Ok px) as Hval' by exact Hval.
  rewrite (Hsrc r c Hr Hc) in Hval'. injection Hval' as <-.
  eexists line, _. split; [done|]. split; [exact Hpx|].
  rewrite list_lookup_fmap, lookup_seq_lt by done. done.
Qed.

Lemma create_overview_values_witness :
  ∃ out,
    create_overview (2, 4, 1)%nat [4; 6; 0; 0; 2; 8; 0; 0] 1 = Ok out ∧
    ov_shape out = (1, 2, 1)%nat ∧
    (∃ line px, ov_pixels out !! 0%nat = Some line ∧ line !! 0%nat = Some px ∧
                px !! 0%nat = Some 5) ∧
    (∃ line px, ov_pixels out !! 0%nat = Some line ∧ line !! 1%nat = Some px ∧
                px !! 0%nat = Some 0).
Proof.
  destruct (create_overview_values 2 4 1 [4; 6; 0; 0; 2; 8; 0; 0] 1)
    as (out & Hout & Hshape & Hpixels).
  - lia.
  - lia.
  - simpl. lia.
  - repeat constructor.
  - vm_compute. lia.
  - vm_compute. lia.
  - intros r c b Hr Hc Hb Hex.
    assert (b = 0%nat) as -> by lia.
    assert (r = 0%nat) as -> by (vm_compute in Hr; lia).
    assert (c = 0%nat ∨ c = 1%nat) as [-> | ->] by (vm_compute in Hc; lia).
    + apply Exists_exists. exists 4. split; [left | lia].
    + exfalso. apply Exists_exists in Hex as (v & Hv & Hpos). vm_compute in Hv.
      repeat (apply elem_of_cons in Hv as [-> | Hv]; [lia|]).
      by apply elem_of_nil in Hv.
  - exists out. split; [exact Hout|]. split; [exact Hshape|]. split.
    + destruct (Hpixels 0%nat 0%nat 0%nat) as (line & px & Hline & Hpx & Hv);
        [vm_compute; lia | vm_compute; lia | lia |].
      exists line, px. split; [exact Hline|]. split; [exact Hpx|].
      rewrite Hv. rewrite decide_True; [reflexivity|].
      apply Exists_exists. exists 4. split; [left | lia].
    + destruct (Hpixels 0%nat 1%nat 0%nat) as (line & px & Hline & Hpx & Hv);
        [vm_compute; lia | vm_compute; lia | lia |].
      exists line, px. split; [exact Hline|]. split; [exact Hpx|].
      rewrite Hv. rewrite decide_False; [reflexivity|].
      intros Hex. apply Exists_exists in Hex as (v & Hin & Hpos). vm_compute in Hin.
      repeat (apply elem_of_cons in Hin as [-> | Hin]; [lia|]).
      by apply elem_of_nil in Hin.
Defined.

Lemma overview_rows_no_cols im start step rows zoom_image :
  py_range start (im_width im) step = [] →
  overview_rows im start step rows zoom_image = Ok zoom_image.
Proof.
  intros Hcols. revert zoom_image.
  induction rows as [|row rows IH]; intros zoom_image; [done|].
  simpl. rewrite Hcols. simpl. apply IH.
Qed.

Lemma py_range_empty start stop step :
  (0 < step)%nat → (stop ≤ start)%nat → py_range start stop step = [].
Proof.
  intros Hstep Hle. unfold py_range.
  replace (stop - start + step - 1)%nat with (step - 1)%nat by lia.
  rewrite Nat.div_small by lia. done.
Qed.

(** X25.  A single-band raster has an overview unless it is misaligned.
    With one band, a buffer that holds the raster and a zoom level of at
    least 1, [create_overview] returns an array of shape
    [(height // step, width // step, 1)] on every raster on which the loops
    stay inside the rows and columns allocated: the averaging itself cannot
    fail. *)
Theorem single_band_overview_returns height width content zoom_level :
  let step := (2 ^ Z.to_nat zoom_level)%nat in
  let start := (2 ^ (Z.to_nat zoom_level - 1) - 1)%nat in
  1 ≤ zoom_level →
  (height * width * 1 ≤ length content)%nat →
  ¬ misaligned start step height width →
  ∃ out,
    create_overview (height, width, 1%nat) content zoom_level = Ok out ∧
    ov_shape out = (height / step, width / step, 1)%nat.
Proof.
  intros step start Hzoom Hcontent Haligned.
  destruct (zoom_start_lt_step (Z.to_nat zoom_level) ltac:(lia)) as [Hstart Hstep].
  fold step in Hstart, Hstep. fold start in Hstart.
  destruct (decide (height ≤ start)%nat) as [Hrows|Hrows].
  { unfold create_overview.
    rewrite decide_False by lia. rewrite decide_False by lia.
    fold step. fold start. rewrite py_range_empty by done. simpl. eauto. }
  destruct (decide (width ≤ start)%nat) as [Hcols|Hcols].
  { unfold create_overview.
    rewrite decide_False by lia. rewrite decide_False by lia.
    fold step. fold start.
    rewrite overview_rows_no_cols by (simpl; by apply py_range_empty). eauto. }
  assert (height `mod` step ≤ start ∧ width `mod` step ≤ start)%nat as [Hh Hw].
  { unfold misaligned in Haligned. lia. }
  pose proof (Nat.div_mod height step ltac:(lia)) as Hheight.
  pose proof (Nat.div_mod width step ltac:(lia)) as Hwidth.
  destruct (create_overview_regular height width 1 content zoom_level Hzoom Hcontent Hh Hw)
    as (out & Hout & Hshape & _); [|eauto].
  intros r c Hr Hc. fold step. fold start.
  unfold source. simpl im_bands.
  match goal with |- ∃ px, overview_pixel 1 ?w = Ok px =>
    destruct (overview_pixel_single_band w) as [v Hv] end.
  - intros Hempty.
    match type of Hempty with neighborhood ?im ?row ?col = [] =>
      pose proof (neighborhood_corner im row col) as Hin end.
    simpl in Hin. rewrite Hempty in Hin.
    eapply elem_of_nil, Hin; by apply window_inside.
  - intros px Hpx. by apply neighborhood_pixel_length in Hpx.
  - eauto.
Qed.

Lemma single_band_overview_returns_witness :
  ∃ out,
    create_overview (5, 9, 1)%nat (replicate 45 3) 2 = Ok out ∧
    ov_shape out = (1, 2, 1)%nat.
Proof.
  apply (single_band_overview_returns 5 9 (replicate 45 3) 2).
  - lia.
  - vm_compute. lia.
  - vm_compute. lia.
Defined.

(** ** dataset.py: the projection parameters *)

(** A key of [params] holds the value of the last parameter that feeds
    it. *)
Lemma collect_params_lookup coord_operation_params key :
  collect_params coord_operation_params !! key
  = param_value <$> last (filter (fun param => param_dict (lower (param_name param)) = Some key)
                            coord_operation_params).
Proof.
  unfold collect_params.
  induction coord_operation_params as [|param ps IH] using rev_ind; [done|].
  rewrite foldl_app, filter_app. simpl.
  rewrite filter_cons, filter_nil.
  destruct (param_dict (lower (param_name param))) as [key'|] eqn:Hkey.
  - destruct (decide (key' = key)) as [->|Hne].
    + rewrite decide_True by done. rewrite lookup_insert_eq. by rewrite last_snoc.
    + rewrite decide_False by congruence. rewrite lookup_insert_ne by done.
      by rewrite app_nil_r.
  - rewrite decide_False by done. by rewrite app_nil_r.
Qed.

Lemma param_dict_key name key :
  key ∈ ["falseEast"; "falseNorth"; "scale"; "longOrigin"; "latOrigin"] →
  param_dict name = Some key ↔
  name = (if decide (key = "falseEast") then "false easting"
          else if decide (key = "falseNorth") then "false northing"
          else if decide (key = "scale") then "scale factor at natural origin"
          else if decide (key = "longOrigin") then "longitude of natural origin"
          else "latitude of natural origin").
Proof.
  intros Hkey. unfold param_dict.
  repeat (apply elem_of_cons in Hkey as [-> | Hkey];
          [simpl; repeat case_decide; split; intros; simplify_eq; done|]).
  by apply elem_of_nil in Hkey.
Qed.

(** The value of the last parameter of the given name, compared in lower
    case. *)
Lemma collect_params_named coord_operation_params key name :
  (∀ n, param_dict n = Some key ↔ n = name) →
  collect_params coord_operation_params !! key
  = param_value <$> last (filter (fun param => lower (param_name param) = name)
                            coord_operation_params).
Proof.
  intros Hname. rewrite collect_params_lookup. do 2 f_equal.
  apply list_filter_iff. intros param. apply Hname.
Qed.

(** X26.  What [_transverse_mercator] returns.  It raises AttributeError
    when the CRS has no source CRS or the source CRS has no coordinate
    operation.  Otherwise it returns; the result is labelled
    [transverse_mercator], carries the inverse flattening of the datum's
    ellipsoid and the longitude of the prime meridian, and each of the five
    projection attributes holds the value of the last parameter of the
    source conversion whose name, compared in lower case, is the one the
    attribute is read from, or its default (1.0 for the scale factor, 0.0
    for the others) when there is none. *)
Theorem transverse_mercator_result crs :
  match source_crs crs ≫= src_coordinate_operation with
  | None => _transverse_mercator crs = Raise AttributeError
  | Some op =>
      let named := fun name =>
        param_value <$> last (filter (fun param => lower (param_name param) = name)
                                (params op)) in
      ∃ attributes,
        _transverse_mercator crs = Ok attributes ∧
        attributes !! "grid_mapping_name" = Some (AStr "transverse_mercator") ∧
        attributes !! "inverse_flattening"
          = Some (AFloat (inverse_flattening (datum_ellipsoid crs))) ∧
        attributes !! "longitude_of_prime_meridian"
          = Some (AFloat (prime_meridian_longitude crs)) ∧
        attributes !! "false_easting"
          = Some (AFloat (default 0%Q (named "false easting"))) ∧
        attributes !! "false_northing"
          = Some (AFloat (default 0%Q (named "false northing"))) ∧
        attributes !! "scale_factor_at_central_meridian"
          = Some (AFloat (default 1%Q (named "scale factor at natural origin"))) ∧
        attributes !! "longitude_of_central_meridian"
          = Some (AFloat (default 0%Q (named "longitude of natural origin"))) ∧
        attributes !! "latitude_of_projection_origin"
          = Some (AFloat (default 0%Q (named "latitude of natural origin")))
  end.
Proof.
  unfold _transverse_mercator.
  destruct (source_crs crs) as [src|]; simpl; [|done].
  destruct (src_coordinate_operation src) as [op|]; simpl; [|done].
  rewrite <- (collect_params_named (params op) "falseEast" "false easting")
    by (intros n; by apply (param_dict_key n "falseEast"); set_solver).
  rewrite <- (collect_params_named (params op) "falseNorth" "false northing")
    by (intros n; by apply (param_dict_key n "falseNorth"); set_solver).
  rewrite <- (collect_params_named (params op) "scale" "scale factor at natural origin")
    by (intros n; by apply (param_dict_key n "scale"); set_solver).
  rewrite <- (collect_params_named (params op) "longOrigin" "longitude of natural origin")
    by (intros n; by apply (param_dict_key n "longOrigin"); set_solver).
  rewrite <- (collect_params_named (params op) "latOrigin" "latitude of natural origin")
    by (intros n; by apply (param_dict_key n "latOrigin"); set_solver).
  generalize (collect_params (params op)). intros collected.
  destruct (is_semi_minor_computed (ellipsoid crs)); eexists; (split; [reflexivity|]);
    split_and!; repeat (rewrite lookup_insert_ne by done);
    try (rewrite lookup_insert_eq; reflexivity);
    simplify_map_eq; reflexivity.
Qed.

(** X27.  [spatial_ref] is always set.  A grid mapping that [encode]
    returns carries [spatial_ref]: the text of the specification itself
    when it is not an EPSG identifier, the WKT that pyproj gives for the
    EPSG code when it is one, and the WKT of EPSG:4326 when the grid names
    no CRS. *)
Theorem encode_spatial_ref rt crs_spec gm :
  encode rt crs_spec = Ok gm →
  ∃ text,
    gm !! "spatial_ref" = Some (AStr text) ∧
    match crs_spec with
    | None => ∃ crs, from_epsg rt 4326 = Ok crs ∧ text = to_wkt crs
    | Some spec =>
        if startswith spec "EPSG:"
        then ∃ code crs, int rt (string_from 5 spec) = Ok code ∧
                         from_epsg rt code = Ok crs ∧ text = to_wkt crs
        else text = spec ∧ ∃ crs, from_wkt rt spec = Ok crs
    end.
Proof.
  unfold encode. destruct crs_spec as [spec|].
  - destruct (startswith spec "EPSG:").
    + destruct (int rt (string_from 5 spec)) as [code|] eqn:Hcode; simpl; [|done].
      destruct (from_epsg rt code) as [crs|] eqn:Hcrs; simpl; [|done].
      match goal with |- (?m ≫= _) = _ → _ => destruct m as [grid_mapping|] end;
        simpl; [|done].
      intros [= <-]. eexists. split; [apply lookup_insert_eq|]. by exists code, crs.
    + destruct (from_wkt rt spec) as [crs|] eqn:Hcrs; simpl; [|done].
      destruct (_transverse_mercator crs) as [grid_mapping|]; simpl; [|done].
      intros [= <-]. eexists. split; [apply lookup_insert_eq|]. split; [done|]. by exists crs.
  - destruct (from_epsg rt 4326) as [crs|] eqn:Hcrs; simpl; [|done].
    intros [= <-]. eexists. split; [apply lookup_singleton_eq|]. by exists crs.
Qed.

Lemma encode_spatial_ref_witness :
  ∃ gm, encode sample_runtime (Some wkt_utm18_wgs84) = Ok gm ∧
        gm !! "spatial_ref" = Some (AStr wkt_utm18_wgs84).
Proof.
  destruct (encode_on_extraction_path sample_runtime wkt_utm18_wgs84 bound_utm18_wgs84 eq_refl)
    as [wkt Hgm].
  destruct (transverse_mercator_semi_axes bound_utm18_wgs84) as (attributes & Htm & _).
  rewrite Htm in Hgm.
  assert (encode sample_runtime (Some wkt_utm18_wgs84)
          = Ok (<["spatial_ref" := AStr wkt]> attributes)) as Hgm' by exact Hgm.
  eexists. split; [exact Hgm'|].
  destruct (encode_spatial_ref sample_runtime (Some wkt_utm18_wgs84) _ Hgm')
    as (text & Hlookup & Htext).
  change (startswith wkt_utm18_wgs84 "EPSG:") with false in Htext.
  destruct Htext as [-> _]. exact Hlookup.
Defined.

(** X28.  A grid that cannot be encoded stops the assignment before
    anything is created.  When resolving the grid's CRS raises, the
    assignment raises the same exception; no member has been added to the
    store and the variable entries of the caller's mapping are untouched,
    but ['global_attributes'] has already been merged into the root
    attributes and deleted from the mapping, while ['grid'] is still
    there. *)
Theorem schema_setter_grid_failure rt self h value e :
  _mode self = "x" → _dataset self = Some h →
  grid_mapping_of rt (grid value) = Raise e →
  let out := schema_setter rt self value in
  out_result out = Raise e ∧
  out_value out = {| global_attributes := None; grid := grid value;
                     variables := variables value |} ∧
  ∃ h', _dataset (out_self out) = Some h' ∧ nodes h' = nodes h ∧
        root_attrs h' = match global_attributes value with
                        | Some ga => ga ∪ root_attrs h
                        | None => root_attrs h
                        end.
Proof.
  intros Hmode Hds Hgm out. unfold out.
  rewrite (schema_setter_run rt self h value Hmode Hds). rewrite Hgm. simpl.
  split; [done|]. split; [done|].
  eexists. split; [reflexivity|]. by destruct (global_attributes value).
Qed.

Lemma schema_setter_grid_failure_witness :
  let value := {| global_attributes := Some {[ "conventions" := AStr "CF-1.11" ]};
                  grid := Some {| grid_crs := Some "EPSG:26718"; upperLeft := (100, 200);
                                  unitSize := 10 |};
                  variables := [("SWE", swe_entry)] |} in
  let out := schema_setter sample_runtime created value in
  out_result out = Raise AttributeError ∧
  out_value out = {| global_attributes := None; grid := grid value;
                     variables := variables value |} ∧
  ∃ h', _dataset (out_self out) = Some h' ∧ nodes h' = nodes empty_hierarchy ∧
        root_attrs h' = {[ "conventions" := AStr "CF-1.11" ]} ∪ root_attrs empty_hierarchy.
Proof.
  apply (schema_setter_grid_failure sample_runtime created empty_hierarchy
           {| global_attributes := Some {[ "conventions" := AStr "CF-1.11" ]};
              grid := Some {| grid_crs := Some "EPSG:26718"; upperLeft := (100, 200);
                              unitSize := 10 |};
              variables := [("SWE", swe_entry)] |} AttributeError);
    reflexivity.
Defined.

